(** * DrawMySTEP: profile extraction and bounding-box rotation

    A shallow embedding of the geometry core of the repository:
    - [projection]    : src/step_laser/projection.py
    - [optimizer]     : src/step_laser/optimizer.py
    - [dxf_min_bound] : src/dxf_min_bound/main.py
    - [pyheap]        : the optimizer once more, over an explicit object store,
                        for the statements about mutation and aliasing;
                        [store_facts.optimize_rotation_refines] relates the
                        two.

    Numbers.  Python floats are read as real numbers ([R]): every arithmetic
    expression is written with the operations and in the order of the source,
    and the comparisons of the source become decisions on [R].  Rounding is
    therefore not part of the model.

    Foreign code.  The CAD kernel (OCP / cadquery) is represented by the data
    it hands to the code (records [curve], [face], [shape]); shapely's
    minimum rotated rectangle and ezdxf's bounding box are parameters of the
    functions that call them. *)

From Stdlib Require Import String Reals Lra Lia Psatz ZArith Bool Arith List.
From Stdlib Require Import Sorted Permutation.
Import ListNotations.
Open Scope R_scope.

(** ** Python values used by the code *)

Inductive exn : Type :=
| IndexError       (* indexing an empty list *)
| ValueError       (* min() / max() of an empty sequence *)
| TypeError        (* iterating over an object that is not a list *)
| AttributeError.  (* reading a field the object does not have *)

Inductive result (A : Type) : Type :=
| Ok (a : A)
| Raise (e : exn).
Arguments Ok {A} a.
Arguments Raise {A} e.

Definition bind {A B : Type} (m : result A) (k : A -> result B) : result B :=
  match m with
  | Ok a => k a
  | Raise e => Raise e
  end.

Notation "x <- m ;; k" := (bind m (fun x => k))
  (at level 61, m at next level, right associativity).

Module Py.

Definition ltb (x y : R) : bool := if Rlt_dec x y then true else false.
Definition leb (x y : R) : bool := if Rle_dec x y then true else false.
Definition gtb (x y : R) : bool := ltb y x.
Definition eqb (x y : R) : bool := if Req_dec_T x y then true else false.

(** [math.floor] as an integer. *)
Definition floor (x : R) : Z := Int_part x.

(** [int(x)] on a float: truncation towards zero. *)
Definition int (x : R) : Z :=
  if Rle_dec 0 x then floor x else (- floor (- x))%Z.

(** [a % m] on floats, for a positive modulus [m]: the result takes the
    sign of [m].  Floats are read as real numbers, on which the remainder
    lies in [0, m); on floats the result of [%] is rounded and can be [m]
    itself, for a negative [a] next to 0.  The bounds stated below for the
    angles the program stores are therefore the closed ones, [0, m]. *)
Definition mod_ (a m : R) : R := a - m * IZR (floor (a / m)).

(** [math.radians], [math.degrees]. *)
Definition radians (x : R) : R := x * (PI / 180).
Definition degrees (x : R) : R := x * (180 / PI).

(** [math.atan2 (y, x)], by quadrant.  On real numbers the value lies in
    (-pi, pi]; on floats [math.atan2] also returns -pi, for a [y] that is
    the negative zero or a negative number of rounding size, with [x < 0].
    The bounds stated below for the angles the program stores are
    therefore the closed ones, [-pi, pi], in degrees [-180, 180]. *)
Definition atan2 (y x : R) : R :=
  if Rlt_dec 0 x then atan (y / x)
  else if Rlt_dec x 0 then
         if Rle_dec 0 y then atan (y / x) + PI else atan (y / x) - PI
       else if Rlt_dec 0 y then PI / 2
            else if Rlt_dec y 0 then - (PI / 2)
                 else 0.

(** [min(xs)] and [max(xs)]: [ValueError] on an empty sequence. *)
Definition min (xs : list R) : result R :=
  match xs with
  | [] => Raise ValueError
  | x :: xs' => Ok (fold_left Rmin xs' x)
  end.

Definition max (xs : list R) : result R :=
  match xs with
  | [] => Raise ValueError
  | x :: xs' => Ok (fold_left Rmax xs' x)
  end.

(** [max(n, m)] on integers, as a natural number of loop steps. *)
Definition max_steps (n : nat) (z : Z) : nat := Nat.max n (Z.to_nat z).

(** [max(xs, key=f)] on a non-empty list: the first element whose key is
    maximal. *)
Fixpoint max_by_from {A : Type} (key : A -> R) (best : A) (xs : list A) : A :=
  match xs with
  | [] => best
  | x :: xs' =>
      if Rlt_dec (key best) (key x) then max_by_from key x xs'
      else max_by_from key best xs'
  end.

(** [sorted(xs, key=f)]: a stable sort. *)
Fixpoint insert_by {A : Type} (key : A -> R) (a : A) (l : list A) : list A :=
  match l with
  | [] => [a]
  | b :: l' =>
      if Rle_dec (key a) (key b) then a :: l else b :: insert_by key a l'
  end.

Definition sorted {A : Type} (key : A -> R) (l : list A) : list A :=
  fold_right (insert_by key) [] l.

(** [xs[0]]. *)
Definition first {A : Type} (xs : list A) : result A :=
  match xs with
  | [] => Raise IndexError
  | x :: _ => Ok x
  end.

End Py.

(** ** src/step_laser/projection.py *)

Module projection.

(** The four dataclasses [Line2D], [Circle2D], [Arc2D], [Polyline2D]; the
    [isinstance] tests of the source are matches on the constructor. *)
Inductive edge : Type :=
| Line2D (x1 y1 x2 y2 : R)
| Circle2D (cx cy r : R)
| Arc2D (cx cy r start_deg sweep_deg x1 y1 x2 y2 : R)
| Polyline2D (points : list (R * R)).

Inductive axis : Type := X | Y | Z.

Record ProfileResult : Type := {
  edges : list edge;
  wires : list (list edge);
  thickness_inches : R;
  extrusion_axis : axis
}.

(** *** The kernel objects the module reads *)

Inductive GeomAbs : Type := GeomAbs_Line | GeomAbs_Circle | GeomAbs_Other.

(** A [BRepAdaptor_Curve]: [GetType], [FirstParameter], [LastParameter],
    [Value], and for circles [Circle().Location()] and [Circle().Radius()]. *)
Record curve : Type := {
  GetType : GeomAbs;
  FirstParameter : R;
  LastParameter : R;
  Value : R -> R * R * R;
  Location : R * R * R;
  Radius : R
}.

(** A cadquery face: [geomType()], [normalAt(Center())] ([None] when the
    call raises), the area of [_face_area], [outerWire().Edges()] and the
    edges of each of [innerWires()]. *)
Record face : Type := {
  geomType : string;
  normalAt_Center : option (R * R * R);
  _face_area : R;
  outerWire : list curve;
  innerWires : list (list curve)
}.

(** A workplane holding one solid: its bounding box and [faces().vals()]. *)
Record shape : Type := {
  xmin : R; xmax : R;
  ymin : R; ymax : R;
  zmin : R; zmax : R;
  faces : list face
}.

Definition AXIS_VECTORS (a : axis) : R * R * R :=
  match a with
  | X => (1, 0, 0)
  | Y => (0, 1, 0)
  | Z => (0, 0, 1)
  end.

Definition Dot (u v : R * R * R) : R :=
  let '(ux, uy, uz) := u in
  let '(vx, vy, vz) := v in
  ux * vx + uy * vy + uz * vz.

Definition _normalize_angle (a : R) : R :=
  let a := Py.mod_ a 360 in
  if Py.ltb a 0 then a + 360 else a.

Definition is_Line2D (e : edge) : bool :=
  match e with Line2D _ _ _ _ => true | _ => false end.

(** Direction vector [(x2 - x1, y2 - y1)] of a line; the other variants
    never reach this point in [_is_rectangle]. *)
Definition direction (e : edge) : R * R :=
  match e with
  | Line2D x1 y1 x2 y2 => (x2 - x1, y2 - y1)
  | _ => (0, 0)
  end.

Definition np_dot (u v : R * R) : R := fst u * fst v + snd u * snd v.
Definition np_norm (u : R * R) : R := sqrt (fst u * fst u + snd u * snd u).

(** The quantity [dot] of the loop body. *)
Definition adjacent_dot (a b : edge) : R :=
  let va := direction a in
  let vb := direction b in
  np_dot va vb / (np_norm va * np_norm vb + 1e-12).

Definition _is_rectangle (edges_2d : list edge) : bool :=
  let lines := filter is_Line2D edges_2d in
  if negb (length lines =? length edges_2d)%nat
     || negb (length lines =? 4)%nat
  then false
  else
    forallb
      (fun i =>
         let a := nth i lines (Line2D 0 0 0 0) in
         let b := nth ((i + 1) mod 4) lines (Line2D 0 0 0 0) in
         negb (Py.gtb (Rabs (adjacent_dot a b)) 0.05))
      (seq 0 4).

Definition _drop_axis (p : R * R * R) (a : axis) : R * R :=
  let '(x, y, z) := p in
  match a with
  | X => (y, z)
  | Y => (x, z)
  | Z => (x, y)
  end.

(** The body of the loop of [_extract_edges_from_wire] for one edge: the
    primitives it appends (none or one). *)
Definition classify (c : curve) (a : axis) (scale : R) : list edge :=
  let first := FirstParameter c in
  let last := LastParameter c in
  if Py.ltb (Rabs (last - first)) 1e-3 then []
  else
    match GetType c with
    | GeomAbs_Line =>
        let '(u1, v1) := _drop_axis (Value c first) a in
        let '(u2, v2) := _drop_axis (Value c last) a in
        [Line2D (u1 * scale) (v1 * scale) (u2 * scale) (v2 * scale)]
    | GeomAbs_Circle =>
        let '(cx, cy) := _drop_axis (Location c) a in
        let cx := cx * scale in
        let cy := cy * scale in
        let r := Radius c * scale in
        let '(u1, v1) := _drop_axis (Value c first) a in
        let '(u2, v2) := _drop_axis (Value c last) a in
        let u1 := u1 * scale in
        let v1 := v1 * scale in
        let u2 := u2 * scale in
        let v2 := v2 * scale in
        if Py.ltb (Rabs (last - first - 2 * PI)) 1e-6 then
          [Circle2D cx cy r]
        else
          let start_rad := Py.atan2 (v1 - cy) (u1 - cx) in
          let end_rad := Py.atan2 (v2 - cy) (u2 - cx) in
          let '(um, vm) := _drop_axis (Value c ((first + last) / 2)) a in
          let um := um * scale in
          let vm := vm * scale in
          let mid_rad := Py.atan2 (vm - cy) (um - cx) in
          let start_deg := Py.degrees start_rad in
          let end_deg := Py.degrees end_rad in
          let mid_deg := Py.degrees mid_rad in
          let ccw_sweep := _normalize_angle (end_deg - start_deg) in
          let ccw_sweep := if Py.eqb ccw_sweep 0 then 360 else ccw_sweep in
          let mid_from_start := _normalize_angle (mid_deg - start_deg) in
          let sweep_deg :=
            if Py.leb mid_from_start (ccw_sweep + 0.5) then ccw_sweep
            else ccw_sweep - 360 in
          [Arc2D cx cy r start_deg sweep_deg u1 v1 u2 v2]
    | GeomAbs_Other =>
        let n_points := Py.max_steps 20 (Py.int ((last - first) * 50)) in
        let pts :=
          map (fun i =>
                 let t := first + (last - first) * INR i / INR n_points in
                 let '(u, v) := _drop_axis (Value c t) a in
                 (u * scale, v * scale))
              (seq 0 (n_points + 1)) in
        [Polyline2D pts]
    end.

(** [for edge in wire.Edges()]: the primitives in the order of the edges. *)
Definition _extract_edges_from_wire (wire : list curve) (a : axis) (scale : R)
  : list edge :=
  flat_map (fun c => classify c a scale) wire.

(** The dictionary [extents] of [extract_profile]. *)
Definition extents (s : shape) (a : axis) : R :=
  match a with
  | X => xmax s - xmin s
  | Y => ymax s - ymin s
  | Z => zmax s - zmin s
  end.

(** [sorted(extents.keys(), key=lambda a: extents[a])]; the keys of the
    dictionary come in the order X, Y, Z. *)
Definition axes_sorted (s : shape) : list axis :=
  Py.sorted (extents s) [X; Y; Z].

(** The filter both face loops of [extract_profile] apply: the face is a
    plane, its normal can be computed, and the normal is parallel to the
    axis. *)
Definition parallel_planar (a : axis) (f : face) : bool :=
  if negb (String.eqb (geomType f) "PLANE") then false
  else
    match normalAt_Center f with
    | None => false
    | Some normal => Py.gtb (Rabs (Dot normal (AXIS_VECTORS a))) 0.999
    end.

(** [candidate_faces] in the loop, [planar_faces] in the fallback. *)
Definition candidate_faces (s : shape) (a : axis) : list face :=
  filter (parallel_planar a) (faces s).

(** [max(fs, key=_face_area)] when [fs] is not empty. *)
Definition best_of (fs : list face) : option face :=
  match fs with
  | [] => None
  | f :: fs' => Some (Py.max_by_from _face_area f fs')
  end.

(** [outer_edges], [inner_wires_edges] and [all_edges] for the face
    [best_face], and the [ProfileResult] built from them. *)
Definition outer_edges (f : face) (a : axis) (scale : R) : list edge :=
  _extract_edges_from_wire (outerWire f) a scale.

Definition inner_wires_edges (f : face) (a : axis) (scale : R)
  : list (list edge) :=
  map (fun iw => _extract_edges_from_wire iw a scale) (innerWires f).

Definition all_edges (f : face) (a : axis) (scale : R) : list edge :=
  outer_edges f a scale ++ concat (inner_wires_edges f a scale).

Definition profile_of (s : shape) (f : face) (a : axis) (scale : R)
  : ProfileResult :=
  {| edges := all_edges f a scale;
     wires := outer_edges f a scale :: inner_wires_edges f a scale;
     thickness_inches := extents s a * scale;
     extrusion_axis := a |}.

(** The [for axis in axes_sorted] loop: [Some] is its [return], [None] is
    falling out of the loop. *)
Fixpoint axis_loop (s : shape) (scale : R) (axes : list axis)
  : option ProfileResult :=
  match axes with
  | [] => None
  | a :: rest =>
      match best_of (candidate_faces s a) with
      | None => axis_loop s scale rest
      | Some best_face =>
          if _is_rectangle (all_edges best_face a scale)
          then axis_loop s scale rest
          else Some (profile_of s best_face a scale)
      end
  end.

(** The statements after the loop: the smallest axis, its largest parallel
    planar face or else the first face of the solid. *)
Definition fallback (s : shape) (scale : R) : result ProfileResult :=
  a <- Py.first (axes_sorted s) ;;
  best_face <- match best_of (candidate_faces s a) with
               | Some f => Ok f
               | None => Py.first (faces s)
               end ;;
  Ok (profile_of s best_face a scale).

Definition extract_profile (s : shape) (unit_to_inches : R)
  : result ProfileResult :=
  match axis_loop s unit_to_inches (axes_sorted s) with
  | Some p => Ok p
  | None => fallback s unit_to_inches
  end.

End projection.

(** ** src/step_laser/optimizer.py *)

Module optimizer.
Import projection.

Record OptimizedProfile : Type := {
  edges : list edge;
  wires : list (list edge);
  bbox_w : R;
  bbox_h : R;
  rotation_deg : R;
  thickness_inches : R
}.

(** [_sample_arc_points], on the fields of the arc. *)
Definition _sample_arc_points
  (cx cy r start_deg sweep_deg x1 y1 x2 y2 : R) (n_per_full_circle : nat)
  : list (R * R) :=
  let sa := Py.radians start_deg in
  let sweep_rad := Py.radians sweep_deg in
  let n := Py.max_steps 8
             (Py.int (Rabs sweep_deg / 360 * INR n_per_full_circle)) in
  [(x1, y1); (x2, y2)]
    ++ map (fun i =>
              let a := sa + sweep_rad * INR i / INR n in
              (cx + r * cos a, cy + r * sin a))
           (seq 1 (n - 1)).

(** The points one edge contributes in [_sample_points]. *)
Definition edge_points (e : edge) : list (R * R) :=
  match e with
  | Line2D x1 y1 x2 y2 => [(x1, y1); (x2, y2)]
  | Circle2D cx cy r =>
      map (fun i =>
             let a := 2 * PI * INR i / 64 in
             (cx + r * cos a, cy + r * sin a))
          (seq 0 64)
  | Arc2D cx cy r start_deg sweep_deg x1 y1 x2 y2 =>
      _sample_arc_points cx cy r start_deg sweep_deg x1 y1 x2 y2 64
  | Polyline2D points => points
  end.

Definition _sample_points (es : list edge) : list (R * R) :=
  flat_map edge_points es.

Definition _rotate_point (x y cos_a sin_a : R) : R * R :=
  (x * cos_a - y * sin_a, x * sin_a + y * cos_a).

Definition _rotate_edge (e : edge) (cos_a sin_a : R) : edge :=
  match e with
  | Line2D x1 y1 x2 y2 =>
      let '(x1r, y1r) := _rotate_point x1 y1 cos_a sin_a in
      let '(x2r, y2r) := _rotate_point x2 y2 cos_a sin_a in
      Line2D x1r y1r x2r y2r
  | Circle2D cx cy r =>
      let '(cxr, cyr) := _rotate_point cx cy cos_a sin_a in
      Circle2D cxr cyr r
  | Arc2D cx cy r start_deg sweep_deg x1 y1 x2 y2 =>
      let '(cxr, cyr) := _rotate_point cx cy cos_a sin_a in
      let '(x1r, y1r) := _rotate_point x1 y1 cos_a sin_a in
      let '(x2r, y2r) := _rotate_point x2 y2 cos_a sin_a in
      let angle_offset := Py.degrees (Py.atan2 sin_a cos_a) in
      Arc2D cxr cyr r (start_deg + angle_offset) sweep_deg x1r y1r x2r y2r
  | Polyline2D points =>
      Polyline2D
        (map (fun p => _rotate_point (fst p) (snd p) cos_a sin_a) points)
  end.

Definition _translate_edge (e : edge) (dx dy : R) : edge :=
  match e with
  | Line2D x1 y1 x2 y2 => Line2D (x1 + dx) (y1 + dy) (x2 + dx) (y2 + dy)
  | Circle2D cx cy r => Circle2D (cx + dx) (cy + dy) r
  | Arc2D cx cy r start_deg sweep_deg x1 y1 x2 y2 =>
      Arc2D (cx + dx) (cy + dy) r start_deg sweep_deg
            (x1 + dx) (y1 + dy) (x2 + dx) (y2 + dy)
  | Polyline2D points =>
      Polyline2D (map (fun p => (fst p + dx, snd p + dy)) points)
  end.

Section with_shapely.

(** [list(MultiPoint(pts).convex_hull.minimum_rotated_rectangle.exterior.coords)],
    of which the code reads the entries 0 and 1.  shapely is not part of the
    repository: what it returns is a parameter.  [Some] is the pair of
    entries when the rectangle is a polygon; [None] stands for the calls in
    which it is not, a line string or a point for points that are collinear
    or coincide: reading [.exterior] of it raises [AttributeError]. *)
Variable mrr_coords : list (R * R) -> option ((R * R) * (R * R)).

Definition _find_optimal_angle (pts : list (R * R)) : result R :=
  if (length pts <? 3)%nat then Ok 0
  else
    match mrr_coords pts with
    | None => Raise AttributeError
    | Some (c0, c1) =>
        let edge_vec := (fst c1 - fst c0, snd c1 - snd c0) in
        let angle_rad := Py.atan2 (snd edge_vec) (fst edge_vec) in
        Ok (Py.degrees angle_rad)
    end.

Definition optimize_rotation (profile : ProfileResult)
  : result OptimizedProfile :=
  let pts := _sample_points (projection.edges profile) in
  angle_deg <- _find_optimal_angle pts ;;
  let rad := Py.radians (- angle_deg) in
  let cos_a := cos rad in
  let sin_a := sin rad in
  let rotated_edges :=
    map (fun e => _rotate_edge e cos_a sin_a) (projection.edges profile) in
  let rotated_wires :=
    map (fun wire => map (fun e => _rotate_edge e cos_a sin_a) wire)
        (projection.wires profile) in
  let rotated_pts := _sample_points rotated_edges in
  let xs := map fst rotated_pts in
  let ys := map snd rotated_pts in
  xmin <- Py.min xs ;;
  xmax <- Py.max xs ;;
  ymin <- Py.min ys ;;
  ymax <- Py.max ys ;;
  let dx := - xmin in
  let dy := - ymin in
  let translated_edges :=
    map (fun e => _translate_edge e dx dy) rotated_edges in
  let translated_wires :=
    map (fun wire => map (fun e => _translate_edge e dx dy) wire)
        rotated_wires in
  Ok {| edges := translated_edges;
        wires := translated_wires;
        bbox_w := xmax - xmin;
        bbox_h := ymax - ymin;
        rotation_deg := - angle_deg;
        thickness_inches := projection.thickness_inches profile |}.

End with_shapely.

End optimizer.

(** ** src/dxf_min_bound/main.py *)

Module dxf_min_bound.

(** The entities of a modelspace, by [dxftype()].  Points are the three
    coordinates ezdxf stores; the points of an [LWPOLYLINE] are
    [(x, y, bulge)]; any other entity type is left alone by the tool. *)
Inductive entity : Type :=
| LINE (start end_ : R * R * R)
| CIRCLE (center : R * R * R) (radius : R)
| ARC (center : R * R * R) (radius start_angle end_angle : R)
| LWPOLYLINE (points : list (R * R * R))
| OTHER (dxftype : string).

Definition c0 (p : R * R * R) : R := fst (fst p).
Definition c1 (p : R * R * R) : R := snd (fst p).
Definition c2 (p : R * R * R) : R := snd p.

Definition _sample_entity_points (e : entity) (n : nat) : list (R * R) :=
  match e with
  | LINE start end_ => [(c0 start, c1 start); (c0 end_, c1 end_)]
  | CIRCLE center r =>
      let cx := c0 center in
      let cy := c1 center in
      map (fun i =>
             let a := 2 * PI * INR i / INR n in
             (cx + r * cos a, cy + r * sin a))
          (seq 0 n)
  | ARC center r sa ea =>
      let cx := c0 center in
      let cy := c1 center in
      let span := Py.mod_ (ea - sa) 360 in
      let span := if Py.eqb span 0 then 360 else span in
      let steps := Py.max_steps 8 (Py.int (span / 360 * INR n)) in
      map (fun i =>
             let a := Py.radians (sa + span * INR i / INR steps) in
             (cx + r * cos a, cy + r * sin a))
          (seq 0 (steps + 1))
  | LWPOLYLINE points => map (fun p => (c0 p, c1 p)) points
  | OTHER _ => []
  end.

Definition _rotate_pt (x y cos_a sin_a : R) : R * R :=
  (x * cos_a - y * sin_a, x * sin_a + y * cos_a).

(** The first loop of [_apply_rotation], for one entity. *)
Definition rotate_entity (e : entity) (angle_deg cos_a sin_a : R) : entity :=
  match e with
  | LINE start end_ =>
      let '(sx, sy) := _rotate_pt (c0 start) (c1 start) cos_a sin_a in
      let '(ex, ey) := _rotate_pt (c0 end_) (c1 end_) cos_a sin_a in
      LINE (sx, sy, 0) (ex, ey, 0)
  | CIRCLE center r =>
      let '(cx, cy) := _rotate_pt (c0 center) (c1 center) cos_a sin_a in
      CIRCLE (cx, cy, 0) r
  | ARC center r sa ea =>
      let '(cx, cy) := _rotate_pt (c0 center) (c1 center) cos_a sin_a in
      ARC (cx, cy, 0) r
          (Py.mod_ (sa + angle_deg) 360) (Py.mod_ (ea + angle_deg) 360)
  | LWPOLYLINE points =>
      LWPOLYLINE
        (map (fun pt =>
                let '(rx, ry) := _rotate_pt (c0 pt) (c1 pt) cos_a sin_a in
                (rx, ry, c2 pt))
             points)
  | OTHER t => OTHER t
  end.

(** The second loop of [_apply_rotation], for one entity. *)
Definition translate_entity (e : entity) (ox oy : R) : entity :=
  match e with
  | LINE start end_ =>
      LINE (c0 start - ox, c1 start - oy, 0) (c0 end_ - ox, c1 end_ - oy, 0)
  | CIRCLE center r => CIRCLE (c0 center - ox, c1 center - oy, 0) r
  | ARC center r sa ea => ARC (c0 center - ox, c1 center - oy, 0) r sa ea
  | LWPOLYLINE points =>
      LWPOLYLINE (map (fun pt => (c0 pt - ox, c1 pt - oy, c2 pt)) points)
  | OTHER t => OTHER t
  end.

Section with_libraries.

(** shapely's rectangle, as in [optimizer]: [None] when it is no polygon
    and reading [.exterior] raises [AttributeError]. *)
Variable mrr_coords : list (R * R) -> option ((R * R) * (R * R)).

(** [ezdxf.bbox.extents(msp)]: the pair [(extmin, extmax)].  ezdxf is not
    part of the repository. *)
Variable extents : list entity -> (R * R * R) * (R * R * R).

Definition _find_optimal_angle (all_pts : list (R * R)) : result R :=
  if (length all_pts <? 3)%nat then Ok 0
  else
    match mrr_coords all_pts with
    | None => Raise AttributeError
    | Some (k0, k1) =>
        let edge_vec := (fst k1 - fst k0, snd k1 - snd k0) in
        Ok (Py.degrees (Py.atan2 (snd edge_vec) (fst edge_vec)))
    end.

(** [_apply_rotation] changes the entities in place; the model returns the
    modelspace after the call together with the returned pair. *)
Definition _apply_rotation (msp : list entity) (angle_deg : R)
  : list entity * (R * R) :=
  let rad := Py.radians angle_deg in
  let cos_a := cos rad in
  let sin_a := sin rad in
  let msp := map (fun e => rotate_entity e angle_deg cos_a sin_a) msp in
  let ext := extents msp in
  let ox := c0 (fst ext) in
  let oy := c1 (fst ext) in
  let msp := map (fun e => translate_entity e ox oy) msp in
  let ext := extents msp in
  (msp, (c0 (snd ext), c1 (snd ext))).

(** [process_dxf] between reading and saving the document. *)
Definition process_dxf (msp : list entity) : result (list entity * (R * R)) :=
  let all_pts := flat_map (fun e => _sample_entity_points e 64) msp in
  match all_pts with
  | [] => Raise ValueError
  | _ =>
      mrr_angle <- _find_optimal_angle all_pts ;;
      let angle_deg := - mrr_angle in
      Ok (_apply_rotation msp angle_deg)
  end.

End with_libraries.

End dxf_min_bound.

(** ** The optimizer over an object store

    The same statements of src/step_laser/optimizer.py, with the objects of
    the program in a store: a dataclass instance or a list is a cell, a value
    of the program is a reference to a cell.  A new object takes the next
    free reference; [pts.append] and [pts.extend] update the cell of the
    list. *)

Module pyheap.
Import projection.

Definition ref : Type := nat.

Inductive obj : Type :=
| OLine2D (x1 y1 x2 y2 : R)
| OCircle2D (cx cy r : R)
| OArc2D (cx cy r start_deg sweep_deg x1 y1 x2 y2 : R)
| OPolyline2D (points : ref)
| OPoints (pts : list (R * R))          (* a list of tuples *)
| OList (items : list ref)              (* a list of objects *)
| OProfileResult (edges wires : ref) (thickness_inches : R)
                 (extrusion_axis : axis)
| OOptimizedProfile (edges wires : ref)
                    (bbox_w bbox_h rotation_deg thickness_inches : R).

Definition heap : Type := list obj.

(** Computations: a result or an exception, and the store afterwards. *)
Definition M (A : Type) : Type := heap -> result A * heap.

Definition ret {A : Type} (a : A) : M A := fun h => (Ok a, h).

Definition raise {A : Type} (e : exn) : M A := fun h => (Raise e, h).

Definition mbind {A B : Type} (m : M A) (k : A -> M B) : M B :=
  fun h =>
    match m h with
    | (Ok a, h') => k a h'
    | (Raise e, h') => (Raise e, h')
    end.

Notation "x <~ m ;; k" := (mbind m (fun x => k))
  (at level 61, m at next level, right associativity).

(** Constructing an object. *)
Definition new (o : obj) : M ref := fun h => (Ok (length h), h ++ [o]).

(** Reading the object behind a reference. *)
Definition get (r : ref) : M obj :=
  fun h =>
    match nth_error h r with
    | Some o => (Ok o, h)
    | None => (Raise AttributeError, h)
    end.

(** Iterating over a list of objects, and over a list of tuples. *)
Definition get_list (r : ref) : M (list ref) :=
  o <~ get r ;;
  match o with
  | OList items => ret items
  | _ => raise TypeError
  end.

Definition get_points (r : ref) : M (list (R * R)) :=
  o <~ get r ;;
  match o with
  | OPoints pts => ret pts
  | _ => raise TypeError
  end.

Definition lift {A : Type} (x : result A) : M A := fun h => (x, h).

(** A list comprehension [[f(x) for x in xs]], before the list object is
    made. *)
Fixpoint mapM {A B : Type} (f : A -> M B) (xs : list A) : M (list B) :=
  match xs with
  | [] => ret []
  | x :: xs' =>
      y <~ f x ;;
      ys <~ mapM f xs' ;;
      ret (y :: ys)
  end.

(** Assigning to a cell. *)
Definition set (r : ref) (o : obj) : M unit :=
  fun h =>
    if (r <? length h)%nat
    then (Ok tt, firstn r h ++ o :: skipn (S r) h)
    else (Raise AttributeError, h).

(** [pts.append(p)] and [pts.extend(ps)] on a list of tuples. *)
Definition append (pts : ref) (p : R * R) : M unit :=
  l <~ get_points pts ;;
  set pts (OPoints (l ++ [p])).

Definition extend (pts : ref) (ps : list (R * R)) : M unit :=
  l <~ get_points pts ;;
  set pts (OPoints (l ++ ps)).

(** A [for] loop over a list. *)
Fixpoint forM {A : Type} (xs : list A) (body : A -> M unit) : M unit :=
  match xs with
  | [] => ret tt
  | x :: xs' => _ <~ body x ;; forM xs' body
  end.

Definition _sample_arc_points
  (cx cy r start_deg sweep_deg x1 y1 x2 y2 : R) (n_per_full_circle : nat)
  : M ref :=
  pts <~ new (OPoints [(x1, y1); (x2, y2)]) ;;
  let sa := Py.radians start_deg in
  let sweep_rad := Py.radians sweep_deg in
  let n := Py.max_steps 8
             (Py.int (Rabs sweep_deg / 360 * INR n_per_full_circle)) in
  _ <~ forM (seq 1 (n - 1))
         (fun i =>
            let a := sa + sweep_rad * INR i / INR n in
            append pts (cx + r * cos a, cy + r * sin a)) ;;
  ret pts.

(** The body of the loop of [_sample_points]. *)
Definition sample_edge (pts : ref) (e : ref) : M unit :=
  o <~ get e ;;
  match o with
  | OLine2D x1 y1 x2 y2 =>
      _ <~ append pts (x1, y1) ;;
      append pts (x2, y2)
  | OCircle2D cx cy r =>
      forM (seq 0 64)
        (fun i =>
           let a := 2 * PI * INR i / 64 in
           append pts (cx + r * cos a, cy + r * sin a))
  | OArc2D cx cy r start_deg sweep_deg x1 y1 x2 y2 =>
      q <~ _sample_arc_points cx cy r start_deg sweep_deg x1 y1 x2 y2 64 ;;
      qs <~ get_points q ;;
      extend pts qs
  | OPolyline2D points =>
      qs <~ get_points points ;;
      extend pts qs
  | _ => ret tt
  end.

Definition _sample_points (es : list ref) : M ref :=
  pts <~ new (OPoints []) ;;
  _ <~ forM es (sample_edge pts) ;;
  ret pts.

(** An object of another class falls through every [isinstance] test and is
    returned as it is. *)
Definition _rotate_edge (cos_a sin_a : R) (edge : ref) : M ref :=
  o <~ get edge ;;
  match o with
  | OLine2D x1 y1 x2 y2 =>
      let '(x1r, y1r) := optimizer._rotate_point x1 y1 cos_a sin_a in
      let '(x2r, y2r) := optimizer._rotate_point x2 y2 cos_a sin_a in
      new (OLine2D x1r y1r x2r y2r)
  | OCircle2D cx cy r =>
      let '(cxr, cyr) := optimizer._rotate_point cx cy cos_a sin_a in
      new (OCircle2D cxr cyr r)
  | OArc2D cx cy r start_deg sweep_deg x1 y1 x2 y2 =>
      let '(cxr, cyr) := optimizer._rotate_point cx cy cos_a sin_a in
      let '(x1r, y1r) := optimizer._rotate_point x1 y1 cos_a sin_a in
      let '(x2r, y2r) := optimizer._rotate_point x2 y2 cos_a sin_a in
      let angle_offset := Py.degrees (Py.atan2 sin_a cos_a) in
      new (OArc2D cxr cyr r (start_deg + angle_offset) sweep_deg
                  x1r y1r x2r y2r)
  | OPolyline2D points =>
      pts <~ get_points points ;;
      new_pts <~ new (OPoints
                        (map (fun p => optimizer._rotate_point
                                         (fst p) (snd p) cos_a sin_a) pts)) ;;
      new (OPolyline2D new_pts)
  | _ => ret edge
  end.

Definition _translate_edge (dx dy : R) (edge : ref) : M ref :=
  o <~ get edge ;;
  match o with
  | OLine2D x1 y1 x2 y2 =>
      new (OLine2D (x1 + dx) (y1 + dy) (x2 + dx) (y2 + dy))
  | OCircle2D cx cy r => new (OCircle2D (cx + dx) (cy + dy) r)
  | OArc2D cx cy r start_deg sweep_deg x1 y1 x2 y2 =>
      new (OArc2D (cx + dx) (cy + dy) r start_deg sweep_deg
                  (x1 + dx) (y1 + dy) (x2 + dx) (y2 + dy))
  | OPolyline2D points =>
      pts <~ get_points points ;;
      new_pts <~ new (OPoints (map (fun p => (fst p + dx, snd p + dy)) pts)) ;;
      new (OPolyline2D new_pts)
  | _ => ret edge
  end.

(** [[f(e) for e in xs]] as an object. *)
Definition comprehension (f : ref -> M ref) (xs : list ref) : M ref :=
  ys <~ mapM f xs ;;
  new (OList ys).

(** [[[f(e) for e in wire] for wire in wires]] as an object. *)
Definition comprehension2 (f : ref -> M ref) (wires : list ref) : M ref :=
  comprehension (fun wire => es <~ get_list wire ;; comprehension f es) wires.

Section with_shapely.

Variable mrr_coords : list (R * R) -> option ((R * R) * (R * R)).

Definition optimize_rotation (profile : ref) : M ref :=
  p <~ get profile ;;
  match p with
  | OProfileResult edges wires thickness_inches _ =>
      es <~ get_list edges ;;
      pts <~ _sample_points es ;;
      ps <~ get_points pts ;;
      angle_deg <~ lift (optimizer._find_optimal_angle mrr_coords ps) ;;
      let rad := Py.radians (- angle_deg) in
      let cos_a := cos rad in
      let sin_a := sin rad in
      rotated_edges <~ comprehension (_rotate_edge cos_a sin_a) es ;;
      ws <~ get_list wires ;;
      rotated_wires <~ comprehension2 (_rotate_edge cos_a sin_a) ws ;;
      res <~ get_list rotated_edges ;;
      rotated_pts <~ _sample_points res ;;
      rps <~ get_points rotated_pts ;;
      let xs := map fst rps in
      let ys := map snd rps in
      xmin <~ lift (Py.min xs) ;;
      xmax <~ lift (Py.max xs) ;;
      ymin <~ lift (Py.min ys) ;;
      ymax <~ lift (Py.max ys) ;;
      let dx := - xmin in
      let dy := - ymin in
      translated_edges <~ comprehension (_translate_edge dx dy) res ;;
      rws <~ get_list rotated_wires ;;
      translated_wires <~ comprehension2 (_translate_edge dx dy) rws ;;
      new (OOptimizedProfile translated_edges translated_wires
                             (xmax - xmin) (ymax - ymin)
                             (- angle_deg) thickness_inches)
  | _ => raise AttributeError
  end.

End with_shapely.

End pyheap.

(** ** Concrete inputs *)

Module Examples.
Import projection.

(** A straight edge from [p] to [q], parameterised over [0, 1]. *)
Definition segment (p q : R * R * R) : curve :=
  {| GetType := GeomAbs_Line;
     FirstParameter := 0;
     LastParameter := 1;
     Value := fun t =>
                (fst (fst p) + t * (fst (fst q) - fst (fst p)),
                 snd (fst p) + t * (snd (fst q) - snd (fst p)),
                 snd p + t * (snd q - snd p));
     Location := (0, 0, 0);
     Radius := 0 |}.

(** A circular edge in a plane of constant z, parameterised by the angle. *)
Definition circle_edge (cx cy z r first last : R) : curve :=
  {| GetType := GeomAbs_Circle;
     FirstParameter := first;
     LastParameter := last;
     Value := fun t => (cx + r * cos t, cy + r * sin t, z);
     Location := (cx, cy, z);
     Radius := r |}.

(** The same circle seen from the other side: the kernel's parameter runs
    clockwise in the projection. *)
Definition flipped_circle_edge (cx cy z r first last : R) : curve :=
  {| GetType := GeomAbs_Circle;
     FirstParameter := first;
     LastParameter := last;
     Value := fun t => (cx + r * cos t, cy - r * sin t, z);
     Location := (cx, cy, z);
     Radius := r |}.

(** The seam of the unit sphere about the origin: the half circle in the
    plane y = 0 that runs from the south pole to the north pole, with the
    latitude for parameter. *)
Definition sphere_seam : curve :=
  {| GetType := GeomAbs_Circle;
     FirstParameter := - (PI / 2);
     LastParameter := PI / 2;
     Value := fun t => (cos t, 0, sin t);
     Location := (0, 0, 0);
     Radius := 1 |}.

(** A ball of radius 1: one face, which is not planar, bounded by its
    seam. *)
Definition sphere_face : face :=
  {| geomType := "SPHERE";
     normalAt_Center := Some (1, 0, 0);
     _face_area := 4 * PI;
     outerWire := [sphere_seam];
     innerWires := [] |}.

Definition sphere : shape :=
  {| xmin := -1; xmax := 1; ymin := -1; ymax := 1; zmin := -1; zmax := 1;
     faces := [sphere_face] |}.

(** The top face of a 10 x 5 plate with one round hole of radius 1. *)
Definition plate_top : face :=
  {| geomType := "PLANE";
     normalAt_Center := Some (0, 0, 1);
     _face_area := 50 - PI;
     outerWire := [segment (0, 0, 1) (10, 0, 1);
                   segment (10, 0, 1) (10, 5, 1);
                   segment (10, 5, 1) (0, 5, 1);
                   segment (0, 5, 1) (0, 0, 1)];
     innerWires := [[circle_edge 5 2.5 1 1 0 (2 * PI)]] |}.

(** A bar of triangular section (legs 4 and 3 in the XY plane), 10 long
    along Z: the two triangles and the three rectangular sides. *)
Definition triangle_at (z nz : R) : face :=
  {| geomType := "PLANE";
     normalAt_Center := Some (0, 0, nz);
     _face_area := 6;
     outerWire := [segment (0, 0, z) (4, 0, z);
                   segment (4, 0, z) (0, 3, z);
                   segment (0, 3, z) (0, 0, z)];
     innerWires := [] |}.

Definition side (p q : R * R) (n : R * R * R) (area : R) : face :=
  {| geomType := "PLANE";
     normalAt_Center := Some n;
     _face_area := area;
     outerWire := [segment (fst p, snd p, 0) (fst q, snd q, 0);
                   segment (fst q, snd q, 0) (fst q, snd q, 10);
                   segment (fst q, snd q, 10) (fst p, snd p, 10);
                   segment (fst p, snd p, 10) (fst p, snd p, 0)];
     innerWires := [] |}.

Definition bar : shape :=
  {| xmin := 0; xmax := 4; ymin := 0; ymax := 3; zmin := 0; zmax := 10;
     faces := [triangle_at 0 (-1);
               triangle_at 10 1;
               side (0, 0) (4, 0) (0, -1, 0) 40;
               side (4, 0) (0, 3) (0.6, 0.8, 0) 50;
               side (0, 3) (0, 0) (-1, 0, 0) 30] |}.

(** A shape without any face. *)
Definition no_faces : shape :=
  {| xmin := 0; xmax := 0; ymin := 0; ymax := 0; zmin := 0; zmax := 0;
     faces := [] |}.

(** A profile without an edge, as [extract_profile] returns it for a face
    all of whose edges are degenerate. *)
Definition empty_profile (unit_to_inches : R) : ProfileResult :=
  {| edges := [];
     wires := [[]];
     thickness_inches := (1 - -1) * unit_to_inches;
     extrusion_axis := X |}.

(** One segment from (0,0) to (3,4). *)
Definition one_line : ProfileResult :=
  {| edges := [Line2D 0 0 3 4];
     wires := [[Line2D 0 0 3 4]];
     thickness_inches := 1;
     extrusion_axis := Z |}.

(** A quarter of the unit circle, from -90 to 0 degrees. *)
Definition quarter_arc : edge := Arc2D 0 0 1 (-90) 90 0 (-1) 1 0.

(** A circular edge that goes round twice: start and end point coincide,
    the span is not 2 pi. *)
Definition two_turns : curve := circle_edge 0 0 0 1 0 (2 * PI + 2 * PI).

Import dxf_min_bound.

(** A drawing of one polyline from (0,0) to (2,2) whose one segment is a
    half circle (bulge 1), and the profile of the two vertices. *)
Definition bulged_msp : list entity := [LWPOLYLINE [(0, 0, 1); (2, 2, 0)]].

Definition straight_profile : ProfileResult :=
  {| edges := [Polyline2D [(0, 0); (2, 2)]];
     wires := [[Polyline2D [(0, 0); (2, 2)]]];
     thickness_inches := 1;
     extrusion_axis := Z |}.

(** A planar face with four straight edges, from corner to corner. *)
Definition quad (p0 p1 p2 p3 n : R * R * R) (area : R) : face :=
  {| geomType := "PLANE";
     normalAt_Center := Some n;
     _face_area := area;
     outerWire := [segment p0 p1; segment p1 p2; segment p2 p3; segment p3 p0];
     innerWires := [] |}.

(** A plate 50 x 25 x 5, long along X and turned about X by the angle of
    the 3-4-5 triangle: its section has the corners (0,0), (20,15),
    (17,19) and (-3,4) in the YZ plane.  The faces come in the order of a
    box of the kernel, the two ends first; none of the four sides is
    parallel to Y or to Z. *)
Definition plate_end (x nx : R) : face :=
  quad (x, 0, 0) (x, 20, 15) (x, 17, 19) (x, -3, 4) (nx, 0, 0) 125.

Definition tilted_plate : shape :=
  {| xmin := 0; xmax := 50; ymin := -3; ymax := 20; zmin := 0; zmax := 19;
     faces := [plate_end 0 (-1);
               plate_end 50 1;
               quad (0, 0, 0) (50, 0, 0) (50, 20, 15) (0, 20, 15) (0, 0.6, -0.8) 1250;
               quad (0, -3, 4) (50, -3, 4) (50, 17, 19) (0, 17, 19)
                    (0, -0.6, 0.8) 1250;
               quad (0, 20, 15) (50, 20, 15) (50, 17, 19) (0, 17, 19)
                    (0, 0.8, 0.6) 250;
               quad (0, 0, 0) (50, 0, 0) (50, -3, 4) (0, -3, 4)
                    (0, -0.8, -0.6) 250] |}.

(** The end of the tilted plate seen along Z, which is what
    [extract_profile] returns for the plate with the unit factor 1: four
    segments on one line, eight sample points on one line. *)
Definition collinear_profile : ProfileResult :=
  {| edges := [Line2D 0 0 0 20; Line2D 0 20 0 17;
               Line2D 0 17 0 (-3); Line2D 0 (-3) 0 0];
     wires := [[Line2D 0 0 0 20; Line2D 0 20 0 17;
                Line2D 0 17 0 (-3); Line2D 0 (-3) 0 0]];
     thickness_inches := 19;
     extrusion_axis := Z |}.

Import pyheap.

(** A store that holds the profile [Examples.one_line]: the line, the list
    of edges, the one wire, the list of wires, the profile. *)
Definition line_store : heap :=
  [OLine2D 0 0 3 4; OList [0%nat]; OList [0%nat]; OList [2%nat];
   OProfileResult 1%nat 3%nat 1 Z].

End Examples.

(** ** The vocabulary of the statements *)

Module statements.
Import projection.
Import optimizer.
Import dxf_min_bound.

(** The sweep of an arc is not zero and has magnitude at most 360. *)
Definition sweep_in_range (e : edge) : Prop :=
  match e with
  | Arc2D _ _ _ _ sweep_deg _ _ _ _ => 0 < Rabs sweep_deg <= 360
  | _ => True
  end.

(** What [classify] computes on the way, for the statements below: the
    projected and scaled point of the curve at a parameter, the projected
    and scaled centre, the angle of a point seen from a centre. *)
Definition projected (c : curve) (t : R) (a : axis) (scale : R) : R * R :=
  let '(u, v) := _drop_axis (Value c t) a in (u * scale, v * scale).

Definition centre (c : curve) (a : axis) (scale : R) : R * R :=
  let '(cx, cy) := _drop_axis (Location c) a in (cx * scale, cy * scale).

Definition angle_from (o p : R * R) : R :=
  Py.degrees (Py.atan2 (snd p - snd o) (fst p - fst o)).

Definition ccw_start_to_end (c : curve) (a : axis) (scale : R) : R :=
  _normalize_angle
    (angle_from (centre c a scale) (projected c (LastParameter c) a scale)
     - angle_from (centre c a scale) (projected c (FirstParameter c) a scale)).

Definition shift (dx dy : R) (p : R * R) : R * R := (fst p + dx, snd p + dy).

(** The edges [optimize_rotation] builds before translating, for a rotation
    of [phi] degrees. *)
Definition rotated_by (phi : R) (es : list edge) : list edge :=
  map (fun e => _rotate_edge e (cos (Py.radians phi)) (sin (Py.radians phi))) es.

Definition rank (a : axis) : nat :=
  match a with X => 0 | Y => 1 | Z => 2 end.

(** [a] comes before [b] in the order of the loop: smaller extent, or the
    same extent and earlier in the enumeration X, Y, Z. *)
Definition before (s : shape) (a b : axis) : Prop :=
  extents s a < extents s b
  \/ (extents s a = extents s b /\ (rank a < rank b)%nat).

(** An axis the loop passes over: no planar face is parallel to it, or the
    largest one is rejected by the rectangle check. *)
Definition skipped (s : shape) (scale : R) (a : axis) : Prop :=
  match best_of (candidate_faces s a) with
  | None => True
  | Some f => _is_rectangle (all_edges f a scale) = true
  end.

Definition no_planar_face (s : shape) : Prop :=
  forall f, In f (faces s) -> geomType f <> "PLANE"%string.

Definition near_perpendicular (a b : edge) : Prop :=
  Rabs (adjacent_dot a b) <= 0.05.

(** Exactly four edges, all of them lines, cyclically near-perpendicular. *)
Definition four_perpendicular_lines (es : list edge) : Prop :=
  exists l0 l1 l2 l3,
    es = [l0; l1; l2; l3]
    /\ Forall (fun e => is_Line2D e = true) es
    /\ near_perpendicular l0 l1 /\ near_perpendicular l1 l2
    /\ near_perpendicular l2 l3 /\ near_perpendicular l3 l0.

(** The rectangle of the specification: the boundary is four line segments
    whose adjacent directions have a dot product below 0.05 in absolute
    value. *)
Definition claimed_rectangle (outer : list edge) : Prop :=
  exists l0 l1 l2 l3,
    outer = [l0; l1; l2; l3]
    /\ Forall (fun e => is_Line2D e = true) outer
    /\ Rabs (adjacent_dot l0 l1) < 0.05 /\ Rabs (adjacent_dot l1 l2) < 0.05
    /\ Rabs (adjacent_dot l2 l3) < 0.05 /\ Rabs (adjacent_dot l3 l0) < 0.05.

(** The primitive a boundary entity stands for: an [ARC] runs
    counter-clockwise from its start angle over the span the tool's sampler
    uses; the bulge of a polyline vertex has no counterpart in
    [Polyline2D]. *)
Definition as_edge (e : entity) : option edge :=
  match e with
  | LINE start end_ => Some (Line2D (c0 start) (c1 start) (c0 end_) (c1 end_))
  | CIRCLE center r => Some (Circle2D (c0 center) (c1 center) r)
  | ARC center r sa ea =>
      let span := Py.mod_ (ea - sa) 360 in
      let span := if Py.eqb span 0 then 360 else span in
      Some (Arc2D (c0 center) (c1 center) r sa span
                  (c0 center + r * cos (Py.radians sa))
                  (c1 center + r * sin (Py.radians sa))
                  (c0 center + r * cos (Py.radians ea))
                  (c1 center + r * sin (Py.radians ea)))
  | LWPOLYLINE points => Some (Polyline2D (map (fun p => (c0 p, c1 p)) points))
  | OTHER _ => None
  end.

(** Equal primitives, except that the start angles of two arcs may differ
    by whole turns. *)
Definition same_up_to_turns (e1 e2 : edge) : Prop :=
  match e1, e2 with
  | Arc2D cx cy r s w x1 y1 x2 y2, Arc2D cx' cy' r' s' w' x1' y1' x2' y2' =>
      cx = cx' /\ cy = cy' /\ r = r' /\ w = w'
      /\ x1 = x1' /\ y1 = y1' /\ x2 = x2' /\ y2 = y2'
      /\ exists k : BinNums.Z, s = s' + 360 * IZR k
  | _, _ => e1 = e2
  end.

(** The primitives the entities of a drawing stand for. *)
Definition as_edges (msp : list entity) (es : list edge) : Prop :=
  Forall2 (fun e ed => as_edge e = Some ed) msp es.

(** The entities of a drawing are the given primitives up to whole turns in
    the start angles of arcs. *)
Definition as_edges_up_to_turns (msp : list entity) (es : list edge) : Prop :=
  Forall2 (fun e ed => exists ed', as_edge e = Some ed' /\ same_up_to_turns ed' ed)
          msp es.

End statements.

(** ** The vocabulary of the statements about the object store *)

Module store_statements.
Import projection.
Import pyheap.

(** The store [h'] is [h] with new cells after it: every reference of [h]
    still holds the object it held. *)
Definition extends (h h' : heap) : Prop := exists ext, h' = h ++ ext.

Definition keeps {A : Type} (n : nat) (m : M A) : Prop :=
  forall h, (n <= length h)%nat ->
            (length h <= length (snd (m h)))%nat
            /\ firstn n (snd (m h)) = firstn n h.

(** Running [m] from [h] extends [h], and a returned value satisfies [Q] in
    the store afterwards. *)
Definition run_spec {A : Type} (m : M A) (h : heap) (Q : A -> heap -> Prop) : Prop :=
  extends h (snd (m h))
  /\ match fst (m h) with
     | Ok a => Q a (snd (m h))
     | Raise _ => True
     end.

(** Relative to the first [n] cells, the object behind [r] is a copy made
    later, if it is a primitive at all: its reference is new, and for a
    polyline the list of its points is new as well. *)
Definition copied (n : nat) (h : heap) (r : ref) : Prop :=
  match nth_error h r with
  | Some (OLine2D _ _ _ _) => (n <= r)%nat
  | Some (OCircle2D _ _ _) => (n <= r)%nat
  | Some (OArc2D _ _ _ _ _ _ _ _ _) => (n <= r)%nat
  | Some (OPolyline2D pts) =>
      (n <= r)%nat /\ (n <= pts)%nat /\ (pts < length h)%nat
  | Some _ => True
  | None => False
  end.

(** A new list object all of whose items satisfy [P]. *)
Definition list_of (P : nat -> heap -> ref -> Prop) (n : nat) (h : heap) (l : ref)
  : Prop :=
  (n <= l)%nat
  /\ exists items, nth_error h l = Some (OList items)
                   /\ Forall (P n h) items.

(** A new list of copies; a new list of new lists of copies. *)
Definition copied_list : nat -> heap -> ref -> Prop := list_of copied.
Definition copied_lists : nat -> heap -> ref -> Prop := list_of copied_list.

(** A new [OptimizedProfile] built from new lists and copies. *)
Definition copied_profile (n : nat) (h : heap) (r : ref) : Prop :=
  (n <= r)%nat
  /\ exists edges wires bbox_w bbox_h rotation_deg thickness_inches,
       nth_error h r
       = Some (OOptimizedProfile edges wires bbox_w bbox_h
                                 rotation_deg thickness_inches)
       /\ copied_list n h edges
       /\ copied_lists n h wires.

(** Properties of references that survive new cells and a smaller bound. *)
Definition stable (P : nat -> heap -> ref -> Prop) : Prop :=
  forall n h h' r, extends h h' -> P n h r -> P n h' r.

Definition downward (P : nat -> heap -> ref -> Prop) : Prop :=
  forall n n' h r, (n <= n')%nat -> P n' h r -> P n h r.

(** The primitive a reference stands for. *)
Definition read_edge (h : heap) (r : ref) : option edge :=
  match nth_error h r with
  | Some (OLine2D x1 y1 x2 y2) => Some (Line2D x1 y1 x2 y2)
  | Some (OCircle2D cx cy rad) => Some (Circle2D cx cy rad)
  | Some (OArc2D cx cy rad s w x1 y1 x2 y2) =>
      Some (Arc2D cx cy rad s w x1 y1 x2 y2)
  | Some (OPolyline2D p) =>
      match nth_error h p with
      | Some (OPoints pts) => Some (Polyline2D pts)
      | _ => None
      end
  | _ => None
  end.

Definition reads_edges (h : heap) (refs : list ref) (es : list edge) : Prop :=
  Forall2 (fun r e => read_edge h r = Some e) refs es.

Definition reads_list (h : heap) (l : ref) (es : list edge) : Prop :=
  exists refs, nth_error h l = Some (OList refs) /\ reads_edges h refs es.

Definition reads_lists (h : heap) (refs : list ref) (ws : list (list edge)) : Prop :=
  Forall2 (reads_list h) refs ws.

Definition reads_wires (h : heap) (w : ref) (ws : list (list edge)) : Prop :=
  exists refs, nth_error h w = Some (OList refs) /\ reads_lists h refs ws.

Definition reads_profile (h : heap) (r : ref) (p : ProfileResult) : Prop :=
  exists e w,
    nth_error h r
    = Some (OProfileResult e w (projection.thickness_inches p)
                           (projection.extrusion_axis p))
    /\ reads_list h e (projection.edges p)
    /\ reads_wires h w (projection.wires p).

Definition reads_optimized (h : heap) (r : ref) (op : optimizer.OptimizedProfile)
  : Prop :=
  exists e w,
    nth_error h r
    = Some (OOptimizedProfile e w (optimizer.bbox_w op) (optimizer.bbox_h op)
                              (optimizer.rotation_deg op)
                              (optimizer.thickness_inches op))
    /\ reads_list h e (optimizer.edges op)
    /\ reads_wires h w (optimizer.wires op).

(** A computation that returns: the value and the store satisfy [Q], and
    the store has only grown. *)
Definition returns {A : Type} (m : M A) (h : heap) (Q : A -> heap -> Prop) : Prop :=
  exists a h', m h = (Ok a, h') /\ extends h h' /\ Q a h'.

(** The store [h] with the cell [r] replaced. *)
Definition upd (h : heap) (r : ref) (o : obj) : heap :=
  firstn r h ++ o :: skipn (S r) h.

(** While a sampling loop runs from the store [h0]: the list under
    construction is the cell [pts], made after [h0], and holds [acc]. *)
Definition sampling (h0 : heap) (pts : ref) (acc : list (R * R)) (h : heap) : Prop :=
  extends h0 h /\ (length h0 <= pts)%nat /\ nth_error h pts = Some (OPoints acc).

End store_statements.

(** ** More vocabulary: the classifier and the selection *)

Module more_statements.
Import projection.
Import optimizer.
Import statements.

(** The test of [_extract_edges_from_wire] that keeps an edge. *)
Definition non_degenerate (c : curve) : bool :=
  negb (Py.ltb (Rabs (LastParameter c - FirstParameter c)) 1e-3).

(** The primitive is of the variant the curve type leads to. *)
Definition kind_matches (c : curve) (e : edge) : Prop :=
  match GetType c, e with
  | GeomAbs_Line, Line2D _ _ _ _ => True
  | GeomAbs_Circle, Circle2D _ _ _ => True
  | GeomAbs_Circle, Arc2D _ _ _ _ _ _ _ _ _ => True
  | GeomAbs_Other, Polyline2D _ => True
  | _, _ => False
  end.

(** The start angle of an arc lies in [-180, 180]. *)
Definition start_in_range (e : edge) : Prop :=
  match e with
  | Arc2D _ _ _ start_deg _ _ _ _ _ => -180 <= start_deg <= 180
  | _ => True
  end.

(** The point [p] moved by [t] along the axis [a]. *)
Definition along (a : axis) (t : R) (p : R * R * R) : R * R * R :=
  let '(x, y, z) := p in
  let '(ax, ay, az) := AXIS_VECTORS a in
  (x + t * ax, y + t * ay, z + t * az).

(** The curve [c] moved by [t] along the axis [a]. *)
Definition moved_along (a : axis) (t : R) (c : curve) : curve :=
  {| GetType := GetType c;
     FirstParameter := FirstParameter c;
     LastParameter := LastParameter c;
     Value := fun u => along a t (Value c u);
     Location := along a t (Location c);
     Radius := Radius c |}.

(** The primitive with every length multiplied by [k]; angles are kept. *)
Definition scale_edge (k : R) (e : edge) : edge :=
  match e with
  | Line2D x1 y1 x2 y2 => Line2D (x1 * k) (y1 * k) (x2 * k) (y2 * k)
  | Circle2D cx cy r => Circle2D (cx * k) (cy * k) (r * k)
  | Arc2D cx cy r s w x1 y1 x2 y2 =>
      Arc2D (cx * k) (cy * k) (r * k) s w (x1 * k) (y1 * k) (x2 * k) (y2 * k)
  | Polyline2D pts => Polyline2D (map (fun p => (fst p * k, snd p * k)) pts)
  end.

(** The four sides of the rectangle with corner [p] and sides [u], [v], in
    the order of the loop. *)
Definition rectangle_lines (p u v : R * R) : list edge :=
  [Line2D (fst p) (snd p) (fst p + fst u) (snd p + snd u);
   Line2D (fst p + fst u) (snd p + snd u)
          (fst p + fst u + fst v) (snd p + snd u + snd v);
   Line2D (fst p + fst u + fst v) (snd p + snd u + snd v)
          (fst p + fst v) (snd p + snd v);
   Line2D (fst p + fst v) (snd p + snd v) (fst p) (snd p)].

End more_statements.

(** ** More concrete inputs *)

Module more_examples.
Import projection.
Import Examples.

(** A spline-like edge from parameter 0 to 2. *)
Definition other_edge : curve :=
  {| GetType := GeomAbs_Other;
     FirstParameter := 0;
     LastParameter := 2;
     Value := fun t => (t, t * t, 0);
     Location := (0, 0, 0);
     Radius := 0 |}.

(** A slab 4 x 1 x 10 of which the kernel reports one face, the 4 x 10
    side at y = 0. *)
Definition slab : shape :=
  {| xmin := 0; xmax := 4; ymin := 0; ymax := 1; zmin := 0; zmax := 10;
     faces := [side (0, 0) (4, 0) (0, -1, 0) 40] |}.

End more_examples.

(** ** More vocabulary: motions of the plane *)

Module motion_statements.
Import projection.
Import optimizer.
Import statements.

(** The square of the distance of two points. *)
Definition dist2 (p q : R * R) : R :=
  (fst p - fst q) * (fst p - fst q) + (snd p - snd q) * (snd p - snd q).

(** The rotation by [phi] degrees, as [optimize_rotation] applies it to a
    point. *)
Definition rotate (phi : R) (p : R * R) : R * R :=
  _rotate_point (fst p) (snd p) (cos (Py.radians phi)) (sin (Py.radians phi)).

(** Rotation by [phi] degrees, then translation by [(dx, dy)]. *)
Definition motion (phi dx dy : R) (p : R * R) : R * R :=
  shift dx dy (rotate phi p).

Definition rigid (T : R * R -> R * R) : Prop :=
  forall p q, dist2 (T p) (T q) = dist2 p q.

(** [e'] is [e] carried along by [T], a motion that turns by [phi]
    degrees: the stored points are mapped by [T], radius and sweep are
    kept, the start angle of an arc advances by [phi] up to whole turns. *)
Definition moved_by (T : R * R -> R * R) (phi : R) (e e' : edge) : Prop :=
  match e, e' with
  | Line2D x1 y1 x2 y2, Line2D x1' y1' x2' y2' =>
      (x1', y1') = T (x1, y1) /\ (x2', y2') = T (x2, y2)
  | Circle2D cx cy r, Circle2D cx' cy' r' =>
      (cx', cy') = T (cx, cy) /\ r' = r
  | Arc2D cx cy r s w x1 y1 x2 y2, Arc2D cx' cy' r' s' w' x1' y1' x2' y2' =>
      (cx', cy') = T (cx, cy) /\ r' = r /\ w' = w
      /\ (x1', y1') = T (x1, y1) /\ (x2', y2') = T (x2, y2)
      /\ exists k : BinNums.Z, s' = s + phi + 360 * IZR k
  | Polyline2D pts, Polyline2D pts' => pts' = map T pts
  | _, _ => False
  end.

(** The stored end points of an arc are the points of the circle at the
    start angle and at the start angle plus the sweep. *)
Definition ends_on_arc (e : edge) : Prop :=
  match e with
  | Arc2D cx cy r s w x1 y1 x2 y2 =>
      x1 = cx + r * cos (Py.radians s) /\ y1 = cy + r * sin (Py.radians s)
      /\ x2 = cx + r * cos (Py.radians (s + w))
      /\ y2 = cy + r * sin (Py.radians (s + w))
  | _ => True
  end.

(** What [_sample_points] reads of a rotated edge, against the points it
    reads of the edge itself: the sampling angles of a circle start at 0
    whatever the rotation, so its points move with the centre and are not
    turned round it. *)
Definition points_after_rotation (phi : R) (e : edge) : list (R * R) :=
  match e with
  | Circle2D cx cy r =>
      let '(cx', cy') := rotate phi (cx, cy) in
      map (shift (cx' - cx) (cy' - cy)) (edge_points e)
  | _ => map (rotate phi) (edge_points e)
  end.

End motion_statements.

(** ** More concrete inputs: profiles *)

Module profile_examples.
Import projection.

(** A disc of radius 2 about (5, 5). *)
Definition disc : ProfileResult :=
  {| edges := [Circle2D 5 5 2];
     wires := [[Circle2D 5 5 2]];
     thickness_inches := 1;
     extrusion_axis := Z |}.

(** A half circle of radius 1 about the origin, from 0 to 180 degrees, and
    the chord that closes it. *)
Definition half_disc : ProfileResult :=
  {| edges := [Arc2D 0 0 1 0 180
                     (0 + 1 * cos (Py.radians 0)) (0 + 1 * sin (Py.radians 0))
                     (0 + 1 * cos (Py.radians (0 + 180)))
                     (0 + 1 * sin (Py.radians (0 + 180)));
               Line2D (-1) 0 1 0];
     wires := [[Arc2D 0 0 1 0 180
                      (0 + 1 * cos (Py.radians 0)) (0 + 1 * sin (Py.radians 0))
                      (0 + 1 * cos (Py.radians (0 + 180)))
                      (0 + 1 * sin (Py.radians (0 + 180)));
                Line2D (-1) 0 1 0]];
     thickness_inches := 1;
     extrusion_axis := Z |}.

End profile_examples.

(** ** More vocabulary: the standalone DXF tool *)

Module dxf_statements.
Import dxf_min_bound.

(** The entities from which [_sample_entity_points] reads no point:
    entity types the tool does not know, and polylines without a vertex. *)
Definition no_points (e : entity) : Prop :=
  match e with
  | OTHER _ => True
  | LWPOLYLINE [] => True
  | _ => False
  end.

(** What [_apply_rotation] keeps of an entity [e] in the entity [e'] it
    leaves, and what it resets: the type, the radius, the span of an arc
    and the bulges of a polyline are kept; the third coordinate of every
    point it writes is 0; the angles of an arc are reduced to [0, 360]. *)
Definition kept_by_rotation (e e' : entity) : Prop :=
  match e, e' with
  | LINE _ _, LINE start' end_' => c2 start' = 0 /\ c2 end_' = 0
  | CIRCLE _ r, CIRCLE center' r' => r' = r /\ c2 center' = 0
  | ARC _ r sa ea, ARC center' r' sa' ea' =>
      r' = r /\ c2 center' = 0
      /\ 0 <= sa' <= 360 /\ 0 <= ea' <= 360
      /\ Py.mod_ (ea' - sa') 360 = Py.mod_ (ea - sa) 360
  | LWPOLYLINE points, LWPOLYLINE points' => map c2 points' = map c2 points
  | OTHER t, OTHER t' => t' = t
  | _, _ => False
  end.

End dxf_statements.

(** ** src/step_laser/exporters/dxf_exporter.py *)

Module dxf_exporter.
Import projection.
Import optimizer.
Import dxf_min_bound.

(** The document [export_dxf] saves: the header variables it sets and the
    modelspace it fills. *)
Record document : Type := {
  INSUNITS : BinNums.Z;
  LUNITS : BinNums.Z;
  msp : list entity;
  EXTMIN : R * R * R;
  EXTMAX : R * R * R
}.

(** The body of the loop of [export_dxf]: what one edge adds to the
    modelspace.  The drawing library completes a point given by two
    coordinates with a third coordinate 0, and a polyline vertex given as
    [(x, y)] with bulge 0. *)
Definition export_edge (e : edge) : list entity :=
  match e with
  | Line2D x1 y1 x2 y2 => [LINE (x1, y1, 0) (x2, y2, 0)]
  | Circle2D cx cy r => [CIRCLE (cx, cy, 0) r]
  | Arc2D cx cy r start_deg sweep_deg _ _ _ _ =>
      let end_angle := start_deg + sweep_deg in
      if Py.gtb sweep_deg 0 then [ARC (cx, cy, 0) r start_deg end_angle]
      else [ARC (cx, cy, 0) r end_angle start_deg]
  | Polyline2D points =>
      if (2 <=? length points)%nat
      then [LWPOLYLINE (map (fun p => (fst p, snd p, 0)) points)]
      else []
  end.

Definition export_dxf (profile : OptimizedProfile) : document :=
  {| INSUNITS := 1;
     LUNITS := 2;
     msp := flat_map export_edge (optimizer.edges profile);
     EXTMIN := (0, 0, 0);
     EXTMAX := (bbox_w profile, bbox_h profile, 0) |}.

End dxf_exporter.

(** ** src/step_laser/exporters/pdf_exporter.py *)

Module pdf_exporter.
Import projection.
Import optimizer.

(** [reportlab.lib.units.inch] and [reportlab.lib.pagesizes.letter]. *)
Definition inch : R := 72.
Definition PAGE_W : R := 612.
Definition PAGE_H : R := 792.

Definition MARGIN : R := 0.75 * inch.
Definition TITLE_BLOCK_H : R := 1.25 * inch.
Definition DRAW_AREA_X : R := MARGIN.
Definition DRAW_AREA_Y : R := MARGIN + TITLE_BLOCK_H + 0.25 * inch.
Definition DRAW_AREA_W : R := PAGE_W - 2 * MARGIN.
Definition DRAW_AREA_H : R := PAGE_H - DRAW_AREA_Y - MARGIN.

(** The calls [_draw_profile] makes on the canvas and on the paths it
    begins: [c.line], [c.circle], [c.arc], and [c.drawPath] of a path made
    of one [moveTo] and the [lineTo]s that follow. *)
Inductive canvas_op : Type :=
| c_line (x1 y1 x2 y2 : R)
| c_circle (x_cen y_cen r : R)
| c_arc (x1 y1 x2 y2 startAng extent : R)
| c_drawPath (points : list (R * R)).

Definition draw_edge (e : edge) (ox oy scale : R) : list canvas_op :=
  match e with
  | Line2D x1 y1 x2 y2 =>
      [c_line (ox + x1 * scale) (oy + y1 * scale)
              (ox + x2 * scale) (oy + y2 * scale)]
  | Circle2D ecx ecy er =>
      let cx := ox + ecx * scale in
      let cy := oy + ecy * scale in
      let r := er * scale in
      [c_circle cx cy r]
  | Arc2D ecx ecy er start_deg sweep_deg _ _ _ _ =>
      let cx := ox + ecx * scale in
      let cy := oy + ecy * scale in
      let r := er * scale in
      let x1 := cx - r in
      let y1 := cy - r in
      let x2 := cx + r in
      let y2 := cy + r in
      [c_arc x1 y1 x2 y2 start_deg sweep_deg]
  | Polyline2D points =>
      if (2 <=? length points)%nat
      then [c_drawPath
              (map (fun p => (ox + fst p * scale, oy + snd p * scale)) points)]
      else []
  end.

Definition _draw_profile (profile : OptimizedProfile) (ox oy scale : R)
  : list canvas_op :=
  flat_map (fun e => draw_edge e ox oy scale) (optimizer.edges profile).

(** The outcome of the arithmetic of [export_pdf]: a float division by 0.0
    raises [ZeroDivisionError]. *)
Inductive outcome (A : Type) : Type :=
| Done (a : A)
| ZeroDivisionError.
Arguments Done {A} a.
Arguments ZeroDivisionError {A}.

Definition div (a b : R) : outcome R :=
  if Py.eqb b 0 then ZeroDivisionError else Done (a / b).

(** [export_pdf] up to the drawing calls: the scale and the origin
    [(ox, oy)] it passes to [_draw_profile] and [_draw_dimensions]. *)
Definition layout (profile : OptimizedProfile) : outcome (R * R * R) :=
  let usable_w := DRAW_AREA_W - 40 in
  let usable_h := DRAW_AREA_H - 30 in
  match div usable_w (bbox_w profile) with
  | ZeroDivisionError => ZeroDivisionError
  | Done sw =>
      match div usable_h (bbox_h profile) with
      | ZeroDivisionError => ZeroDivisionError
      | Done sh =>
          let scale := Rmin sw sh in
          let shape_w := bbox_w profile * scale in
          let shape_h := bbox_h profile * scale in
          let ox := DRAW_AREA_X + (DRAW_AREA_W - shape_w) / 2 in
          let oy := DRAW_AREA_Y + (DRAW_AREA_H - shape_h) / 2 in
          Done (scale, ox, oy)
      end
  end.

End pdf_exporter.

(** ** The command lines: src/step_laser/main.py, src/dxf_min_bound/main.py *)

Module cli.
Import Stdlib.Strings.Ascii.

(** [s.replace(old, new)] for single characters. *)
Fixpoint replace (old new : Ascii.ascii) (s : string) : string :=
  match s with
  | EmptyString => EmptyString
  | String c s' =>
      String (if Ascii.eqb c old then new else c) (replace old new s')
  end.

(** [s.endswith(suffix)]. *)
Definition endswith (s suffix : string) : bool :=
  let n := String.length suffix in
  let m := String.length s in
  (n <=? m)%nat && String.eqb (substring (m - n) n s) suffix.

(** The stem [process_step_file] gives to the three files it writes. *)
Definition converted_stem (stem : string) : string :=
  replace " "%char "_"%char stem.

(** The stem [process_dxf] gives to the file it writes. *)
Definition rotated_stem (stem : string) : string :=
  (replace " "%char "_"%char stem ++ "_rotated")%string.

(** The filter of [dxf_min_bound.main] on the stems of the [*.dxf] files
    of the folder. *)
Definition dxf_inputs (stems : list string) : list string :=
  filter (fun stem => negb (endswith stem "_rotated"%string)) stems.

Section loop.

(** The files of the folder in the order of the loop, with their names;
    [process] is [process_step_file] or [process_dxf], with the exception
    it raises, if any. *)
Variables (path E : Type).
Variable name : path -> string.
Variable process : path -> option E.

(** One turn of the loop on the pair [(success, errors)]. *)
Definition turn (st : nat * list (string * E)) (p : path)
  : nat * list (string * E) :=
  match process p with
  | None => (S (fst st), snd st)
  | Some e => (fst st, snd st ++ [(name p, e)])
  end.

(** The loop of [main]. *)
Definition loop (files : list path) : nat * list (string * E) :=
  fold_left turn files (0%nat, []).

(** [main] after the files are listed: [sys.exit(1)] when there is none,
    the pair that the summary prints otherwise. *)
Inductive ending : Type :=
| Exit (code : BinNums.Z)
| Summary (success : nat) (errors : list (string * E)).

Definition main (files : list path) : ending :=
  match files with
  | [] => Exit 1
  | _ => let '(success, errors) := loop files in Summary success errors
  end.

End loop.

End cli.

(** ** More vocabulary: the command lines *)

Module cli_statements.

Section loop.

Variables (path E : Type).
Variable name : path -> string.
Variable process : path -> option E.

(** The file is processed without an exception. *)
Definition succeeds (p : path) : bool :=
  match process p with None => true | Some _ => false end.

(** The entry of the file in the list of errors, if it has one. *)
Definition failure (p : path) : list (string * E) :=
  match process p with None => [] | Some e => [(name p, e)] end.

End loop.

End cli_statements.

(** ** More vocabulary: the exporters *)

Module export_statements.
Import projection.
Import optimizer.
Import dxf_min_bound.
Import pdf_exporter.
Import statements.
Import motion_statements.

(** The edges for which the exporters write something: all but the
    polylines with fewer than two points. *)
Definition drawable (e : edge) : bool :=
  match e with
  | Polyline2D points => (2 <=? length points)%nat
  | _ => true
  end.

(** [ed] is the primitive the written entity stands for, against the edge
    [e] it was written for: the same line, circle and polyline; for an arc,
    the arc on the same circle that runs counter-clockwise over the
    magnitude of the sweep, from the lower of the two end angles, with its
    end points on the circle at these angles. *)
Definition written_as (e ed : edge) : Prop :=
  match e, ed with
  | Arc2D cx cy r s w _ _ _ _, Arc2D cx' cy' r' s' w' _ _ _ _ =>
      cx' = cx /\ cy' = cy /\ r' = r
      /\ w' = Rabs w /\ s' = Rmin s (s + w)
      /\ ends_on_arc ed
  | Arc2D _ _ _ _ _ _ _ _ _, _ => False
  | _, _ => ed = e
  end.

(** The point of the page at which a point of the profile is drawn. *)
Definition on_page (ox oy scale : R) (p : R * R) : R * R :=
  (ox + fst p * scale, oy + snd p * scale).

(** The canvas call shows the entity: same kind, points drawn at their
    place on the page, radius scaled; an arc is given to the canvas by the
    box of its circle, its start angle and its signed extent, and to the
    drawing as the counter-clockwise arc between the same two angles. *)
Definition shows (ox oy scale : R) (ent : entity) (op : canvas_op) : Prop :=
  match ent, op with
  | LINE start end_, c_line x1 y1 x2 y2 =>
      (x1, y1) = on_page ox oy scale (c0 start, c1 start)
      /\ (x2, y2) = on_page ox oy scale (c0 end_, c1 end_)
  | CIRCLE center r, c_circle x y r' =>
      (x, y) = on_page ox oy scale (c0 center, c1 center) /\ r' = r * scale
  | ARC center r sa ea, c_arc x1 y1 x2 y2 startAng extent =>
      (x1 + r * scale, y1 + r * scale) = on_page ox oy scale (c0 center, c1 center)
      /\ (x2 - r * scale, y2 - r * scale) = on_page ox oy scale (c0 center, c1 center)
      /\ ((0 < extent /\ sa = startAng /\ ea = startAng + extent)
          \/ (extent <= 0 /\ sa = startAng + extent /\ ea = startAng))
  | LWPOLYLINE points, c_drawPath q =>
      q = map (fun p => on_page ox oy scale (c0 p, c1 p)) points
      /\ Forall (fun p => c2 p = 0) points
  | _, _ => False
  end.

(** The part of the drawing area [export_pdf] leaves for the profile:
    20 points off the left and right sides, 15 off the bottom and top. *)
Definition in_profile_area (q : R * R) : Prop :=
  DRAW_AREA_X + 20 <= fst q <= DRAW_AREA_X + DRAW_AREA_W - 20
  /\ DRAW_AREA_Y + 15 <= snd q <= DRAW_AREA_Y + DRAW_AREA_H - 15.

End export_statements.

(** ** More concrete inputs: results of the optimizer *)

Module optimized_examples.
Import projection.
Import optimizer.

(** A half disc of radius 1 on its chord, drawn clockwise from 180 to 0
    degrees, and a polyline of one point. *)
Definition half_disc_placed : OptimizedProfile :=
  {| optimizer.edges := [Arc2D 1 0 1 180 (-180) 0 0 2 0; Line2D 2 0 0 0;
                         Polyline2D [(1, 0)]];
     optimizer.wires := [[Arc2D 1 0 1 180 (-180) 0 0 2 0; Line2D 2 0 0 0];
                         [Polyline2D [(1, 0)]]];
     bbox_w := 2;
     bbox_h := 1;
     rotation_deg := 0;
     optimizer.thickness_inches := 1 |}.

End optimized_examples.

(** ** More vocabulary: circles seen along the axis *)

Module circle_statements.
Import projection.
Import optimizer.
Import statements.
Import motion_statements.

(** A circular edge whose projected end points lie at the scaled radius
    from the projected centre, as they do when the plane of the circle is
    perpendicular to the axis; nothing is asked of other edges. *)
Definition round_in_projection (a : axis) (scale : R) (c : curve) : Prop :=
  match GetType c with
  | GeomAbs_Circle =>
      0 <= Radius c * scale
      /\ dist2 (projected c (FirstParameter c) a scale) (centre c a scale)
         = Radius c * scale * (Radius c * scale)
      /\ dist2 (projected c (LastParameter c) a scale) (centre c a scale)
         = Radius c * scale * (Radius c * scale)
  | _ => True
  end.

(** The sample points computed from angles lie on the circle of the edge:
    all 64 of a circle; of an arc, all but the two stored end points the
    list starts with, and there are at least 7 of them, at most 63 when the
    sweep is at most a full turn. *)
Definition sampled_on_circle (e : edge) : Prop :=
  match e with
  | Circle2D cx cy r =>
      length (edge_points e) = 64%nat
      /\ Forall (fun q => dist2 q (cx, cy) = r * r) (edge_points e)
  | Arc2D cx cy r s w x1 y1 x2 y2 =>
      firstn 2 (edge_points e) = [(x1, y1); (x2, y2)]
      /\ (9 <= length (edge_points e))%nat
      /\ (Rabs w <= 360 -> (length (edge_points e) <= 65)%nat)
      /\ Forall (fun q => dist2 q (cx, cy) = r * r) (skipn 2 (edge_points e))
  | _ => True
  end.

End circle_statements.

(** ** src/step_laser/step_reader.py and src/step_laser/main.py *)

Module step_laser_main.
Import projection.
Import optimizer.
Import dxf_exporter.

Definition MM_TO_INCHES : R := 1.0 / 25.4.

(** [load_step]: the shape is what the kernel imports from the file. *)
Definition load_step (imported : shape) : shape * R :=
  (imported, MM_TO_INCHES).

Section with_shapely.

Variable mrr_coords : list (R * R) -> option ((R * R) * (R * R)).

(** [process_step_file] from the imported shape to the document that
    [export_dxf] saves; the SVG and PDF exports follow it. *)
Definition process_step_file (imported : shape) : result document :=
  let '(shape, unit_to_inches) := load_step imported in
  profile <- extract_profile shape unit_to_inches ;;
  optimized <- optimize_rotation mrr_coords profile ;;
  Ok (export_dxf optimized).

End with_shapely.

End step_laser_main.

(** ** More concrete inputs: a shell *)

Module shell_examples.
Import projection.
Import Examples.

(** The lateral surface of a cone of radius 1 and height 2, as an open
    shell: one conical face, bounded by the seam from the base to the apex
    and by the base circle. *)
Definition cone_face : face :=
  {| geomType := "CONE";
     normalAt_Center := Some (1, 0, 0);
     _face_area := PI * sqrt 5;
     outerWire := [segment (1, 0, 0) (0, 0, 2); circle_edge 0 0 0 1 0 (2 * PI)];
     innerWires := [] |}.

Definition cone_shell : shape :=
  {| xmin := -1; xmax := 1; ymin := -1; ymax := 1; zmin := 0; zmax := 2;
     faces := [cone_face] |}.

End shell_examples.

(** * Properties *)

Import statements.

(** ** Decisions on real numbers *)

Lemma ltb_true (x y : R) : x < y -> Py.ltb x y = true.
Proof. intros H; unfold Py.ltb; destruct (Rlt_dec x y); [reflexivity | contradiction]. Qed.

Lemma ltb_false (x y : R) : y <= x -> Py.ltb x y = false.
Proof. intros H; unfold Py.ltb; destruct (Rlt_dec x y); [lra | reflexivity]. Qed.

Lemma ltb_spec (x y : R) : Py.ltb x y = true <-> x < y.
Proof. unfold Py.ltb; destruct (Rlt_dec x y); split; intros; (assumption || discriminate || reflexivity || contradiction). Qed.

Lemma leb_true (x y : R) : x <= y -> Py.leb x y = true.
Proof. intros H; unfold Py.leb; destruct (Rle_dec x y); [reflexivity | contradiction]. Qed.

Lemma leb_false (x y : R) : y < x -> Py.leb x y = false.
Proof. intros H; unfold Py.leb; destruct (Rle_dec x y); [lra | reflexivity]. Qed.

Lemma gtb_true (x y : R) : y < x -> Py.gtb x y = true.
Proof. intros; unfold Py.gtb; now apply ltb_true. Qed.

Lemma gtb_false (x y : R) : x <= y -> Py.gtb x y = false.
Proof. intros; unfold Py.gtb; now apply ltb_false. Qed.

Lemma eqb_true (x y : R) : x = y -> Py.eqb x y = true.
Proof. intros H; unfold Py.eqb; destruct (Req_dec_T x y); [reflexivity | contradiction]. Qed.

Lemma eqb_false (x y : R) : x <> y -> Py.eqb x y = false.
Proof. intros H; unfold Py.eqb; destruct (Req_dec_T x y); [contradiction | reflexivity]. Qed.

(** ** [%] and [_normalize_angle] *)

Lemma mod_range (a m : R) : 0 < m -> 0 <= Py.mod_ a m < m.
Proof.
  intros Hm. unfold Py.mod_, Py.floor.
  destruct (base_Int_part (a / m)) as [Hle Hgt].
  assert (Ha : a = m * (a / m)) by (field; lra).
  set (k := IZR (Int_part (a / m))) in *.
  split.
  - assert (m * k <= m * (a / m)) by (apply Rmult_le_compat_l; lra). lra.
  - assert (m * (a / m - 1) < m * k) by (apply Rmult_lt_compat_l; lra). lra.
Qed.

Lemma mod_small (a m : R) : 0 <= a < m -> Py.mod_ a m = a.
Proof.
  intros [H0 Hm]. unfold Py.mod_, Py.floor.
  assert (E : Int_part (a / m) = 0%Z).
  { symmetry. apply Int_part_spec. simpl.
    assert (0 <= a / m) by (apply Rmult_le_pos; [lra | left; apply Rinv_0_lt_compat; lra]).
    assert (a / m < 1) by (apply Rmult_lt_reg_r with m; [lra | ]; unfold Rdiv; rewrite Rmult_assoc, Rinv_l; lra).
    lra. }
  rewrite E. simpl. ring.
Qed.

Lemma mod_shift (a m : R) (k : Z) : 0 < m -> 0 <= a - m * IZR k < m -> Py.mod_ a m = a - m * IZR k.
Proof.
  intros Hm [H0 H1]. unfold Py.mod_, Py.floor.
  assert (E : Int_part (a / m) = k).
  { symmetry. apply Int_part_spec.
    assert (Ha : a / m = (a - m * IZR k) / m + IZR k) by (field; lra).
    assert (0 <= (a - m * IZR k) / m) by (apply Rmult_le_pos; [lra | left; apply Rinv_0_lt_compat; lra]).
    assert ((a - m * IZR k) / m < 1) by (apply Rmult_lt_reg_r with m; [lra | ]; unfold Rdiv; rewrite Rmult_assoc, Rinv_l; lra).
    lra. }
  rewrite E. reflexivity.
Qed.

Lemma normalize_angle_mod (a : R) : projection._normalize_angle a = Py.mod_ a 360.
Proof.
  unfold projection._normalize_angle.
  rewrite ltb_false; [reflexivity | ].
  apply mod_range; lra.
Qed.

Lemma normalize_angle_range (a : R) : 0 <= projection._normalize_angle a < 360.
Proof. rewrite normalize_angle_mod. apply mod_range; lra. Qed.

(** ** The curve classifier *)

Import projection.

Lemma PI_gt_3 : 3 < PI.
Proof. pose proof PI2_3_2. lra. Qed.

Ltac split_pairs :=
  repeat match goal with
         | |- context [let '(_, _) := ?p in _] => destruct p
         end.

Lemma classify_sweep (c : curve) (a : axis) (scale : R) :
  Forall sweep_in_range (classify c a scale).
Proof.
  unfold classify.
  destruct (Py.ltb (Rabs (LastParameter c - FirstParameter c)) 1e-3); [constructor | ].
  destruct (GetType c); split_pairs.
  - repeat constructor.
  - destruct (Py.ltb _ 1e-6); [repeat constructor | ].
    constructor; [ | constructor]. simpl.
    match goal with
    | |- context [Py.eqb (_normalize_angle ?d) 0] =>
        pose proof (normalize_angle_range d) as Hc; set (ccw := _normalize_angle d) in *
    end.
    match goal with
    | |- context [Py.leb (_normalize_angle ?d) _] =>
        pose proof (normalize_angle_range d) as Hm; set (mid := _normalize_angle d) in *
    end.
    unfold Py.eqb, Py.leb.
    destruct (Req_dec_T ccw 0) as [E | E].
    + destruct (Rle_dec mid (360 + 0.5)); [ | lra].
      rewrite Rabs_pos_eq; lra.
    + destruct (Rle_dec mid (ccw + 0.5)).
      * rewrite Rabs_pos_eq; lra.
      * rewrite Rabs_left; lra.
  - repeat constructor.
Qed.

Lemma extract_edges_sweep (wire : list curve) (a : axis) (scale : R) :
  Forall sweep_in_range (_extract_edges_from_wire wire a scale).
Proof.
  unfold _extract_edges_from_wire.
  induction wire as [ | c wire IH]; simpl.
  - constructor.
  - apply Forall_app; split; [apply classify_sweep | exact IH].
Qed.

Lemma classify_zero_sweep (c : curve) (a : axis) (scale : R) :
  GetType c = GeomAbs_Circle ->
  1e-3 <= Rabs (LastParameter c - FirstParameter c) ->
  1e-6 <= Rabs (LastParameter c - FirstParameter c - 2 * PI) ->
  ccw_start_to_end c a scale = 0 ->
  exists cx cy r start_deg x1 y1 x2 y2,
    classify c a scale = [Arc2D cx cy r start_deg 360 x1 y1 x2 y2].
Proof.
  intros Ht Hd Hf. unfold ccw_start_to_end, angle_from, centre, projected, classify.
  rewrite Ht, (ltb_false _ _ Hd), (ltb_false _ _ Hf).
  destruct (_drop_axis (Location c) a) as [cx cy].
  destruct (_drop_axis (Value c (FirstParameter c)) a) as [u1 v1].
  destruct (_drop_axis (Value c (LastParameter c)) a) as [u2 v2].
  destruct (_drop_axis (Value c ((FirstParameter c + LastParameter c) / 2)) a) as [um vm].
  simpl. intros E. rewrite E, eqb_true by reflexivity.
  match goal with
  | |- context [Py.leb (_normalize_angle ?d) _] =>
      pose proof (normalize_angle_range d) as Hm
  end.
  rewrite leb_true by lra. repeat eexists.
Qed.

Lemma classify_full_circle (c : curve) (a : axis) (scale : R) :
  GetType c = GeomAbs_Circle ->
  Rabs (LastParameter c - FirstParameter c - 2 * PI) < 1e-6 ->
  classify c a scale
  = [Circle2D (fst (centre c a scale)) (snd (centre c a scale)) (Radius c * scale)].
Proof.
  intros Ht Hf. unfold classify, centre.
  assert (Hd : 1e-3 <= Rabs (LastParameter c - FirstParameter c)).
  { pose proof PI_gt_3.
    apply Rabs_def2 in Hf. rewrite Rabs_pos_eq; lra. }
  rewrite Ht, (ltb_false _ _ Hd), (ltb_true _ _ Hf).
  split_pairs. reflexivity.
Qed.

(** ** [math.atan2] *)

Lemma cos_pos_range (t : R) : - PI < t <= PI -> 0 < cos t -> - (PI / 2) < t < PI / 2.
Proof.
  intros [Hl Hu] Hc. pose proof PI_RGT_0. split.
  - destruct (Rlt_dec (- (PI / 2)) t) as [ | Hn]; [assumption | exfalso].
    assert (cos (- t) <= 0) by (apply cos_le_0; lra).
    rewrite cos_neg in *. lra.
  - destruct (Rlt_dec t (PI / 2)) as [ | Hn]; [assumption | exfalso].
    assert (cos t <= 0) by (apply cos_le_0; lra). lra.
Qed.

Lemma tan_shift_minus (t : R) : cos t <> 0 -> tan (t - PI) = sin t / cos t.
Proof.
  intros Hc. unfold tan. rewrite sin_minus, cos_minus, cos_PI, sin_PI. field. exact Hc.
Qed.

Lemma tan_shift_plus (t : R) : cos t <> 0 -> tan (t + PI) = sin t / cos t.
Proof.
  intros Hc. unfold tan. rewrite sin_plus, cos_plus, cos_PI, sin_PI. field. exact Hc.
Qed.

(** On an angle in (-pi, pi], [atan2] of its sine and cosine is the angle. *)
Lemma atan2_sin_cos (t : R) : - PI < t <= PI -> Py.atan2 (sin t) (cos t) = t.
Proof.
  intros [Hl Hu]. pose proof PI_RGT_0 as Hpi. unfold Py.atan2.
  destruct (Rlt_dec 0 (cos t)) as [Hc | Hc].
  - apply atan_tan. apply cos_pos_range; [split | ]; assumption.
  - destruct (Rlt_dec (cos t) 0) as [Hc' | Hc'].
    + destruct (Rle_dec 0 (sin t)) as [Hs | Hs].
      * assert (0 <= t).
        { destruct (Rle_dec 0 t); [assumption | exfalso].
          assert (sin t < 0) by (apply sin_lt_0_var; lra). lra. }
        assert (PI / 2 < t).
        { destruct (Rlt_dec (PI / 2) t); [assumption | exfalso].
          assert (0 <= cos t) by (apply cos_ge_0; lra). lra. }
        rewrite <- tan_shift_minus by lra.
        rewrite atan_tan by lra. ring.
      * assert (t < 0).
        { destruct (Rlt_dec t 0); [assumption | exfalso].
          assert (0 <= sin t) by (apply sin_ge_0; lra). lra. }
        assert (t < - (PI / 2)).
        { destruct (Rlt_dec t (- (PI / 2))); [assumption | exfalso].
          assert (0 <= cos t) by (apply cos_ge_0; lra). lra. }
        rewrite <- tan_shift_plus by lra.
        rewrite atan_tan by lra. ring.
    + assert (Hz : cos t = 0) by lra.
      destruct (Rlt_dec 0 (sin t)) as [Hs | Hs].
      * assert (0 < t).
        { destruct (Rlt_dec 0 t); [assumption | exfalso].
          destruct (Req_dec t 0) as [-> | ]; [rewrite sin_0 in Hs; lra | ].
          assert (sin t < 0) by (apply sin_lt_0_var; lra). lra. }
        destruct (cos_eq_0_2PI_0 t) as [E | E]; lra.
      * destruct (Rlt_dec (sin t) 0) as [Hs' | Hs'].
        -- assert (t < 0).
           { destruct (Rlt_dec t 0); [assumption | exfalso].
             assert (0 <= sin t) by (apply sin_ge_0; lra). lra. }
           destruct (cos_eq_0_2PI_0 (- t)) as [E | E]; try lra.
           rewrite cos_neg; exact Hz.
        -- exfalso. pose proof (sin2_cos2 t) as Q. unfold Rsqr in Q.
           assert (sin t = 0) by lra. nra.
Qed.

Lemma degrees_radians (x : R) : Py.degrees (Py.radians x) = x.
Proof. unfold Py.degrees, Py.radians. pose proof PI_RGT_0. field. lra. Qed.

Lemma radians_range (x : R) : -180 < x <= 180 -> - PI < Py.radians x <= PI.
Proof. unfold Py.radians. pose proof PI_RGT_0. intros [H1 H2]. split; nra. Qed.

(** The offset [_rotate_edge] adds to a start angle, when the cosine and
    sine it receives are those of an angle of (-180, 180] degrees. *)
Lemma angle_offset_exact (phi : R) :
  -180 < phi <= 180 ->
  Py.degrees (Py.atan2 (sin (Py.radians phi)) (cos (Py.radians phi))) = phi.
Proof.
  intros H. rewrite atan2_sin_cos by (apply radians_range; exact H).
  apply degrees_radians.
Qed.

Lemma sin_cos_period_nat (x : R) (n : nat) :
  sin (x + 2 * INR n * PI) = sin x /\ cos (x + 2 * INR n * PI) = cos x.
Proof. split; [apply sin_period | apply cos_period]. Qed.

Lemma sin_cos_period_Z (x : R) (k : BinNums.Z) :
  sin (x + 2 * IZR k * PI) = sin x /\ cos (x + 2 * IZR k * PI) = cos x.
Proof.
  destruct (Z_le_gt_dec 0 k) as [Hk | Hk].
  - rewrite <- (Z2Nat.id k Hk), <- INR_IZR_INZ. apply sin_cos_period_nat.
  - assert (Hn : (0 <= - k)%Z) by lia.
    destruct (sin_cos_period_nat (x + 2 * IZR k * PI) (Z.to_nat (- k))) as [Hs Hc].
    rewrite INR_IZR_INZ, (Z2Nat.id _ Hn), opp_IZR in Hs, Hc.
    replace (x + 2 * IZR k * PI + 2 * - IZR k * PI) with x in Hs, Hc by ring.
    split; congruence.
Qed.

(** Every angle in degrees has a representative in (-180, 180]. *)
Lemma principal_angle (phi : R) :
  exists k : BinNums.Z, -180 < phi + 360 * IZR k <= 180.
Proof.
  exists (Int_part (- ((phi - 180) / 360))).
  destruct (base_Int_part (- ((phi - 180) / 360))) as [H1 H2].
  set (m := IZR (Int_part (- ((phi - 180) / 360)))) in *.
  split; lra.
Qed.

Lemma angle_offset_congruent (phi : R) :
  exists k : BinNums.Z,
    -180 < phi + 360 * IZR k <= 180 /\
    Py.degrees (Py.atan2 (sin (Py.radians phi)) (cos (Py.radians phi)))
    = phi + 360 * IZR k.
Proof.
  destruct (principal_angle phi) as [k Hk]. exists k. split; [exact Hk | ].
  destruct (sin_cos_period_Z (Py.radians phi) k) as [Hs Hc].
  assert (E : Py.radians phi + 2 * IZR k * PI = Py.radians (phi + 360 * IZR k)).
  { unfold Py.radians. field. }
  rewrite E in Hs, Hc. rewrite <- Hs, <- Hc.
  apply angle_offset_exact. exact Hk.
Qed.

(** ** The rotation optimizer *)

Import optimizer.

Lemma edge_points_translate (e : edge) (dx dy : R) :
  edge_points (_translate_edge e dx dy) = map (shift dx dy) (edge_points e).
Proof.
  destruct e; cbn [_translate_edge edge_points].
  - reflexivity.
  - rewrite map_map. apply map_ext. intros i. unfold shift. cbn [fst snd].
    f_equal; ring.
  - unfold _sample_arc_points. rewrite map_app, map_map.
    f_equal. apply map_ext. intros i. unfold shift. cbn [fst snd].
    f_equal; ring.
  - reflexivity.
Qed.

Lemma sample_points_translate (es : list edge) (dx dy : R) :
  _sample_points (map (fun e => _translate_edge e dx dy) es)
  = map (shift dx dy) (_sample_points es).
Proof.
  unfold _sample_points.
  induction es as [ | e es IH]; cbn [map flat_map].
  - reflexivity.
  - rewrite map_app, IH, edge_points_translate. reflexivity.
Qed.

Lemma edge_points_rotate_length (e : edge) (cos_a sin_a : R) :
  length (edge_points (_rotate_edge e cos_a sin_a)) = length (edge_points e).
Proof.
  destruct e; cbn [_rotate_edge _rotate_point edge_points].
  - reflexivity.
  - now rewrite !length_map.
  - unfold _sample_arc_points. now rewrite !length_app, !length_map.
  - now rewrite length_map.
Qed.

Lemma sample_points_rotate_length (es : list edge) (cos_a sin_a : R) :
  length (_sample_points (map (fun e => _rotate_edge e cos_a sin_a) es))
  = length (_sample_points es).
Proof.
  unfold _sample_points.
  induction es as [ | e es IH]; cbn [map flat_map].
  - reflexivity.
  - rewrite !length_app, IH, edge_points_rotate_length. reflexivity.
Qed.

(** [min] and [max] of a shifted list. *)
Lemma Rmin_shift (a b d : R) : Rmin (a + d) (b + d) = Rmin a b + d.
Proof. unfold Rmin. destruct (Rle_dec a b), (Rle_dec (a + d) (b + d)); lra. Qed.

Lemma Rmax_shift (a b d : R) : Rmax (a + d) (b + d) = Rmax a b + d.
Proof. unfold Rmax. destruct (Rle_dec a b), (Rle_dec (a + d) (b + d)); lra. Qed.

Lemma fold_min_shift (d : R) (l : list R) (x : R) :
  fold_left Rmin (map (fun y => y + d) l) (x + d) = fold_left Rmin l x + d.
Proof.
  revert x. induction l as [ | y l IH]; intros x; cbn [map fold_left].
  - reflexivity.
  - rewrite Rmin_shift. apply IH.
Qed.

Lemma fold_max_shift (d : R) (l : list R) (x : R) :
  fold_left Rmax (map (fun y => y + d) l) (x + d) = fold_left Rmax l x + d.
Proof.
  revert x. induction l as [ | y l IH]; intros x; cbn [map fold_left].
  - reflexivity.
  - rewrite Rmax_shift. apply IH.
Qed.

Lemma min_shift (d : R) (l : list R) (m : R) :
  Py.min l = Ok m -> Py.min (map (fun y => y + d) l) = Ok (m + d).
Proof.
  destruct l as [ | x l]; cbn [Py.min map]; [discriminate | ].
  intros H. injection H as <-. now rewrite fold_min_shift.
Qed.

Lemma max_shift (d : R) (l : list R) (m : R) :
  Py.max l = Ok m -> Py.max (map (fun y => y + d) l) = Ok (m + d).
Proof.
  destruct l as [ | x l]; cbn [Py.max map]; [discriminate | ].
  intros H. injection H as <-. now rewrite fold_max_shift.
Qed.

Lemma min_defined (l : list R) : l <> [] -> exists m, Py.min l = Ok m.
Proof. destruct l; [congruence | intros _; eexists; reflexivity]. Qed.

Lemma max_defined (l : list R) : l <> [] -> exists m, Py.max l = Ok m.
Proof. destruct l; [congruence | intros _; eexists; reflexivity]. Qed.

Lemma map_fst_shift (dx dy : R) (pts : list (R * R)) :
  map fst (map (shift dx dy) pts) = map (fun x => x + dx) (map fst pts).
Proof. rewrite !map_map. reflexivity. Qed.

Lemma map_snd_shift (dx dy : R) (pts : list (R * R)) :
  map snd (map (shift dx dy) pts) = map (fun y => y + dy) (map snd pts).
Proof. rewrite !map_map. reflexivity. Qed.

Lemma nonempty_length {A : Type} (l : list A) : l <> [] <-> (0 < length l)%nat.
Proof. destruct l; cbn; split; intros; (congruence || lia). Qed.

Lemma rotated_points_nonempty (phi : R) (es : list edge) :
  _sample_points es <> [] -> _sample_points (rotated_by phi es) <> [].
Proof.
  rewrite !nonempty_length. unfold rotated_by.
  now rewrite sample_points_rotate_length.
Qed.

(** The result of [optimize_rotation], in terms of the extents of the
    rotated sample points. *)
Lemma optimize_rotation_ok
  (mrr : list (R * R) -> option ((R * R) * (R * R))) (p : ProfileResult)
  (angle x0 x1 y0 y1 : R) :
  _find_optimal_angle mrr (_sample_points (projection.edges p)) = Ok angle ->
  let phi := - angle in
  let pts := _sample_points (rotated_by phi (projection.edges p)) in
  Py.min (map fst pts) = Ok x0 -> Py.max (map fst pts) = Ok x1 ->
  Py.min (map snd pts) = Ok y0 -> Py.max (map snd pts) = Ok y1 ->
  optimize_rotation mrr p
  = Ok {| edges := map (fun e => _translate_edge e (- x0) (- y0))
                       (rotated_by phi (projection.edges p));
          wires := map (fun w => map (fun e => _translate_edge e (- x0) (- y0)) w)
                       (map (rotated_by phi) (projection.wires p));
          bbox_w := x1 - x0;
          bbox_h := y1 - y0;
          rotation_deg := phi;
          thickness_inches := projection.thickness_inches p |}.
Proof.
  intros Ha phi pts Hx0 Hx1 Hy0 Hy1. unfold optimize_rotation.
  rewrite Ha. cbn [bind].
  fold phi. fold (rotated_by phi (projection.edges p)). fold pts.
  rewrite Hx0, Hx1, Hy0, Hy1. reflexivity.
Qed.

(** With fewer than three points shapely is not called. *)
Lemma find_optimal_angle_few
  (mrr : list (R * R) -> option ((R * R) * (R * R))) (pts : list (R * R)) :
  (length pts < 3)%nat -> _find_optimal_angle mrr pts = Ok 0.
Proof.
  intros H. unfold _find_optimal_angle.
  apply Nat.ltb_lt in H. now rewrite H.
Qed.

(** The three outcomes of [_find_optimal_angle]. *)
Lemma find_optimal_angle_cases
  (mrr : list (R * R) -> option ((R * R) * (R * R))) (pts : list (R * R)) :
  ((length pts < 3)%nat /\ _find_optimal_angle mrr pts = Ok 0)
  \/ ((3 <= length pts)%nat
      /\ exists k0 k1,
           mrr pts = Some (k0, k1)
           /\ _find_optimal_angle mrr pts
              = Ok (Py.degrees (Py.atan2 (snd k1 - snd k0) (fst k1 - fst k0))))
  \/ ((3 <= length pts)%nat /\ mrr pts = None
      /\ _find_optimal_angle mrr pts = Raise AttributeError).
Proof.
  unfold _find_optimal_angle.
  destruct (length pts <? 3)%nat eqn:E.
  - left. apply Nat.ltb_lt in E. now split.
  - apply Nat.ltb_ge in E. right.
    destruct (mrr pts) as [[k0 k1] | ].
    + left. split; [exact E | ]. now exists k0, k1.
    + right. now repeat split.
Qed.

(** When the angle is found and a point is sampled, the call returns. *)
Lemma optimize_rotation_returns
  (mrr : list (R * R) -> option ((R * R) * (R * R))) (p : ProfileResult)
  (angle : R) :
  _find_optimal_angle mrr (_sample_points (projection.edges p)) = Ok angle ->
  _sample_points (projection.edges p) <> [] ->
  exists x0 x1 y0 y1,
    let pts := _sample_points (rotated_by (- angle) (projection.edges p)) in
    Py.min (map fst pts) = Ok x0 /\ Py.max (map fst pts) = Ok x1
    /\ Py.min (map snd pts) = Ok y0 /\ Py.max (map snd pts) = Ok y1
    /\ optimize_rotation mrr p
       = Ok {| edges := map (fun e => _translate_edge e (- x0) (- y0))
                            (rotated_by (- angle) (projection.edges p));
               wires := map (fun w => map (fun e => _translate_edge e (- x0) (- y0)) w)
                            (map (rotated_by (- angle)) (projection.wires p));
               bbox_w := x1 - x0;
               bbox_h := y1 - y0;
               rotation_deg := - angle;
               thickness_inches := projection.thickness_inches p |}.
Proof.
  intros Ha Hne. cbv zeta.
  pose proof (rotated_points_nonempty (- angle) _ Hne) as Hr.
  set (pts := _sample_points (rotated_by (- angle) (projection.edges p))) in *.
  destruct (min_defined (map fst pts)) as [x0 Hx0]; [now destruct pts | ].
  destruct (max_defined (map fst pts)) as [x1 Hx1]; [now destruct pts | ].
  destruct (min_defined (map snd pts)) as [y0 Hy0]; [now destruct pts | ].
  destruct (max_defined (map snd pts)) as [y1 Hy1]; [now destruct pts | ].
  exists x0, x1, y0, y1. repeat split; try assumption.
  apply (optimize_rotation_ok mrr p angle x0 x1 y0 y1); assumption.
Qed.

(** When shapely returns no polygon the call raises, whatever the edges. *)
Lemma optimize_rotation_no_polygon
  (mrr : list (R * R) -> option ((R * R) * (R * R))) (p : ProfileResult) :
  (3 <= length (_sample_points (projection.edges p)))%nat ->
  mrr (_sample_points (projection.edges p)) = None ->
  optimize_rotation mrr p = Raise AttributeError.
Proof.
  intros Hn Hm. unfold optimize_rotation, _find_optimal_angle.
  apply Nat.ltb_ge in Hn. rewrite Hn, Hm. reflexivity.
Qed.

(** ** Axis and face selection *)

Ltac solve_R :=
  cbn [fst snd] in *;
  first [ lra
        | unfold Rabs; repeat destruct (Rcase_abs _); lra ].

Ltac py_decide :=
  repeat match goal with
         | |- context [Py.ltb ?a ?b] =>
             first [ rewrite (ltb_true a b) by solve_R
                   | rewrite (ltb_false a b) by solve_R ]
         | |- context [Py.leb ?a ?b] =>
             first [ rewrite (leb_true a b) by solve_R
                   | rewrite (leb_false a b) by solve_R ]
         | |- context [Py.gtb ?a ?b] =>
             first [ rewrite (gtb_true a b) by solve_R
                   | rewrite (gtb_false a b) by solve_R ]
         | |- context [Py.eqb ?a ?b] =>
             first [ rewrite (eqb_true a b) by solve_R
                   | rewrite (eqb_false a b) by solve_R ]
         end.

Lemma axes_sorted_cases (s : shape) :
  let ex := extents s in
  axes_sorted s =
    if Rle_dec (ex Y) (ex Z)
    then if Rle_dec (ex X) (ex Y) then [X; Y; Z]
         else if Rle_dec (ex X) (ex Z) then [Y; X; Z] else [Y; Z; X]
    else if Rle_dec (ex X) (ex Z) then [X; Z; Y]
         else if Rle_dec (ex X) (ex Y) then [Z; X; Y] else [Z; Y; X].
Proof.
  unfold axes_sorted, Py.sorted. cbn [fold_right Py.insert_by].
  destruct (Rle_dec (extents s Y) (extents s Z)); cbn [Py.insert_by];
    destruct (Rle_dec (extents s X) (extents s Y)); cbn [Py.insert_by];
    destruct (Rle_dec (extents s X) (extents s Z)); try reflexivity; lra.
Qed.

Ltac solve_before :=
  unfold before, rank;
  match goal with
  | |- ?a < ?b \/ _ =>
      destruct (Rlt_dec a b) as [L | L];
      [ left; exact L
      | first [ right; split; [lra | lia] | exfalso; lra ] ]
  end.

Lemma axes_sorted_order (s : shape) :
  StronglySorted (before s) (axes_sorted s)
  /\ Permutation [X; Y; Z] (axes_sorted s).
Proof.
  rewrite axes_sorted_cases. cbv zeta.
  destruct (Rle_dec (extents s Y) (extents s Z)) as [H1 | H1];
    destruct (Rle_dec (extents s X) (extents s Y)) as [H2 | H2];
    destruct (Rle_dec (extents s X) (extents s Z)) as [H3 | H3];
    try (exfalso; lra);
    (split;
     [ repeat first [ apply SSorted_cons | apply SSorted_nil
                    | apply Forall_cons | apply Forall_nil ];
       solve_before
     | ]).
  - apply Permutation_refl.
  - apply perm_swap.
  - eapply perm_trans; [apply perm_swap | apply perm_skip; apply perm_swap].
  - apply perm_skip; apply perm_swap.
  - eapply perm_trans; [apply perm_skip; apply perm_swap | apply perm_swap].
  - eapply perm_trans;
      [ apply perm_swap
      | eapply perm_trans; [apply perm_skip; apply perm_swap | apply perm_swap] ].
Qed.

Lemma axes_sorted_nonempty (s : shape) :
  exists a rest, axes_sorted s = a :: rest.
Proof.
  rewrite axes_sorted_cases. cbv zeta.
  repeat destruct (Rle_dec _ _); eexists; eexists; reflexivity.
Qed.

Lemma axis_loop_skip (s : shape) (scale : R) (pre rest : list axis) :
  Forall (skipped s scale) pre ->
  axis_loop s scale (pre ++ rest) = axis_loop s scale rest.
Proof.
  induction 1 as [ | a pre Ha _ IH]; cbn [app axis_loop].
  - reflexivity.
  - unfold skipped in Ha.
    destruct (best_of (candidate_faces s a)); [rewrite Ha | ]; exact IH.
Qed.

Lemma axis_loop_accept (s : shape) (scale : R) (a : axis) (rest : list axis) (f : face) :
  best_of (candidate_faces s a) = Some f ->
  _is_rectangle (all_edges f a scale) = false ->
  axis_loop s scale (a :: rest) = Some (profile_of s f a scale).
Proof. intros Hf Hr. cbn [axis_loop]. now rewrite Hf, Hr. Qed.

Lemma axis_loop_all_skipped (s : shape) (scale : R) (axes : list axis) :
  Forall (skipped s scale) axes -> axis_loop s scale axes = None.
Proof.
  intros H. rewrite <- (app_nil_r axes). now rewrite axis_loop_skip.
Qed.

(** No face at all: every axis is passed over. *)
Lemma no_faces_skipped (s : shape) (scale : R) (axes : list axis) :
  faces s = [] -> Forall (skipped s scale) axes.
Proof.
  intros H. apply Forall_forall. intros a _.
  unfold skipped, candidate_faces. now rewrite H.
Qed.

Lemma no_planar_candidates (s : shape) (a : axis) :
  no_planar_face s -> candidate_faces s a = [].
Proof.
  unfold no_planar_face, candidate_faces. intros H.
  induction (faces s) as [ | f fs IH]; cbn [filter].
  - reflexivity.
  - unfold parallel_planar at 1.
    destruct (String.eqb_spec (geomType f) "PLANE") as [E | E].
    + exfalso. apply (H f); [now left | exact E].
    + cbn [negb]. apply IH. intros g Hg. apply H. now right.
Qed.

Lemma no_planar_skipped (s : shape) (scale : R) (axes : list axis) :
  no_planar_face s -> Forall (skipped s scale) axes.
Proof.
  intros H. apply Forall_forall. intros a _.
  unfold skipped. now rewrite no_planar_candidates.
Qed.

Lemma extract_profile_no_faces (s : shape) (u : R) :
  faces s = [] -> extract_profile s u = Raise IndexError.
Proof.
  intros H. unfold extract_profile.
  rewrite axis_loop_all_skipped by (now apply no_faces_skipped).
  unfold fallback. destruct (axes_sorted_nonempty s) as (a & rest & ->).
  cbn [Py.first bind]. unfold candidate_faces. rewrite H. reflexivity.
Qed.

Lemma extract_profile_some_face (s : shape) (u : R) :
  faces s <> [] -> exists p, extract_profile s u = Ok p.
Proof.
  intros H. unfold extract_profile.
  destruct (axis_loop s u (axes_sorted s)) as [p | ]; [now exists p | ].
  unfold fallback. destruct (axes_sorted_nonempty s) as (a & rest & ->).
  cbn [Py.first bind].
  destruct (best_of (candidate_faces s a)) as [f | ].
  - cbn [bind]. eexists; reflexivity.
  - destruct (faces s) as [ | f fs]; [congruence | ].
    cbn [Py.first bind]. eexists; reflexivity.
Qed.

Lemma extract_profile_no_planar (s : shape) (u : R) (f : face) (fs : list face)
  (a : axis) (rest : list axis) :
  faces s = f :: fs -> axes_sorted s = a :: rest -> no_planar_face s ->
  extract_profile s u = Ok (profile_of s f a u).
Proof.
  intros Hf Ha Hn. unfold extract_profile.
  rewrite axis_loop_all_skipped by (now apply no_planar_skipped).
  unfold fallback. rewrite Ha. cbn [Py.first bind].
  rewrite no_planar_candidates by exact Hn. cbn [best_of].
  rewrite Hf. reflexivity.
Qed.

(** [max(fs, key=_face_area)] is a face of the list of largest area, and the
    first such. *)
Lemma max_by_from_spec (best : face) (fs : list face) :
  let m := Py.max_by_from _face_area best fs in
  In m (best :: fs)
  /\ Forall (fun g => _face_area g <= _face_area m) (best :: fs).
Proof.
  revert best. induction fs as [ | g fs IH]; intros best; cbn [Py.max_by_from].
  - split; [now left | ]. constructor; [lra | constructor].
  - destruct (Rlt_dec (_face_area best) (_face_area g)) as [L | L].
    + destruct (IH g) as [Hin Hall]. split.
      * right. exact Hin.
      * inversion Hall; subst. constructor; [lra | ]. constructor; assumption.
    + destruct (IH best) as [Hin Hall]. split.
      * destruct Hin as [<- | Hin]; [now left | right; now right].
      * inversion Hall; subst. constructor; [assumption | ].
        constructor; [lra | assumption].
Qed.

(** ** The rectangle check *)

Lemma filter_all {A : Type} (f : A -> bool) (l : list A) :
  length (filter f l) = length l -> Forall (fun x => f x = true) l.
Proof.
  induction l as [ | x l IH]; cbn [filter]; intros H.
  - constructor.
  - destruct (f x) eqn:E.
    + constructor; [exact E | ]. apply IH. cbn [length] in H. lia.
    + pose proof (filter_length_le f l). cbn [length] in H. lia.
Qed.

Lemma filter_id {A : Type} (f : A -> bool) (l : list A) :
  Forall (fun x => f x = true) l -> filter f l = l.
Proof.
  induction 1 as [ | x l Hx _ IH]; cbn [filter]; [reflexivity | ].
  now rewrite Hx, IH.
Qed.

Lemma gtb_negb (x y : R) : negb (Py.gtb x y) = true <-> x <= y.
Proof.
  unfold Py.gtb, Py.ltb. destruct (Rlt_dec y x); cbn [negb]; split; intros; (lra || congruence).
Qed.

Lemma is_rectangle_four (l0 l1 l2 l3 : edge) :
  Forall (fun e => is_Line2D e = true) [l0; l1; l2; l3] ->
  _is_rectangle [l0; l1; l2; l3] = true
  <-> (near_perpendicular l0 l1 /\ near_perpendicular l1 l2
       /\ near_perpendicular l2 l3 /\ near_perpendicular l3 l0).
Proof.
  intros Hl. unfold _is_rectangle. rewrite (filter_id _ _ Hl).
  cbn [length Nat.eqb negb orb seq forallb nth].
  change ((0 + 1) mod 4)%nat with 1%nat.
  change ((1 + 1) mod 4)%nat with 2%nat.
  change ((2 + 1) mod 4)%nat with 3%nat.
  change ((3 + 1) mod 4)%nat with 0%nat.
  cbn [nth]. rewrite !andb_true_iff, !gtb_negb. unfold near_perpendicular.
  tauto.
Qed.

Lemma is_rectangle_spec (es : list edge) :
  _is_rectangle es = true <-> four_perpendicular_lines es.
Proof.
  split.
  - intros H.
    assert (Hlen : length (filter is_Line2D es) = length es /\ length es = 4%nat).
    { unfold _is_rectangle in H.
      destruct (length (filter is_Line2D es) =? length es)%nat eqn:E1;
        [ | discriminate].
      destruct (length (filter is_Line2D es) =? 4)%nat eqn:E2;
        [ | discriminate].
      apply Nat.eqb_eq in E1, E2. lia. }
    destruct Hlen as [Hf H4]. apply filter_all in Hf.
    destruct es as [ | l0 [ | l1 [ | l2 [ | l3 [ | ]]]]]; try discriminate.
    exists l0, l1, l2, l3. split; [reflexivity | ]. split; [exact Hf | ].
    now apply is_rectangle_four.
  - intros (l0 & l1 & l2 & l3 & -> & Hl & Hp).
    now apply is_rectangle_four.
Qed.

(** ** The classifier and the selection on the concrete inputs *)

Import Examples.

Lemma classify_segment (p q : R * R * R) (a : axis) (scale : R) :
  classify (segment p q) a scale
  = [Line2D (fst (projected (segment p q) 0 a scale))
            (snd (projected (segment p q) 0 a scale))
            (fst (projected (segment p q) 1 a scale))
            (snd (projected (segment p q) 1 a scale))].
Proof.
  unfold classify, projected.
  cbn [GetType FirstParameter LastParameter segment].
  rewrite ltb_false by (rewrite Rabs_pos_eq; lra).
  split_pairs. reflexivity.
Qed.

Lemma near_perpendicular_dot0 (a b : edge) :
  np_dot (direction a) (direction b) = 0 -> near_perpendicular a b.
Proof.
  intros H. unfold near_perpendicular, adjacent_dot. cbv zeta. rewrite H.
  unfold Rdiv. rewrite Rmult_0_l, Rabs_R0. lra.
Qed.

Lemma parallel_planar_plane (a : axis) (f : face) (n : R * R * R) :
  geomType f = "PLANE"%string -> normalAt_Center f = Some n ->
  parallel_planar a f = Py.gtb (Rabs (Dot n (AXIS_VECTORS a))) 0.999.
Proof. intros Hg Hn. unfold parallel_planar. now rewrite Hg, Hn. Qed.

Ltac eval_parallel :=
  repeat (erewrite parallel_planar_plane by reflexivity;
          cbv [Dot AXIS_VECTORS]; py_decide).

(** The sphere: no planar face, and yet a profile. *)
Lemma sphere_no_planar : no_planar_face sphere.
Proof. intros f [<- | []]. cbn. discriminate. Qed.

Lemma sphere_axes : axes_sorted sphere = [X; Y; Z].
Proof.
  rewrite axes_sorted_cases. cbv zeta. cbn [extents sphere xmin xmax ymin ymax zmin zmax].
  repeat destruct (Rle_dec _ _); first [reflexivity | exfalso; lra].
Qed.

(** The plate with a hole: the outer boundary is a rectangle, the flattened
    list has a fifth edge. *)
Lemma plate_top_outer :
  outer_edges plate_top Z 1
  = [Line2D ((0 + 0 * (10 - 0)) * 1) ((0 + 0 * (0 - 0)) * 1)
            ((0 + 1 * (10 - 0)) * 1) ((0 + 1 * (0 - 0)) * 1);
     Line2D ((10 + 0 * (10 - 10)) * 1) ((0 + 0 * (5 - 0)) * 1)
            ((10 + 1 * (10 - 10)) * 1) ((0 + 1 * (5 - 0)) * 1);
     Line2D ((10 + 0 * (0 - 10)) * 1) ((5 + 0 * (5 - 5)) * 1)
            ((10 + 1 * (0 - 10)) * 1) ((5 + 1 * (5 - 5)) * 1);
     Line2D ((0 + 0 * (0 - 0)) * 1) ((5 + 0 * (0 - 5)) * 1)
            ((0 + 1 * (0 - 0)) * 1) ((5 + 1 * (0 - 5)) * 1)].
Proof.
  unfold outer_edges, _extract_edges_from_wire.
  cbn [plate_top outerWire flat_map app]. rewrite !classify_segment.
  reflexivity.
Qed.

Lemma plate_top_hole :
  inner_wires_edges plate_top Z 1 = [[Circle2D (5 * 1) (2.5 * 1) (1 * 1)]].
Proof.
  unfold inner_wires_edges, _extract_edges_from_wire.
  cbn [plate_top innerWires map flat_map app].
  rewrite classify_full_circle.
  - reflexivity.
  - reflexivity.
  - cbn [circle_edge FirstParameter LastParameter].
    replace (2 * PI - 0 - 2 * PI) with 0 by ring. rewrite Rabs_R0. lra.
Qed.

Lemma plate_top_not_rejected : _is_rectangle (all_edges plate_top Z 1) = false.
Proof.
  unfold all_edges. rewrite plate_top_outer, plate_top_hole.
  reflexivity.
Qed.

(** The triangular bar: Y and X lead to rectangular sides, Z to the
    triangle. *)
Lemma bar_axes : axes_sorted bar = [Y; X; Z].
Proof.
  rewrite axes_sorted_cases. cbv zeta.
  cbn [extents bar xmin xmax ymin ymax zmin zmax].
  repeat destruct (Rle_dec _ _); first [reflexivity | exfalso; lra].
Qed.

Lemma bar_candidates_Y :
  candidate_faces bar Y = [side (0, 0) (4, 0) (0, -1, 0) 40].
Proof.
  unfold candidate_faces. cbn [bar faces filter]. eval_parallel. reflexivity.
Qed.

Lemma bar_candidates_X :
  candidate_faces bar X = [side (0, 3) (0, 0) (-1, 0, 0) 30].
Proof.
  unfold candidate_faces. cbn [bar faces filter]. eval_parallel. reflexivity.
Qed.

Lemma bar_candidates_Z :
  candidate_faces bar Z = [triangle_at 0 (-1); triangle_at 10 1].
Proof.
  unfold candidate_faces. cbn [bar faces filter]. eval_parallel. reflexivity.
Qed.

Lemma side_edges (p q : R * R) (n : R * R * R) (area : R) (a : axis) :
  exists l0 l1 l2 l3,
    all_edges (side p q n area) a 1 = [l0; l1; l2; l3]
    /\ l0 = Line2D (fst (projected (segment (fst p, snd p, 0) (fst q, snd q, 0)) 0 a 1))
                   (snd (projected (segment (fst p, snd p, 0) (fst q, snd q, 0)) 0 a 1))
                   (fst (projected (segment (fst p, snd p, 0) (fst q, snd q, 0)) 1 a 1))
                   (snd (projected (segment (fst p, snd p, 0) (fst q, snd q, 0)) 1 a 1))
    /\ l1 = Line2D (fst (projected (segment (fst q, snd q, 0) (fst q, snd q, 10)) 0 a 1))
                   (snd (projected (segment (fst q, snd q, 0) (fst q, snd q, 10)) 0 a 1))
                   (fst (projected (segment (fst q, snd q, 0) (fst q, snd q, 10)) 1 a 1))
                   (snd (projected (segment (fst q, snd q, 0) (fst q, snd q, 10)) 1 a 1))
    /\ l2 = Line2D (fst (projected (segment (fst q, snd q, 10) (fst p, snd p, 10)) 0 a 1))
                   (snd (projected (segment (fst q, snd q, 10) (fst p, snd p, 10)) 0 a 1))
                   (fst (projected (segment (fst q, snd q, 10) (fst p, snd p, 10)) 1 a 1))
                   (snd (projected (segment (fst q, snd q, 10) (fst p, snd p, 10)) 1 a 1))
    /\ l3 = Line2D (fst (projected (segment (fst p, snd p, 10) (fst p, snd p, 0)) 0 a 1))
                   (snd (projected (segment (fst p, snd p, 10) (fst p, snd p, 0)) 0 a 1))
                   (fst (projected (segment (fst p, snd p, 10) (fst p, snd p, 0)) 1 a 1))
                   (snd (projected (segment (fst p, snd p, 10) (fst p, snd p, 0)) 1 a 1)).
Proof.
  unfold all_edges, outer_edges, inner_wires_edges, _extract_edges_from_wire.
  cbn [side outerWire innerWires flat_map map concat app].
  rewrite !classify_segment. cbn [app].
  do 4 eexists. repeat split.
Qed.

Ltac dot0 :=
  apply near_perpendicular_dot0;
  cbv [direction np_dot projected segment Value _drop_axis fst snd];
  ring.

Lemma bar_side_rejected (p q : R * R) (n : R * R * R) (area : R) (a : axis) :
  (a = Y /\ snd p = snd q) \/ (a = X /\ fst p = fst q) ->
  _is_rectangle (all_edges (side p q n area) a 1) = true.
Proof.
  intros H. destruct (side_edges p q n area a) as (l0 & l1 & l2 & l3 & -> & -> & -> & -> & ->).
  apply is_rectangle_four.
  - repeat constructor.
  - destruct p as [px py], q as [qx qy].
    destruct H as [[-> H] | [-> H]]; cbn [fst snd] in H; subst;
      repeat split; dot0.
Qed.

Lemma bar_skipped_Y : skipped bar 1 Y.
Proof.
  unfold skipped. rewrite bar_candidates_Y. cbn [best_of Py.max_by_from].
  apply bar_side_rejected. left. split; reflexivity.
Qed.

Lemma bar_skipped_X : skipped bar 1 X.
Proof.
  unfold skipped. rewrite bar_candidates_X. cbn [best_of Py.max_by_from].
  apply bar_side_rejected. right. split; reflexivity.
Qed.

Lemma bar_best_Z : best_of (candidate_faces bar Z) = Some (triangle_at 0 (-1)).
Proof.
  rewrite bar_candidates_Z. cbn [best_of Py.max_by_from triangle_at _face_area].
  destruct (Rlt_dec 6 6); [exfalso; lra | reflexivity].
Qed.

Lemma bar_triangle_kept : _is_rectangle (all_edges (triangle_at 0 (-1)) Z 1) = false.
Proof.
  unfold all_edges, outer_edges, inner_wires_edges, _extract_edges_from_wire.
  cbn [triangle_at outerWire innerWires flat_map map concat app].
  rewrite !classify_segment. reflexivity.
Qed.

(** The tilted plate: Z and Y have no face, X leads to the rectangular
    end, and the statements after the loop take the first face of the solid
    on the axis Z, along which it is seen edge-on. *)
Lemma quad_edges (p0 p1 p2 p3 n : R * R * R) (area : R) (a : axis) (u : R) :
  all_edges (quad p0 p1 p2 p3 n area) a u
  = [Line2D (fst (projected (segment p0 p1) 0 a u)) (snd (projected (segment p0 p1) 0 a u))
            (fst (projected (segment p0 p1) 1 a u)) (snd (projected (segment p0 p1) 1 a u));
     Line2D (fst (projected (segment p1 p2) 0 a u)) (snd (projected (segment p1 p2) 0 a u))
            (fst (projected (segment p1 p2) 1 a u)) (snd (projected (segment p1 p2) 1 a u));
     Line2D (fst (projected (segment p2 p3) 0 a u)) (snd (projected (segment p2 p3) 0 a u))
            (fst (projected (segment p2 p3) 1 a u)) (snd (projected (segment p2 p3) 1 a u));
     Line2D (fst (projected (segment p3 p0) 0 a u)) (snd (projected (segment p3 p0) 0 a u))
            (fst (projected (segment p3 p0) 1 a u)) (snd (projected (segment p3 p0) 1 a u))].
Proof.
  unfold all_edges, outer_edges, inner_wires_edges, _extract_edges_from_wire.
  cbn [quad outerWire innerWires flat_map map concat app].
  rewrite !classify_segment. reflexivity.
Qed.

Lemma tilted_plate_axes : axes_sorted tilted_plate = [Z; Y; X].
Proof.
  rewrite axes_sorted_cases. cbv zeta.
  cbn [extents tilted_plate xmin xmax ymin ymax zmin zmax].
  repeat destruct (Rle_dec _ _); first [reflexivity | exfalso; lra].
Qed.

Lemma tilted_plate_candidates_Z : candidate_faces tilted_plate Z = [].
Proof.
  unfold candidate_faces. cbn [tilted_plate faces filter]. eval_parallel. reflexivity.
Qed.

Lemma tilted_plate_candidates_Y : candidate_faces tilted_plate Y = [].
Proof.
  unfold candidate_faces. cbn [tilted_plate faces filter]. eval_parallel. reflexivity.
Qed.

Lemma tilted_plate_candidates_X :
  candidate_faces tilted_plate X = [plate_end 0 (-1); plate_end 50 1].
Proof.
  unfold candidate_faces. cbn [tilted_plate faces filter]. eval_parallel. reflexivity.
Qed.

Lemma plate_end_rejected (x nx u : R) :
  _is_rectangle (all_edges (plate_end x nx) X u) = true.
Proof.
  unfold plate_end. rewrite quad_edges. apply is_rectangle_four.
  - repeat constructor.
  - repeat split; apply near_perpendicular_dot0;
      cbv [direction np_dot projected segment Value _drop_axis fst snd];
      ring.
Qed.

Lemma tilted_plate_skipped (u : R) : Forall (skipped tilted_plate u) [Z; Y; X].
Proof.
  repeat constructor; unfold skipped.
  - now rewrite tilted_plate_candidates_Z.
  - now rewrite tilted_plate_candidates_Y.
  - rewrite tilted_plate_candidates_X.
    cbn [best_of Py.max_by_from plate_end quad _face_area].
    destruct (Rlt_dec 125 125); [exfalso; lra | ].
    apply (plate_end_rejected 0 (-1)).
Qed.

Lemma tilted_plate_extracted (u : R) :
  extract_profile tilted_plate u
  = Ok (profile_of tilted_plate (plate_end 0 (-1)) Z u).
Proof.
  unfold extract_profile. rewrite tilted_plate_axes.
  rewrite axis_loop_all_skipped by apply tilted_plate_skipped.
  unfold fallback. rewrite tilted_plate_axes. cbn [Py.first bind].
  rewrite tilted_plate_candidates_Z. reflexivity.
Qed.

Lemma line_eq (a b c d a' b' c' d' : R) :
  a = a' -> b = b' -> c = c' -> d = d' -> Line2D a b c d = Line2D a' b' c' d'.
Proof. now intros -> -> -> ->. Qed.

Lemma plate_end_edge_on :
  all_edges (plate_end 0 (-1)) Z 1 = projection.edges collinear_profile.
Proof.
  unfold plate_end. rewrite quad_edges.
  cbv [collinear_profile projection.edges projected segment Value _drop_axis fst snd].
  repeat (apply f_equal2; [apply line_eq; lra | ]). reflexivity.
Qed.

Lemma tilted_plate_profile : extract_profile tilted_plate 1 = Ok collinear_profile.
Proof.
  rewrite tilted_plate_extracted. unfold profile_of.
  assert (Ho : outer_edges (plate_end 0 (-1)) Z 1 = projection.edges collinear_profile).
  { rewrite <- plate_end_edge_on. unfold all_edges, inner_wires_edges.
    cbn [plate_end quad innerWires map concat]. now rewrite app_nil_r. }
  rewrite plate_end_edge_on, Ho.
  unfold inner_wires_edges. cbn [plate_end quad innerWires map].
  unfold collinear_profile at 3. cbn [projection.edges collinear_profile].
  do 2 f_equal. cbn [extents tilted_plate zmax zmin]. lra.
Qed.

(** Whatever the unit factor, the profile of the tilted plate has eight
    sample points, all of them on the line x = 0. *)
Lemma tilted_plate_samples (u : R) :
  let pts := optimizer._sample_points
               (projection.edges (profile_of tilted_plate (plate_end 0 (-1)) Z u)) in
  length pts = 8%nat /\ Forall (fun q => fst q = 0) pts.
Proof.
  cbn [profile_of projection.edges]. unfold plate_end. rewrite quad_edges.
  cbn [optimizer._sample_points flat_map optimizer.edge_points app length].
  split; [reflexivity | ].
  repeat constructor;
    cbv [projected segment Value _drop_axis fst snd]; ring.
Qed.

(** A quarter of the unit circle, counter-clockwise and clockwise: the
    midpoint decides the sign of the sweep. *)
Lemma degrees_quarter : Py.degrees (PI / 2) = 90.
Proof. unfold Py.degrees. pose proof PI_RGT_0. field. lra. Qed.

Lemma degrees_eighth : Py.degrees (PI / 4) = 45.
Proof. unfold Py.degrees. pose proof PI_RGT_0. field. lra. Qed.

Lemma degrees_opp (x : R) : Py.degrees (- x) = - Py.degrees x.
Proof. unfold Py.degrees. ring. Qed.

Lemma atan2_on_axis (y : R) :
  (0 < y -> Py.atan2 y 0 = PI / 2) /\ (y < 0 -> Py.atan2 y 0 = - (PI / 2)).
Proof.
  unfold Py.atan2.
  destruct (Rlt_dec 0 0) as [H | _]; [lra | ].
  destruct (Rlt_dec 0 y), (Rlt_dec y 0); split; intros; (reflexivity || lra).
Qed.

(** The seam of the ball seen along X is a half circle: one arc, of sweep
    180 degrees one way or the other. *)
Lemma sphere_seam_arc (u : R) :
  0 < u ->
  exists mid,
    classify sphere_seam X u
    = [Arc2D (0 * u) (0 * u) (1 * u) (-90)
             (if Py.leb mid (180 + 0.5) then 180 else 180 - 360)
             (0 * u) (-1 * u) (0 * u) (1 * u)].
Proof.
  intros Hu. pose proof PI_gt_3 as Hpi. unfold classify.
  cbn [sphere_seam GetType FirstParameter LastParameter Value Location Radius
       _drop_axis].
  rewrite ltb_false by (rewrite Rabs_pos_eq; lra).
  rewrite ltb_false by (rewrite Rabs_left; lra).
  rewrite sin_neg, sin_PI2.
  replace (- (1) * u - 0 * u) with (- u) by ring.
  replace (- (1) * u) with (-1 * u) by ring.
  replace (1 * u - 0 * u) with u by ring.
  replace (0 * u - 0 * u) with 0 by ring.
  rewrite (proj2 (atan2_on_axis (- u))) by lra.
  rewrite (proj1 (atan2_on_axis u)) by lra.
  rewrite degrees_opp, degrees_quarter.
  replace (90 - - (90)) with 180 by lra.
  replace (- (90)) with (-90) by lra.
  rewrite (normalize_angle_mod 180), (mod_small 180 360) by lra.
  rewrite eqb_false by lra.
  eexists. reflexivity.
Qed.

Lemma sphere_profile (u : R) :
  0 < u ->
  exists w,
    Rabs w = 180
    /\ extract_profile sphere u
       = Ok {| projection.edges :=
                 [Arc2D (0 * u) (0 * u) (1 * u) (-90) w (0 * u) (-1 * u) (0 * u) (1 * u)];
               projection.wires :=
                 [[Arc2D (0 * u) (0 * u) (1 * u) (-90) w (0 * u) (-1 * u) (0 * u) (1 * u)]];
               projection.thickness_inches := (1 - -1) * u;
               extrusion_axis := X |}.
Proof.
  intros Hu. destruct (sphere_seam_arc u Hu) as [mid Hc].
  exists (if Py.leb mid (180 + 0.5) then 180 else 180 - 360). split.
  - destruct (Py.leb mid (180 + 0.5)); [rewrite Rabs_pos_eq | rewrite Rabs_left]; lra.
  - rewrite (extract_profile_no_planar sphere u sphere_face [] X [Y; Z]
               eq_refl sphere_axes sphere_no_planar).
    unfold profile_of, all_edges, outer_edges, inner_wires_edges,
      _extract_edges_from_wire.
    cbn [sphere_face outerWire innerWires flat_map map concat app].
    rewrite Hc. reflexivity.
Qed.

Lemma atan2_unit (t : R) :
  - PI < t <= PI ->
  Py.atan2 ((0 + 1 * sin t) * 1 - 0 * 1) ((0 + 1 * cos t) * 1 - 0 * 1) = t.
Proof.
  intros H.
  replace ((0 + 1 * sin t) * 1 - 0 * 1) with (sin t) by ring.
  replace ((0 + 1 * cos t) * 1 - 0 * 1) with (cos t) by ring.
  now apply atan2_sin_cos.
Qed.

Lemma atan2_unit_flipped (t : R) :
  - PI <= t < PI ->
  Py.atan2 ((0 - 1 * sin t) * 1 - 0 * 1) ((0 + 1 * cos t) * 1 - 0 * 1) = - t.
Proof.
  intros H.
  replace ((0 - 1 * sin t) * 1 - 0 * 1) with (sin (- t)) by (rewrite sin_neg; ring).
  replace ((0 + 1 * cos t) * 1 - 0 * 1) with (cos (- t)) by (rewrite cos_neg; ring).
  apply atan2_sin_cos. lra.
Qed.

Example quarter_counter_clockwise :
  classify (circle_edge 0 0 0 1 0 (PI / 2)) Z 1
  = [Arc2D (0 * 1) (0 * 1) (1 * 1) 0 90
           ((0 + 1 * cos 0) * 1) ((0 + 1 * sin 0) * 1)
           ((0 + 1 * cos (PI / 2)) * 1) ((0 + 1 * sin (PI / 2)) * 1)].
Proof.
  pose proof PI_gt_3 as Hpi. pose proof PI_4 as Hpi4.
  unfold classify.
  cbn [circle_edge GetType FirstParameter LastParameter Value Location Radius _drop_axis].
  rewrite ltb_false by (rewrite Rabs_pos_eq; lra).
  rewrite ltb_false by (rewrite Rabs_left; lra).
  replace ((0 + PI / 2) / 2) with (PI / 4) by field.
  rewrite !atan2_unit by lra.
  rewrite degrees_quarter, degrees_eighth.
  replace (Py.degrees 0) with 0 by (unfold Py.degrees; ring).
  rewrite !normalize_angle_mod, !mod_small by lra.
  rewrite eqb_false by lra. rewrite leb_true by lra.
  f_equal. f_equal; lra.
Qed.

Example quarter_clockwise :
  classify (flipped_circle_edge 0 0 0 1 0 (PI / 2)) Z 1
  = [Arc2D (0 * 1) (0 * 1) (1 * 1) (- 0) (270 - 360)
           ((0 + 1 * cos 0) * 1) ((0 - 1 * sin 0) * 1)
           ((0 + 1 * cos (PI / 2)) * 1) ((0 - 1 * sin (PI / 2)) * 1)].
Proof.
  pose proof PI_gt_3 as Hpi. pose proof PI_4 as Hpi4.
  unfold classify.
  cbn [flipped_circle_edge GetType FirstParameter LastParameter Value Location
       Radius _drop_axis].
  rewrite ltb_false by (rewrite Rabs_pos_eq; lra).
  rewrite ltb_false by (rewrite Rabs_left; lra).
  replace ((0 + PI / 2) / 2) with (PI / 4) by field.
  rewrite !atan2_unit_flipped by lra.
  rewrite !degrees_opp, degrees_quarter, degrees_eighth.
  replace (Py.degrees 0) with 0 by (unfold Py.degrees; ring).
  rewrite !normalize_angle_mod.
  rewrite (mod_shift (- (90) - - 0) 360 (-1)) by lra.
  rewrite (mod_shift (- (45) - - 0) 360 (-1)) by lra.
  rewrite eqb_false by lra. rewrite leb_false by lra.
  f_equal. f_equal; lra.
Qed.

(** ** The standalone DXF tool against the optimizer *)

Import dxf_min_bound.

Lemma find_optimal_angle_same
  (mrr : list (R * R) -> option ((R * R) * (R * R))) (pts : list (R * R)) :
  dxf_min_bound._find_optimal_angle mrr pts = optimizer._find_optimal_angle mrr pts.
Proof.
  unfold dxf_min_bound._find_optimal_angle, optimizer._find_optimal_angle.
  destruct (length pts <? 3)%nat; [reflexivity | ].
  destruct (mrr pts) as [[k0 k1] | ]; reflexivity.
Qed.

Lemma mod_turns (x : R) : exists k : BinNums.Z, Py.mod_ x 360 = x + 360 * IZR k.
Proof.
  exists (- Py.floor (x / 360))%Z. unfold Py.mod_. rewrite opp_IZR. ring.
Qed.

Lemma mod_add_turns (x : R) (k : BinNums.Z) :
  Py.mod_ (x + 360 * IZR k) 360 = Py.mod_ x 360.
Proof.
  pose proof (mod_range x 360 ltac:(lra)) as Hr.
  unfold Py.mod_ at 2. unfold Py.mod_ in Hr.
  set (f := Py.floor (x / 360)) in *.
  rewrite (mod_shift _ 360 (f + k)%Z) by (rewrite ?plus_IZR; lra).
  rewrite plus_IZR. ring.
Qed.

Lemma radians_turns (x : R) (k : BinNums.Z) :
  Py.radians (x + 360 * IZR k) = Py.radians x + 2 * IZR k * PI.
Proof. unfold Py.radians. field. Qed.

Lemma radians_plus (x y : R) : Py.radians (x + y) = Py.radians x + Py.radians y.
Proof. unfold Py.radians. ring. Qed.

Lemma cos_radians_mod (x : R) : cos (Py.radians (Py.mod_ x 360)) = cos (Py.radians x).
Proof.
  destruct (mod_turns x) as [k ->]. rewrite radians_turns.
  apply sin_cos_period_Z.
Qed.

Lemma sin_radians_mod (x : R) : sin (Py.radians (Py.mod_ x 360)) = sin (Py.radians x).
Proof.
  destruct (mod_turns x) as [k ->]. rewrite radians_turns.
  apply sin_cos_period_Z.
Qed.

Lemma span_rotated (sa ea phi : R) :
  Py.mod_ (Py.mod_ (ea + phi) 360 - Py.mod_ (sa + phi) 360) 360
  = Py.mod_ (ea - sa) 360.
Proof.
  destruct (mod_turns (ea + phi)) as [k1 ->].
  destruct (mod_turns (sa + phi)) as [k2 ->].
  replace (ea + phi + 360 * IZR k1 - (sa + phi + 360 * IZR k2))
    with (ea - sa + 360 * IZR (k1 - k2)) by (rewrite minus_IZR; ring).
  apply mod_add_turns.
Qed.

Lemma translate_entity_as_edge (e : entity) (ox oy : R) :
  as_edge (translate_entity e ox oy)
  = option_map (fun ed => _translate_edge ed (- ox) (- oy)) (as_edge e).
Proof.
  destruct e; cbn [translate_entity as_edge option_map _translate_edge c0 c1 c2 fst snd];
    try reflexivity.
  - apply f_equal.
    replace (c0 center - ox + radius * cos (Py.radians start_angle))
      with (c0 center + radius * cos (Py.radians start_angle) + - ox) by ring.
    replace (c1 center - oy + radius * sin (Py.radians start_angle))
      with (c1 center + radius * sin (Py.radians start_angle) + - oy) by ring.
    replace (c0 center - ox + radius * cos (Py.radians end_angle))
      with (c0 center + radius * cos (Py.radians end_angle) + - ox) by ring.
    replace (c1 center - oy + radius * sin (Py.radians end_angle))
      with (c1 center + radius * sin (Py.radians end_angle) + - oy) by ring.
    reflexivity.
  - do 2 apply f_equal. rewrite !map_map. apply map_ext. intros p. reflexivity.
Qed.

Lemma rotate_entity_as_edge (e : entity) (phi : R) :
  let cos_a := cos (Py.radians phi) in
  let sin_a := sin (Py.radians phi) in
  match as_edge (rotate_entity e phi cos_a sin_a), as_edge e with
  | Some ed', Some ed => same_up_to_turns ed' (_rotate_edge ed cos_a sin_a)
  | None, None => True
  | _, _ => False
  end.
Proof.
  intros cos_a sin_a.
  destruct e;
    cbn [rotate_entity _rotate_pt as_edge _rotate_edge _rotate_point
         same_up_to_turns c0 c1 c2 fst snd].
  - reflexivity.
  - reflexivity.
  - rewrite span_rotated, !cos_radians_mod, !sin_radians_mod, !radians_plus,
      !cos_plus, !sin_plus.
    fold cos_a sin_a.
    repeat split; try ring.
    destruct (mod_turns (start_angle + phi)) as [k1 ->].
    destruct (angle_offset_congruent phi) as (k2 & _ & E).
    fold cos_a sin_a in E. rewrite E.
    exists (k1 - k2)%Z. rewrite minus_IZR. ring.
  - f_equal. rewrite !map_map. apply map_ext. intros p. reflexivity.
  - exact I.
Qed.

Lemma same_up_to_turns_translate (e1 e2 : edge) (dx dy : R) :
  same_up_to_turns e1 e2 ->
  same_up_to_turns (optimizer._translate_edge e1 dx dy)
                   (optimizer._translate_edge e2 dx dy).
Proof.
  destruct e1, e2; cbn [same_up_to_turns optimizer._translate_edge];
    try discriminate; try (intros H; injection H; intros; subst; reflexivity).
  intros (-> & -> & -> & -> & -> & -> & -> & -> & k & ->).
  repeat split; try reflexivity. exists k. reflexivity.
Qed.

Lemma apply_rotation_edges
  (extents : list entity -> (R * R * R) * (R * R * R))
  (msp : list entity) (es : list edge) (phi x0 y0 : R) :
  let rotated :=
    map (fun e => rotate_entity e phi (cos (Py.radians phi)) (sin (Py.radians phi)))
        msp in
  as_edges msp es ->
  c0 (fst (extents rotated)) = x0 -> c1 (fst (extents rotated)) = y0 ->
  as_edges_up_to_turns
    (fst (_apply_rotation extents msp phi))
    (map (fun ed => optimizer._translate_edge ed (- x0) (- y0)) (rotated_by phi es)).
Proof.
  intros rotated H Hx Hy. unfold _apply_rotation. cbv zeta. cbn [fst].
  fold rotated. rewrite Hx, Hy. unfold rotated, rotated_by. clear rotated Hx Hy.
  induction H as [ | e ed msp es He _ IH]; cbn [map]; constructor; [ | exact IH].
  pose proof (rotate_entity_as_edge e phi) as Hr. cbv zeta in Hr.
  rewrite translate_entity_as_edge. rewrite He in Hr.
  destruct (as_edge (rotate_entity e phi (cos (Py.radians phi)) (sin (Py.radians phi))))
    as [ed1 | ]; [ | contradiction].
  cbn [option_map]. eexists. split; [reflexivity | ].
  now apply same_up_to_turns_translate.
Qed.

Lemma cos_sin_no_turn : cos (Py.radians (- 0)) = 1 /\ sin (Py.radians (- 0)) = 0.
Proof.
  replace (Py.radians (- 0)) with 0 by (unfold Py.radians; ring).
  split; [apply cos_0 | apply sin_0].
Qed.

Lemma same_translation (e1 e2 : edge) (dx dy dx' dy' : R) :
  same_up_to_turns e1 e2 -> optimizer.edge_points e1 <> [] ->
  same_up_to_turns (optimizer._translate_edge e1 dx dy)
                   (optimizer._translate_edge e2 dx' dy') ->
  dx = dx' /\ dy = dy'.
Proof.
  destruct e1 as [a1 b1 a2 b2 | a b r | a b r s w a1 b1 a2 b2 | pts],
           e2 as [c1 d1 c2 d2 | c d r' | c d r' s' w' c1 d1 c2 d2 | pts'];
    cbn [same_up_to_turns optimizer._translate_edge optimizer.edge_points];
    try discriminate.
  - intros H _ H'. injection H. injection H'. intros. subst. split; lra.
  - intros H _ H'. injection H. injection H'. intros. subst. split; lra.
  - intros (-> & -> & _) _ (H1 & H2 & _). split; lra.
  - intros H Hne H'. injection H as <-. injection H' as H'.
    destruct pts as [ | q pts]; [congruence | ].
    cbn [map] in H'. injection H' as H1 H2 _. split; lra.
Qed.

Lemma sampled_entity_has_points (e : entity) (phi c s : R) (ed : edge) :
  _sample_entity_points e 64 <> [] ->
  as_edge (rotate_entity e phi c s) = Some ed ->
  optimizer.edge_points ed <> [].
Proof.
  destruct e as [p q | p r | p r sa ea | pts | t];
    cbn [_sample_entity_points rotate_entity _rotate_pt as_edge];
    intros Hs H; try discriminate; injection H as <-;
    cbn [optimizer.edge_points].
  - discriminate.
  - intros H. apply (f_equal (@length _)) in H.
    rewrite length_map, length_seq in H. discriminate.
  - unfold optimizer._sample_arc_points. cbn [app]. discriminate.
  - destruct pts; [now contradiction Hs | cbn [map]; discriminate].
Qed.

(** The entities the tool leaves are the optimizer's primitives only if the
    corner the tool subtracts is the corner the optimizer subtracts. *)
Lemma apply_rotation_offsets
  (extents : list entity -> (R * R * R) * (R * R * R))
  (msp : list entity) (es : list edge) (phi x0 y0 : R) :
  let rotated :=
    map (fun e => rotate_entity e phi (cos (Py.radians phi)) (sin (Py.radians phi)))
        msp in
  as_edges msp es ->
  flat_map (fun e => _sample_entity_points e 64) msp <> [] ->
  as_edges_up_to_turns
    (fst (_apply_rotation extents msp phi))
    (map (fun ed => optimizer._translate_edge ed (- x0) (- y0)) (rotated_by phi es)) ->
  c0 (fst (extents rotated)) = x0 /\ c1 (fst (extents rotated)) = y0.
Proof.
  intros rotated H. unfold _apply_rotation. cbv zeta. cbn [fst]. fold rotated.
  generalize (c0 (fst (extents rotated))) (c1 (fst (extents rotated))).
  intros ox oy. unfold rotated, rotated_by, as_edges_up_to_turns. clear rotated.
  induction H as [ | e ed msp es He _ IH]; cbn [map flat_map]; [congruence | ].
  intros Hne HF. inversion HF as [ | ? ? ? ? (ed' & Hd & Hsame) HT]; subst.
  destruct (_sample_entity_points e 64) as [ | q qs] eqn:Hq.
  - apply IH; [exact Hne | exact HT].
  - clear IH HT Hne.
    rewrite translate_entity_as_edge in Hd.
    pose proof (rotate_entity_as_edge e phi) as Hr. cbv zeta in Hr. rewrite He in Hr.
    destruct (as_edge (rotate_entity e phi (cos (Py.radians phi)) (sin (Py.radians phi))))
      as [ed1 | ] eqn:H1; [ | contradiction].
    cbn [option_map] in Hd. injection Hd as <-.
    assert (Hp : optimizer.edge_points ed1 <> []).
    { apply (sampled_entity_has_points e phi (cos (Py.radians phi)) (sin (Py.radians phi)) ed1);
        [rewrite Hq; discriminate | exact H1]. }
    destruct (same_translation _ _ _ _ _ _ Hr Hp Hsame) as [Ex Ey].
    split; lra.
Qed.

(** ** The object store: what a call leaves untouched, what it creates *)

Module store_facts.
Import pyheap.
Import store_statements.

Lemma extends_refl (h : heap) : extends h h.
Proof. exists []. now rewrite app_nil_r. Qed.

Lemma extends_trans (h1 h2 h3 : heap) :
  extends h1 h2 -> extends h2 h3 -> extends h1 h3.
Proof. intros [e1 ->] [e2 ->]. exists (e1 ++ e2). now rewrite app_assoc. Qed.

Lemma extends_length (h h' : heap) : extends h h' -> (length h <= length h')%nat.
Proof. intros [e ->]. rewrite length_app. lia. Qed.

Lemma extends_nth (h h' : heap) (r : ref) (o : obj) :
  extends h h' -> nth_error h r = Some o -> nth_error h' r = Some o.
Proof.
  intros [e ->] H. rewrite nth_error_app1; [exact H | ].
  apply nth_error_Some. congruence.
Qed.

Lemma extends_nth_old (h h' : heap) (r : ref) :
  extends h h' -> (r < length h)%nat -> nth_error h' r = nth_error h r.
Proof. intros [e ->] H. now apply nth_error_app1. Qed.

(** *** Computations that leave the first [n] cells alone *)

Lemma keeps_ret {A : Type} (n : nat) (a : A) : keeps n (ret a).
Proof. intros h _. cbn. split; [lia | reflexivity]. Qed.

Lemma keeps_raise {A : Type} (n : nat) (e : exn) : keeps n (@raise A e).
Proof. intros h _. cbn. split; [lia | reflexivity]. Qed.

Lemma keeps_lift {A : Type} (n : nat) (x : result A) : keeps n (lift x).
Proof. intros h _. cbn. split; [lia | reflexivity]. Qed.

Lemma keeps_get (n : nat) (r : ref) : keeps n (get r).
Proof.
  intros h _. unfold get. destruct (nth_error h r); cbn; split; (lia || reflexivity).
Qed.

Lemma keeps_bind {A B : Type} (n : nat) (m : M A) (k : A -> M B) :
  keeps n m -> (forall a, keeps n (k a)) -> keeps n (mbind m k).
Proof.
  intros Hm Hk h Hn. unfold mbind.
  destruct (Hm h Hn) as [L F]. destruct (m h) as [[a | e] h1]; cbn [snd] in *.
  - destruct (Hk a h1 ltac:(lia)) as [L' F']. split; [lia | congruence].
  - split; assumption.
Qed.

Lemma keeps_new_bind {B : Type} (n : nat) (o : obj) (k : ref -> M B) :
  (forall a, (n <= a)%nat -> keeps n (k a)) -> keeps n (mbind (new o) k).
Proof.
  intros Hk h Hn. unfold mbind, new.
  destruct (Hk (length h) Hn (h ++ [o])) as [L F].
  { rewrite length_app. lia. }
  rewrite length_app in L. cbn [length] in L. split; [lia | ].
  rewrite F, firstn_app. replace (n - length h)%nat with 0%nat by lia.
  cbn [firstn]. now rewrite app_nil_r.
Qed.

Lemma keeps_new (n : nat) (o : obj) : keeps n (new o).
Proof.
  intros h Hn. unfold new. cbn [snd]. rewrite length_app. split; [lia | ].
  rewrite firstn_app. replace (n - length h)%nat with 0%nat by lia.
  cbn [firstn]. now rewrite app_nil_r.
Qed.

Lemma keeps_get_list (n : nat) (r : ref) : keeps n (get_list r).
Proof.
  apply keeps_bind; [apply keeps_get | ].
  intros []; (apply keeps_ret || apply keeps_raise).
Qed.

Lemma keeps_get_points (n : nat) (r : ref) : keeps n (get_points r).
Proof.
  apply keeps_bind; [apply keeps_get | ].
  intros []; (apply keeps_ret || apply keeps_raise).
Qed.

(** Assigning to a cell beyond the first [n]. *)
Lemma keeps_set (n : nat) (r : ref) (o : obj) : (n <= r)%nat -> keeps n (set r o).
Proof.
  intros Hr h Hn. unfold set. destruct (Nat.ltb_spec r (length h)) as [L | L]; cbn [snd].
  - split.
    + rewrite length_app, length_firstn. cbn [length]. rewrite length_skipn. lia.
    + rewrite firstn_app, length_firstn.
      replace (n - Nat.min r (length h))%nat with 0%nat by lia.
      cbn [firstn]. rewrite app_nil_r, firstn_firstn.
      now replace (Nat.min n r) with n by lia.
  - split; [lia | reflexivity].
Qed.

Lemma keeps_append (n : nat) (pts : ref) (p : R * R) :
  (n <= pts)%nat -> keeps n (append pts p).
Proof.
  intros H. apply keeps_bind; [apply keeps_get_points | ].
  intros l. now apply keeps_set.
Qed.

Lemma keeps_extend (n : nat) (pts : ref) (ps : list (R * R)) :
  (n <= pts)%nat -> keeps n (extend pts ps).
Proof.
  intros H. apply keeps_bind; [apply keeps_get_points | ].
  intros l. now apply keeps_set.
Qed.

Lemma keeps_forM {A : Type} (n : nat) (xs : list A) (body : A -> M unit) :
  (forall x, keeps n (body x)) -> keeps n (forM xs body).
Proof.
  intros Hb. induction xs as [ | x xs IH]; cbn [forM].
  - apply keeps_ret.
  - apply keeps_bind; [apply Hb | intros _; exact IH].
Qed.

Lemma keeps_sample_arc_points (n : nat)
  (cx cy r start_deg sweep_deg x1 y1 x2 y2 : R) (k : nat) :
  keeps n (_sample_arc_points cx cy r start_deg sweep_deg x1 y1 x2 y2 k).
Proof.
  unfold _sample_arc_points. apply keeps_new_bind. intros pts Hp.
  apply keeps_bind; [ | intros _; apply keeps_ret].
  apply keeps_forM. intros i. now apply keeps_append.
Qed.

Lemma keeps_sample_edge (n : nat) (pts e : ref) :
  (n <= pts)%nat -> keeps n (sample_edge pts e).
Proof.
  intros Hp. unfold sample_edge. apply keeps_bind; [apply keeps_get | ].
  intros [].
  - apply keeps_bind; [now apply keeps_append | intros _; now apply keeps_append].
  - apply keeps_forM. intros i. now apply keeps_append.
  - apply keeps_bind; [apply keeps_sample_arc_points | ]. intros q.
    apply keeps_bind; [apply keeps_get_points | ]. intros qs.
    now apply keeps_extend.
  - apply keeps_bind; [apply keeps_get_points | ]. intros qs.
    now apply keeps_extend.
  - apply keeps_ret.
  - apply keeps_ret.
  - apply keeps_ret.
  - apply keeps_ret.
Qed.

Lemma keeps_sample_points (n : nat) (es : list ref) : keeps n (_sample_points es).
Proof.
  unfold _sample_points. apply keeps_new_bind. intros pts Hp.
  apply keeps_bind; [ | intros _; apply keeps_ret].
  apply keeps_forM. intros e. now apply keeps_sample_edge.
Qed.

Lemma keeps_extends {A : Type} (m : M A) (h : heap) :
  keeps (length h) m -> extends h (snd (m h)).
Proof.
  intros H. destruct (H h (Nat.le_refl _)) as [L F].
  rewrite firstn_all in F. exists (skipn (length h) (snd (m h))).
  pose proof (firstn_skipn (length h) (snd (m h))) as E.
  rewrite F in E. now symmetry.
Qed.

(** *** Computations that only add cells *)

Lemma spec_ret {A : Type} (a : A) (h : heap) (Q : A -> heap -> Prop) :
  Q a h -> run_spec (ret a) h Q.
Proof. intros H. split; [apply extends_refl | exact H]. Qed.

Lemma spec_raise {A : Type} (e : exn) (h : heap) (Q : A -> heap -> Prop) :
  run_spec (raise e) h Q.
Proof. split; [apply extends_refl | exact I]. Qed.

Lemma spec_lift {A : Type} (x : result A) (h : heap) (Q : A -> heap -> Prop) :
  (forall a, x = Ok a -> Q a h) -> run_spec (lift x) h Q.
Proof.
  intros H. split; [apply extends_refl | ]. cbn.
  destruct x; [now apply H | exact I].
Qed.

Lemma spec_get (r : ref) (h : heap) (Q : obj -> heap -> Prop) :
  (forall o, nth_error h r = Some o -> Q o h) -> run_spec (get r) h Q.
Proof.
  intros H. unfold run_spec, get.
  destruct (nth_error h r) as [o | ]; cbn; (split; [apply extends_refl | ]);
    [now apply H | exact I].
Qed.

Lemma spec_new (o : obj) (h : heap) (Q : ref -> heap -> Prop) :
  Q (length h) (h ++ [o]) -> run_spec (new o) h Q.
Proof. intros H. split; [now exists [o] | exact H]. Qed.

Lemma spec_bind {A B : Type} (m : M A) (k : A -> M B) (h : heap)
  (Q1 : A -> heap -> Prop) (Q2 : B -> heap -> Prop) :
  run_spec m h Q1 ->
  (forall a h1, extends h h1 -> Q1 a h1 -> run_spec (k a) h1 Q2) ->
  run_spec (mbind m k) h Q2.
Proof.
  intros [E1 P1] Hk. unfold run_spec, mbind.
  destruct (m h) as [[a | e] h1]; cbn [fst snd] in *.
  - destruct (Hk a h1 E1 P1) as [E2 P2].
    split; [now apply extends_trans with h1 | exact P2].
  - split; [exact E1 | exact I].
Qed.

Lemma spec_weaken {A : Type} (m : M A) (h : heap) (Q Q' : A -> heap -> Prop) :
  run_spec m h Q -> (forall a h', extends h h' -> Q a h' -> Q' a h') ->
  run_spec m h Q'.
Proof.
  intros [E P] HQ. split; [exact E | ].
  destruct (fst (m h)); [now apply HQ | exact I].
Qed.

Lemma spec_get_list (r : ref) (h : heap) (Q : list ref -> heap -> Prop) :
  (forall items, nth_error h r = Some (OList items) -> Q items h) ->
  run_spec (get_list r) h Q.
Proof.
  intros H. unfold get_list.
  apply spec_bind with (Q1 := fun o h1 => h1 = h /\ nth_error h r = Some o).
  - apply spec_get. intros o Ho. now split.
  - intros o h1 _ [-> Ho]. destruct o; try apply spec_raise.
    apply spec_ret. now apply H.
Qed.

Lemma spec_get_points (r : ref) (h : heap) (Q : list (R * R) -> heap -> Prop) :
  (forall pts, nth_error h r = Some (OPoints pts) -> Q pts h) ->
  run_spec (get_points r) h Q.
Proof.
  intros H. unfold get_points.
  apply spec_bind with (Q1 := fun o h1 => h1 = h /\ nth_error h r = Some o).
  - apply spec_get. intros o Ho. now split.
  - intros o h1 _ [-> Ho]. destruct o; try apply spec_raise.
    apply spec_ret. now apply H.
Qed.

Lemma spec_sample_points (es : list ref) (h : heap) :
  run_spec (_sample_points es) h (fun _ _ => True).
Proof.
  split.
  - apply keeps_extends, keeps_sample_points.
  - now destruct (fst (_sample_points es h)).
Qed.

(** *** New objects *)

Lemma copied_stable : stable copied.
Proof.
  intros n h h' r E. unfold copied.
  destruct (nth_error h r) as [o | ] eqn:Ho; [ | contradiction].
  rewrite (extends_nth _ _ _ _ E Ho).
  destruct o; try tauto. pose proof (extends_length _ _ E). intuition lia.
Qed.

Lemma copied_downward : downward copied.
Proof.
  intros n n' h r L. unfold copied. destruct (nth_error h r) as [[] | ]; intuition lia.
Qed.

Lemma list_of_stable (P : nat -> heap -> ref -> Prop) :
  stable P -> stable (list_of P).
Proof.
  intros HP n h h' l E (L & items & Hl & Hi). split; [exact L | ].
  exists items. split.
  - now apply extends_nth with h.
  - eapply Forall_impl; [ | exact Hi]. intros r. now apply HP.
Qed.

Lemma list_of_downward (P : nat -> heap -> ref -> Prop) :
  downward P -> downward (list_of P).
Proof.
  intros HP n n' h l L (L' & items & Hl & Hi). split; [lia | ].
  exists items. split; [exact Hl | ].
  eapply Forall_impl; [ | exact Hi]. intros r. now apply HP.
Qed.

Lemma nth_error_last (h : heap) (o : obj) : nth_error (h ++ [o]) (length h) = Some o.
Proof. rewrite nth_error_app2 by lia. now rewrite Nat.sub_diag. Qed.

(** A list comprehension whose function returns copies. *)
Lemma spec_mapM {A : Type} (f : A -> M ref) (P : nat -> heap -> ref -> Prop) :
  stable P -> downward P ->
  (forall x h1, run_spec (f x) h1 (fun y h2 => P (length h1) h2 y)) ->
  forall xs h, run_spec (mapM f xs) h (fun ys h' => Forall (P (length h) h') ys).
Proof.
  intros St Mo Hf. induction xs as [ | x xs IH]; intros h; cbn [mapM].
  - apply spec_ret. constructor.
  - eapply spec_bind; [apply Hf | ]. intros y h1 E1 Py. cbv beta in Py.
    eapply spec_bind; [apply IH | ]. intros ys h2 E2 Pys. cbv beta in Pys.
    apply spec_ret. constructor.
    + now apply St with h1.
    + eapply Forall_impl; [ | exact Pys]. intros b. apply Mo.
      now apply extends_length.
Qed.

Lemma spec_comprehension (f : ref -> M ref) (P : nat -> heap -> ref -> Prop) :
  stable P -> downward P ->
  (forall x h1, run_spec (f x) h1 (fun y h2 => P (length h1) h2 y)) ->
  forall xs h,
    run_spec (comprehension f xs) h (fun l h' => list_of P (length h) h' l).
Proof.
  intros St Mo Hf xs h. unfold comprehension.
  apply spec_bind with (Q1 := fun ys h' => Forall (P (length h) h') ys);
    [apply spec_mapM; assumption | ].
  intros ys h1 E1 Hys. apply spec_new.
  split; [now apply extends_length | ]. exists ys. split.
  - apply nth_error_last.
  - eapply Forall_impl; [ | exact Hys]. intros r. apply St. now exists [OList ys].
Qed.

Lemma spec_comprehension2 (f : ref -> M ref) (P : nat -> heap -> ref -> Prop) :
  stable P -> downward P ->
  (forall x h1, run_spec (f x) h1 (fun y h2 => P (length h1) h2 y)) ->
  forall ws h,
    run_spec (comprehension2 f ws) h
             (fun l h' => list_of (list_of P) (length h) h' l).
Proof.
  intros St Mo Hf ws h. unfold comprehension2.
  apply spec_comprehension.
  - now apply list_of_stable.
  - now apply list_of_downward.
  - intros wire h1.
    apply spec_bind with (Q1 := fun _ h2 => h2 = h1).
    + apply spec_get_list. reflexivity.
    + intros es h2 _ ->. now apply spec_comprehension.
Qed.

Lemma spec_rotate_edge (cos_a sin_a : R) (e : ref) (h : heap) :
  run_spec (_rotate_edge cos_a sin_a e) h (fun r h' => copied (length h) h' r).
Proof.
  unfold _rotate_edge.
  apply spec_bind with (Q1 := fun o h1 => h1 = h /\ nth_error h e = Some o).
  { apply spec_get. intros o Ho. now split. }
  intros o h1 _ [-> Ho].
  destruct o; cbv [optimizer._rotate_point];
    try (apply spec_ret; unfold copied; rewrite Ho; exact I);
    try (apply spec_new; unfold copied; rewrite nth_error_last; lia).
  apply spec_bind with (Q1 := fun _ h1 => h1 = h).
  { apply spec_get_points. reflexivity. }
  intros pts h1 _ ->.
  eapply spec_bind with (Q1 := fun r h1 => r = length h /\ length h1 = S (length h)).
  { apply spec_new. rewrite length_app. cbn. split; lia. }
  intros r h1 _ [-> L]. apply spec_new.
  unfold copied. rewrite nth_error_last, length_app. cbn. lia.
Qed.

Lemma spec_translate_edge (dx dy : R) (e : ref) (h : heap) :
  run_spec (_translate_edge dx dy e) h (fun r h' => copied (length h) h' r).
Proof.
  unfold _translate_edge.
  apply spec_bind with (Q1 := fun o h1 => h1 = h /\ nth_error h e = Some o).
  { apply spec_get. intros o Ho. now split. }
  intros o h1 _ [-> Ho].
  destruct o;
    try (apply spec_ret; unfold copied; rewrite Ho; exact I);
    try (apply spec_new; unfold copied; rewrite nth_error_last; lia).
  apply spec_bind with (Q1 := fun _ h1 => h1 = h).
  { apply spec_get_points. reflexivity. }
  intros pts h1 _ ->.
  eapply spec_bind with (Q1 := fun r h1 => r = length h /\ length h1 = S (length h)).
  { apply spec_new. rewrite length_app. cbn. split; lia. }
  intros r h1 _ [-> L]. apply spec_new.
  unfold copied. rewrite nth_error_last, length_app. cbn. lia.
Qed.

Lemma spec_any {A : Type} (m : M A) (h : heap) (Q : A -> heap -> Prop) :
  run_spec m h Q -> run_spec m h (fun _ _ => True).
Proof. intros H. eapply spec_weaken; [exact H | trivial]. Qed.

Ltac step_any lem :=
  apply spec_bind with (Q1 := fun _ _ => True);
  [ eapply spec_any; lem | intros ? ? ? _ ].

(** The last four statements of [optimize_rotation]. *)
Lemma spec_translate_and_pack (n : nat) (h : heap) (res : list ref)
  (rotated_wires : ref) (dx dy bbox_w bbox_h rotation_deg thickness_inches : R) :
  (n <= length h)%nat ->
  run_spec
    (translated_edges <~ comprehension (_translate_edge dx dy) res ;;
     rws <~ get_list rotated_wires ;;
     translated_wires <~ comprehension2 (_translate_edge dx dy) rws ;;
     new (OOptimizedProfile translated_edges translated_wires
                            bbox_w bbox_h rotation_deg thickness_inches))
    h (fun r h' => copied_profile n h' r).
Proof.
  intros Hn.
  apply spec_bind with (Q1 := fun l h' => copied_list (length h) h' l).
  { apply spec_comprehension;
      [apply copied_stable | apply copied_downward | intros; apply spec_translate_edge]. }
  intros te hA EA Hte.
  apply spec_bind with (Q1 := fun _ h' => h' = hA).
  { apply spec_get_list. reflexivity. }
  intros rws hB _ ->.
  apply spec_bind with (Q1 := fun l h' => copied_lists (length hA) h' l).
  { apply spec_comprehension2;
      [apply copied_stable | apply copied_downward | intros; apply spec_translate_edge]. }
  intros tw hC EC Htw.
  apply spec_new.
  pose proof (extends_length _ _ EA). pose proof (extends_length _ _ EC).
  assert (EL : extends hC (hC ++ [OOptimizedProfile te tw bbox_w bbox_h
                                    rotation_deg thickness_inches]))
    by (now eexists).
  split; [lia | ]. do 6 eexists. split; [apply nth_error_last | ]. split.
  - apply (list_of_stable _ copied_stable) with hA;
      [now apply extends_trans with hC | ].
    apply (list_of_downward _ copied_downward) with (length h); [lia | exact Hte].
  - apply (list_of_stable _ (list_of_stable _ copied_stable)) with hC; [exact EL | ].
    apply (list_of_downward _ (list_of_downward _ copied_downward)) with (length hA);
      [lia | exact Htw].
Qed.

Lemma spec_optimize_rotation
  (mrr : list (R * R) -> option ((R * R) * (R * R))) (profile : ref) (h : heap) :
  run_spec (optimize_rotation mrr profile) h
           (fun r h' => copied_profile (length h) h' r).
Proof.
  unfold optimize_rotation.
  step_any ltac:(apply spec_get; intros; exact I).
  match goal with o : obj |- _ => destruct o; try apply spec_raise end.
  step_any ltac:(apply spec_get_list; intros; exact I).
  step_any ltac:(apply spec_sample_points).
  step_any ltac:(apply spec_get_points; intros; exact I).
  step_any ltac:(apply spec_lift; intros; exact I).
  step_any ltac:(apply spec_comprehension;
                 [apply copied_stable | apply copied_downward | intros; apply spec_rotate_edge]).
  step_any ltac:(apply spec_get_list; intros; exact I).
  step_any ltac:(apply spec_comprehension2;
                 [apply copied_stable | apply copied_downward | intros; apply spec_rotate_edge]).
  step_any ltac:(apply spec_get_list; intros; exact I).
  step_any ltac:(apply spec_sample_points).
  step_any ltac:(apply spec_get_points; intros; exact I).
  do 4 step_any ltac:(apply spec_lift; intros; exact I).
  apply spec_translate_and_pack.
  repeat match goal with
         | H : extends _ _ |- _ => apply extends_length in H
         end.
  lia.
Qed.

(** Running [optimize_rotation] leaves every cell of the store as it was. *)
Lemma optimize_rotation_frame
  (mrr : list (R * R) -> option ((R * R) * (R * R))) (profile : ref) (h : heap) :
  forall r o, nth_error h r = Some o ->
              nth_error (snd (optimize_rotation mrr profile h)) r = Some o.
Proof.
  intros r o. apply extends_nth. apply spec_optimize_rotation.
Qed.

(** *** The store against the functions on values *)

Lemma read_edge_stable (h h' : heap) (r : ref) (e : edge) :
  extends h h' -> read_edge h r = Some e -> read_edge h' r = Some e.
Proof.
  intros E. unfold read_edge.
  destruct (nth_error h r) as [o | ] eqn:Ho; [ | discriminate].
  rewrite (extends_nth _ _ _ _ E Ho). destruct o; try tauto.
  destruct (nth_error h points) as [q | ] eqn:Hq; [ | discriminate].
  now rewrite (extends_nth _ _ _ _ E Hq).
Qed.

Lemma reads_edges_stable (h h' : heap) (refs : list ref) (es : list edge) :
  extends h h' -> reads_edges h refs es -> reads_edges h' refs es.
Proof.
  intros E H. eapply Forall2_impl; [ | exact H].
  intros r e. now apply read_edge_stable.
Qed.

Lemma reads_list_stable (h h' : heap) (l : ref) (es : list edge) :
  extends h h' -> reads_list h l es -> reads_list h' l es.
Proof.
  intros E (refs & Hl & Hr). exists refs. split.
  - now apply extends_nth with h.
  - now apply reads_edges_stable with h.
Qed.

Lemma reads_lists_stable (h h' : heap) (refs : list ref) (ws : list (list edge)) :
  extends h h' -> reads_lists h refs ws -> reads_lists h' refs ws.
Proof.
  intros E H. eapply Forall2_impl; [ | exact H].
  intros r e. now apply reads_list_stable.
Qed.

Lemma reads_wires_stable (h h' : heap) (w : ref) (ws : list (list edge)) :
  extends h h' -> reads_wires h w ws -> reads_wires h' w ws.
Proof.
  intros E (refs & Hl & Hr). exists refs. split.
  - now apply extends_nth with h.
  - now apply reads_lists_stable with h.
Qed.

Lemma reads_profile_stable (h h' : heap) (r : ref) (p : ProfileResult) :
  extends h h' -> reads_profile h r p -> reads_profile h' r p.
Proof.
  intros E (e & w & Hr & He & Hw). exists e, w. repeat split.
  - now apply extends_nth with h.
  - now apply reads_list_stable with h.
  - now apply reads_wires_stable with h.
Qed.

Lemma returns_ret {A : Type} (a : A) (h : heap) (Q : A -> heap -> Prop) :
  Q a h -> returns (ret a) h Q.
Proof. intros H. exists a, h. repeat split; [apply extends_refl | exact H]. Qed.

Lemma returns_lift {A : Type} (a : A) (h : heap) (Q : A -> heap -> Prop) :
  Q a h -> returns (lift (Ok a)) h Q.
Proof. intros H. exists a, h. repeat split; [apply extends_refl | exact H]. Qed.

Lemma returns_new (o : obj) (h : heap) (Q : ref -> heap -> Prop) :
  Q (length h) (h ++ [o]) -> returns (new o) h Q.
Proof. intros H. exists (length h), (h ++ [o]). repeat split; [now exists [o] | exact H]. Qed.

Lemma returns_get (r : ref) (o : obj) (h : heap) (Q : obj -> heap -> Prop) :
  nth_error h r = Some o -> Q o h -> returns (get r) h Q.
Proof.
  intros Hr H. exists o, h. unfold get. rewrite Hr.
  repeat split; [apply extends_refl | exact H].
Qed.

Lemma returns_bind {A B : Type} (m : M A) (k : A -> M B) (h : heap)
  (Q1 : A -> heap -> Prop) (Q2 : B -> heap -> Prop) :
  returns m h Q1 ->
  (forall a h1, extends h h1 -> Q1 a h1 -> returns (k a) h1 Q2) ->
  returns (mbind m k) h Q2.
Proof.
  intros (a & h1 & Hm & E1 & P1) Hk.
  destruct (Hk a h1 E1 P1) as (b & h2 & Hb & E2 & P2).
  exists b, h2. unfold mbind. rewrite Hm. repeat split; try assumption.
  now apply extends_trans with h1.
Qed.

Lemma returns_get_list (r : ref) (items : list ref) (h : heap)
  (Q : list ref -> heap -> Prop) :
  nth_error h r = Some (OList items) -> Q items h -> returns (get_list r) h Q.
Proof.
  intros Hr H. exists items, h. unfold get_list, mbind, get. rewrite Hr.
  repeat split; [apply extends_refl | exact H].
Qed.

Lemma returns_get_points (r : ref) (pts : list (R * R)) (h : heap)
  (Q : list (R * R) -> heap -> Prop) :
  nth_error h r = Some (OPoints pts) -> Q pts h -> returns (get_points r) h Q.
Proof.
  intros Hr H. exists pts, h. unfold get_points, mbind, get. rewrite Hr.
  repeat split; [apply extends_refl | exact H].
Qed.

Lemma returns_weaken {A : Type} (m : M A) (h : heap) (Q Q' : A -> heap -> Prop) :
  returns m h Q -> (forall a h', extends h h' -> Q a h' -> Q' a h') ->
  returns m h Q'.
Proof.
  intros (a & h' & Hm & E & P) HQ. exists a, h'. repeat split; auto.
Qed.

(** *** Sampling: the list [pts] is filled in place *)

Lemma set_run (r : ref) (o : obj) (h : heap) :
  (r < length h)%nat -> set r o h = (Ok tt, upd h r o).
Proof.
  intros L. unfold set. destruct (Nat.ltb_spec r (length h)); [reflexivity | lia].
Qed.

Lemma length_upd (h : heap) (r : ref) (o : obj) :
  (r < length h)%nat -> length (upd h r o) = length h.
Proof.
  intros L. unfold upd. rewrite length_app, length_firstn. cbn [length].
  rewrite length_skipn. lia.
Qed.

Lemma nth_upd_same (h : heap) (r : ref) (o : obj) :
  (r < length h)%nat -> nth_error (upd h r o) r = Some o.
Proof.
  intros L. unfold upd. rewrite nth_error_app2; rewrite length_firstn; [ | lia].
  replace (r - Nat.min r (length h))%nat with 0%nat by lia. reflexivity.
Qed.

Lemma nth_upd_below (h : heap) (r r' : ref) (o : obj) :
  (r' < r)%nat -> (r < length h)%nat -> nth_error (upd h r o) r' = nth_error h r'.
Proof.
  intros L1 L2. unfold upd.
  rewrite nth_error_app1 by (rewrite length_firstn; lia).
  rewrite nth_error_firstn.
  destruct (Nat.ltb_spec r' r); [reflexivity | lia].
Qed.

Lemma extends_upd (h0 h : heap) (r : ref) (o : obj) :
  extends h0 h -> (length h0 <= r)%nat -> extends h0 (upd h r o).
Proof.
  intros [ext ->] L. unfold upd.
  rewrite firstn_app. rewrite firstn_all2 by lia.
  exists (firstn (r - length h0) ext ++ o :: skipn (S r) (h0 ++ ext)).
  now rewrite app_assoc.
Qed.

Lemma append_sampling (h0 h : heap) (pts : ref) (acc : list (R * R)) (p : R * R) :
  sampling h0 pts acc h ->
  exists h', append pts p h = (Ok tt, h') /\ sampling h0 pts (acc ++ [p]) h'
             /\ length h' = length h.
Proof.
  intros (E & L & Hp).
  assert (Lp : (pts < length h)%nat) by (apply nth_error_Some; congruence).
  exists (upd h pts (OPoints (acc ++ [p]))).
  unfold append, mbind, get_points, mbind, get. rewrite Hp. cbn [ret].
  rewrite set_run by exact Lp. split; [reflexivity | ]. split.
  - repeat split; [now apply extends_upd | exact L | now apply nth_upd_same].
  - now apply length_upd.
Qed.

Lemma extend_sampling (h0 h : heap) (pts : ref) (acc ps : list (R * R)) :
  sampling h0 pts acc h ->
  exists h', extend pts ps h = (Ok tt, h') /\ sampling h0 pts (acc ++ ps) h'
             /\ length h' = length h.
Proof.
  intros (E & L & Hp).
  assert (Lp : (pts < length h)%nat) by (apply nth_error_Some; congruence).
  exists (upd h pts (OPoints (acc ++ ps))).
  unfold extend, mbind, get_points, mbind, get. rewrite Hp. cbn [ret].
  rewrite set_run by exact Lp. split; [reflexivity | ]. split.
  - repeat split; [now apply extends_upd | exact L | now apply nth_upd_same].
  - now apply length_upd.
Qed.

Lemma forM_append_sampling {A : Type} (f : A -> R * R) (xs : list A)
  (h0 h : heap) (pts : ref) (acc : list (R * R)) :
  sampling h0 pts acc h ->
  exists h', forM xs (fun i => append pts (f i)) h = (Ok tt, h')
             /\ sampling h0 pts (acc ++ map f xs) h'
             /\ length h' = length h.
Proof.
  revert h acc. induction xs as [ | x xs IH]; intros h acc HS; cbn [forM map].
  - exists h. rewrite app_nil_r. split; [reflexivity | split; [exact HS | reflexivity]].
  - destruct (append_sampling _ _ _ _ (f x) HS) as (h1 & R1 & S1 & L1).
    destruct (IH h1 _ S1) as (h2 & R2 & S2 & L2).
    exists h2. unfold mbind. rewrite R1, R2. rewrite <- app_assoc in S2.
    split; [reflexivity | split; [exact S2 | congruence]].
Qed.

Lemma sample_arc_points_run
  (cx cy r start_deg sweep_deg x1 y1 x2 y2 : R) (k : nat) (h : heap) :
  exists h',
    _sample_arc_points cx cy r start_deg sweep_deg x1 y1 x2 y2 k h
    = (Ok (length h), h')
    /\ sampling h (length h)
         (optimizer._sample_arc_points cx cy r start_deg sweep_deg x1 y1 x2 y2 k) h'.
Proof.
  unfold _sample_arc_points, optimizer._sample_arc_points.
  unfold mbind at 1. unfold new at 1. cbv zeta.
  assert (S0 : sampling h (length h) [(x1, y1); (x2, y2)]
                        (h ++ [OPoints [(x1, y1); (x2, y2)]])).
  { split; [now eexists | ]. split; [lia | apply nth_error_last]. }
  match goal with
  | |- context [forM ?xs (fun i => append _ (@?f i))] =>
      destruct (forM_append_sampling f xs _ _ _ _ S0) as (h' & Hrun & S1 & _)
  end.
  exists h'. unfold mbind. rewrite Hrun. split; [reflexivity | exact S1].
Qed.

Lemma sample_edge_sampling (h0 h : heap) (pts e : ref) (ed : edge)
  (acc : list (R * R)) :
  read_edge h0 e = Some ed -> sampling h0 pts acc h ->
  exists h', sample_edge pts e h = (Ok tt, h')
             /\ sampling h0 pts (acc ++ optimizer.edge_points ed) h'.
Proof.
  intros Hr HS. pose proof HS as (E & L & Hp).
  apply (read_edge_stable _ _ _ _ E) in Hr. unfold read_edge in Hr.
  unfold sample_edge, mbind at 1, get.
  destruct (nth_error h e) as [o | ] eqn:Ho; [ | discriminate].
  destruct o; try discriminate.
  - injection Hr as <-. cbn [optimizer.edge_points].
    destruct (append_sampling _ _ _ _ (x1, y1) HS) as (h1 & R1 & S1 & _).
    destruct (append_sampling _ _ _ _ (x2, y2) S1) as (h2 & R2 & S2 & _).
    exists h2. unfold mbind. rewrite R1, R2. rewrite <- app_assoc in S2.
    split; [reflexivity | exact S2].
  - injection Hr as <-. cbn [optimizer.edge_points].
    match goal with
    | |- context [forM ?xs (fun i => append _ (@?f i))] =>
        destruct (forM_append_sampling f xs _ _ _ _ HS) as (h' & Hrun & S1 & _)
    end.
    exists h'. split; [exact Hrun | exact S1].
  - injection Hr as <-. cbn [optimizer.edge_points].
    destruct (sample_arc_points_run cx cy r start_deg sweep_deg x1 y1 x2 y2 64 h)
      as (h1 & R1 & (E1 & _ & Hq)).
    assert (S1 : sampling h0 pts acc h1).
    { split; [now apply extends_trans with h | ].
      split; [exact L | now apply extends_nth with h]. }
    destruct (extend_sampling _ _ _ _
                (optimizer._sample_arc_points cx cy r start_deg sweep_deg x1 y1 x2 y2 64)
                S1) as (h2 & R2 & S2 & _).
    exists h2. unfold mbind at 1. rewrite R1.
    unfold mbind at 1, get_points, mbind at 1, get. rewrite Hq. cbn [ret].
    split; [exact R2 | exact S2].
  - destruct (nth_error h points) as [q | ] eqn:Hq; [ | discriminate].
    destruct q; try discriminate. injection Hr as <-. cbn [optimizer.edge_points].
    destruct (extend_sampling _ _ _ _ pts0 HS) as (h2 & R2 & S2 & _).
    exists h2. unfold mbind at 1, get_points, mbind at 1, get. rewrite Hq. cbn [ret].
    split; [exact R2 | exact S2].
Qed.

Lemma forM_sample_sampling (h0 : heap) (pts : ref) (refs : list ref) (es : list edge) :
  reads_edges h0 refs es ->
  forall h acc,
    sampling h0 pts acc h ->
    exists h', forM refs (sample_edge pts) h = (Ok tt, h')
               /\ sampling h0 pts (acc ++ optimizer._sample_points es) h'.
Proof.
  induction 1 as [ | r e refs es Hr _ IH]; intros h acc HS; cbn [forM].
  - exists h. cbn. rewrite app_nil_r. split; [reflexivity | exact HS].
  - destruct (sample_edge_sampling _ _ _ _ _ _ Hr HS) as (h1 & R1 & S1).
    destruct (IH _ _ S1) as (h2 & R2 & S2).
    exists h2. unfold mbind. rewrite R1. split; [exact R2 | ].
    unfold optimizer._sample_points in *. cbn [flat_map].
    now rewrite app_assoc.
Qed.

Lemma returns_sample_points (h : heap) (refs : list ref) (es : list edge) :
  reads_edges h refs es ->
  returns (_sample_points refs) h
          (fun p h' => nth_error h' p = Some (OPoints (optimizer._sample_points es))).
Proof.
  intros Hr. unfold _sample_points, mbind at 1, new.
  assert (S0 : sampling h (length h) [] (h ++ [OPoints []])).
  { split; [now eexists | ]. split; [lia | apply nth_error_last]. }
  assert (Hr' : reads_edges h refs es) by exact Hr.
  destruct (forM_sample_sampling h (length h) refs es Hr' _ _ S0)
    as (h' & Hrun & (E & _ & Hp)).
  exists (length h), h'. unfold mbind. rewrite Hrun. cbn [ret app] in *.
  split; [reflexivity | split; [exact E | exact Hp]].
Qed.

(** *** Rotation and translation build the rotated and translated values *)

Lemma read_new_prim (h : heap) (o : obj) (e : edge) :
  read_edge (h ++ [o]) (length h) = Some e <->
  match o with
  | OLine2D x1 y1 x2 y2 => e = Line2D x1 y1 x2 y2
  | OCircle2D cx cy r => e = Circle2D cx cy r
  | OArc2D cx cy r s w x1 y1 x2 y2 => e = Arc2D cx cy r s w x1 y1 x2 y2
  | OPolyline2D p =>
      match nth_error (h ++ [o]) p with
      | Some (OPoints pts) => e = Polyline2D pts
      | _ => False
      end
  | _ => False
  end.
Proof.
  unfold read_edge. rewrite nth_error_last.
  destruct o; try (split; [intros H; now injection H | now intros ->]);
    try (split; [discriminate | contradiction]).
  destruct (nth_error (h ++ [OPolyline2D points]) points) as [[] | ];
    try (split; [discriminate | contradiction]).
  split; [intros H; now injection H | now intros ->].
Qed.

Lemma returns_new_polyline (h : heap) (pts : list (R * R)) :
  returns (new_pts <~ new (OPoints pts) ;; new (OPolyline2D new_pts)) h
          (fun r h' => read_edge h' r = Some (Polyline2D pts)).
Proof.
  exists (S (length h)), ((h ++ [OPoints pts]) ++ [OPolyline2D (length h)]).
  unfold mbind, new. rewrite length_app. cbn [length].
  replace (length h + 1)%nat with (S (length h)) by lia.
  split; [reflexivity | ]. split.
  - exists [OPoints pts; OPolyline2D (length h)]. now rewrite <- app_assoc.
  - replace (S (length h)) with (length (h ++ [OPoints pts]))
      by (rewrite length_app; cbn; lia).
    apply read_new_prim.
    rewrite nth_error_app1 by (rewrite length_app; cbn; lia).
    now rewrite nth_error_last.
Qed.

Lemma returns_rotate_edge (cos_a sin_a : R) (h : heap) (e : ref) (ed : edge) :
  read_edge h e = Some ed ->
  returns (_rotate_edge cos_a sin_a e) h
          (fun r h' => read_edge h' r = Some (optimizer._rotate_edge ed cos_a sin_a)).
Proof.
  unfold read_edge. intros Hr.
  destruct (nth_error h e) as [o | ] eqn:Ho; [ | discriminate].
  unfold _rotate_edge.
  apply returns_bind with (Q1 := fun o' h1 => o' = o /\ h1 = h).
  { now apply returns_get with o. }
  intros o' h1 _ [-> ->].
  destruct o; try discriminate.
  - injection Hr as <-. cbv [optimizer._rotate_point optimizer._rotate_edge].
    apply returns_new. now apply read_new_prim.
  - injection Hr as <-. cbv [optimizer._rotate_point optimizer._rotate_edge].
    apply returns_new. now apply read_new_prim.
  - injection Hr as <-. cbv [optimizer._rotate_point optimizer._rotate_edge].
    apply returns_new. now apply read_new_prim.
  - destruct (nth_error h points) as [q | ] eqn:Hq; [ | discriminate].
    destruct q; try discriminate. injection Hr as <-.
    apply returns_bind with (Q1 := fun ps h1 => ps = pts /\ h1 = h).
    { now apply returns_get_points with pts. }
    intros ps h1 _ [-> ->]. cbn [optimizer._rotate_edge].
    apply returns_new_polyline.
Qed.

Lemma returns_translate_edge (dx dy : R) (h : heap) (e : ref) (ed : edge) :
  read_edge h e = Some ed ->
  returns (_translate_edge dx dy e) h
          (fun r h' => read_edge h' r = Some (optimizer._translate_edge ed dx dy)).
Proof.
  unfold read_edge. intros Hr.
  destruct (nth_error h e) as [o | ] eqn:Ho; [ | discriminate].
  unfold _translate_edge.
  apply returns_bind with (Q1 := fun o' h1 => o' = o /\ h1 = h).
  { now apply returns_get with o. }
  intros o' h1 _ [-> ->].
  destruct o; try discriminate.
  - injection Hr as <-. apply returns_new. now apply read_new_prim.
  - injection Hr as <-. apply returns_new. now apply read_new_prim.
  - injection Hr as <-. apply returns_new. now apply read_new_prim.
  - destruct (nth_error h points) as [q | ] eqn:Hq; [ | discriminate].
    destruct q; try discriminate. injection Hr as <-.
    apply returns_bind with (Q1 := fun ps h1 => ps = pts /\ h1 = h).
    { now apply returns_get_points with pts. }
    intros ps h1 _ [-> ->]. cbn [optimizer._translate_edge].
    apply returns_new_polyline.
Qed.

Section comprehensions.

Context {X Y : Type}.
Variable P : heap -> ref -> X -> Prop.
Variable Q : heap -> ref -> Y -> Prop.
Variable g : X -> Y.
Variable f : ref -> M ref.

Hypothesis P_stable : forall h h' r x, extends h h' -> P h r x -> P h' r x.
Hypothesis Q_stable : forall h h' r y, extends h h' -> Q h r y -> Q h' r y.
Hypothesis f_returns :
  forall h r x, P h r x -> returns (f r) h (fun r' h' => Q h' r' (g x)).

Lemma returns_mapM (refs : list ref) (xs : list X) (h : heap) :
  Forall2 (P h) refs xs ->
  returns (mapM f refs) h (fun refs' h' => Forall2 (Q h') refs' (map g xs)).
Proof.
  intros H. revert h H. revert xs.
  induction refs as [ | r refs IH]; intros xs h H; inversion H; subst; cbn [mapM map].
  - apply returns_ret. constructor.
  - apply returns_bind with (Q1 := fun r' h' => Q h' r' (g y)).
    { now apply f_returns. }
    intros r' h1 E1 Hq.
    apply returns_bind with (Q1 := fun refs' h' => Forall2 (Q h') refs' (map g l')).
    { apply IH. eapply Forall2_impl; [ | eassumption].
      intros a b. now apply P_stable. }
    intros refs' h2 E2 Hqs. apply returns_ret. constructor.
    + now apply Q_stable with h1.
    + exact Hqs.
Qed.

Lemma returns_comprehension (refs : list ref) (xs : list X) (h : heap) :
  Forall2 (P h) refs xs ->
  returns (comprehension f refs) h
          (fun l h' => exists refs', nth_error h' l = Some (OList refs')
                                     /\ Forall2 (Q h') refs' (map g xs)).
Proof.
  intros H. unfold comprehension.
  apply returns_bind with (Q1 := fun refs' h' => Forall2 (Q h') refs' (map g xs)).
  { now apply returns_mapM. }
  intros refs' h1 E1 Hq. apply returns_new. exists refs'. split.
  - apply nth_error_last.
  - eapply Forall2_impl; [ | exact Hq]. intros a b. apply Q_stable. now eexists.
Qed.

End comprehensions.

Lemma returns_edges (f : ref -> M ref) (g : edge -> edge) :
  (forall h r e, read_edge h r = Some e ->
                 returns (f r) h (fun r' h' => read_edge h' r' = Some (g e))) ->
  forall refs es h,
    reads_edges h refs es ->
    returns (comprehension f refs) h (fun l h' => reads_list h' l (map g es)).
Proof.
  intros Hf refs es h H.
  apply (returns_comprehension (fun h r e => read_edge h r = Some e)
                               (fun h r e => read_edge h r = Some e) g f).
  - intros; now apply read_edge_stable with h0.
  - intros; now apply read_edge_stable with h0.
  - exact Hf.
  - exact H.
Qed.

Lemma returns_wires (f : ref -> M ref) (g : edge -> edge) :
  (forall h r e, read_edge h r = Some e ->
                 returns (f r) h (fun r' h' => read_edge h' r' = Some (g e))) ->
  forall refs ws h,
    reads_lists h refs ws ->
    returns (comprehension2 f refs) h
            (fun l h' => reads_wires h' l (map (map g) ws)).
Proof.
  intros Hf refs ws h H. unfold comprehension2.
  apply (returns_comprehension reads_list reads_list (map g)).
  - intros; now apply reads_list_stable with h0.
  - intros; now apply reads_list_stable with h0.
  - intros h1 wire es (items & Hw & Hi).
    apply returns_bind with (Q1 := fun its h2 => its = items /\ h2 = h1).
    { now apply returns_get_list with items. }
    intros its h2 _ [-> ->]. now apply returns_edges.
  - exact H.
Qed.

Lemma mbind_ok {A B : Type} (m : M A) (k : A -> M B) (h h1 : heap) (a : A) :
  m h = (Ok a, h1) -> mbind m k h = k a h1.
Proof. intros H. unfold mbind. now rewrite H. Qed.

Lemma get_run (r : ref) (o : obj) (h : heap) :
  nth_error h r = Some o -> get r h = (Ok o, h).
Proof. intros H. unfold get. now rewrite H. Qed.

Lemma get_list_run (r : ref) (items : list ref) (h : heap) :
  nth_error h r = Some (OList items) -> get_list r h = (Ok items, h).
Proof. intros H. unfold get_list, mbind, get. now rewrite H. Qed.

Lemma get_points_run (r : ref) (pts : list (R * R)) (h : heap) :
  nth_error h r = Some (OPoints pts) -> get_points r h = (Ok pts, h).
Proof. intros H. unfold get_points, mbind, get. now rewrite H. Qed.

Lemma mbind_lift {A B : Type} (x : result A) (k : A -> M B) (h : heap) :
  mbind (lift x) k h
  = match x with Ok a => k a h | Raise e => (Raise e, h) end.
Proof. unfold mbind, lift. now destruct x. Qed.

(** On a store that holds the profile [p], the call returns what the
    function on values returns, or raises as it does. *)
Lemma optimize_rotation_refines
  (mrr : list (R * R) -> option ((R * R) * (R * R)))
  (profile : ref) (p : ProfileResult) (h : heap) :
  reads_profile h profile p ->
  exists res h',
    optimize_rotation mrr profile h = (res, h')
    /\ match optimizer.optimize_rotation mrr p with
       | Ok op => exists r, res = Ok r /\ reads_optimized h' r op
       | Raise e => res = Raise e
       end.
Proof.
  intros (e & w & Hp & (erefs & He & Hes) & (wrefs & Hw & Hws)).
  unfold optimize_rotation, optimizer.optimize_rotation.
  set (es := projection.edges p) in *. set (ws := projection.wires p) in *.
  rewrite (mbind_ok _ _ _ _ _ (get_run _ _ _ Hp)).
  rewrite (mbind_ok _ _ _ _ _ (get_list_run _ _ _ He)).
  destruct (returns_sample_points h erefs es Hes) as (pts & h1 & R1 & E1 & Q1).
  rewrite (mbind_ok _ _ _ _ _ R1).
  rewrite (mbind_ok _ _ _ _ _ (get_points_run _ _ _ Q1)).
  rewrite mbind_lift.
  destruct (optimizer._find_optimal_angle mrr (optimizer._sample_points es))
    as [angle | ex]; [ | now eexists; eexists].
  cbn [bind].
  set (ca := cos (Py.radians (- angle))). set (sa := sin (Py.radians (- angle))).
  set (rot := fun ed => optimizer._rotate_edge ed ca sa).
  destruct (returns_edges (_rotate_edge ca sa) rot
              (fun h r e => returns_rotate_edge ca sa h r e)
              erefs es h1 (reads_edges_stable _ _ _ _ E1 Hes))
    as (re & h2 & R2 & E2 & (rrefs & Hre & Hrr)).
  rewrite (mbind_ok _ _ _ _ _ R2).
  assert (E02 : extends h h2) by (now apply extends_trans with h1).
  rewrite (mbind_ok _ _ _ _ _ (get_list_run _ _ _ (extends_nth _ _ _ _ E02 Hw))).
  destruct (returns_wires (_rotate_edge ca sa) rot
              (fun h r e => returns_rotate_edge ca sa h r e)
              wrefs ws h2 (reads_lists_stable _ _ _ _ E02 Hws))
    as (rw & h3 & R3 & E3 & (rwrefs & Hrw & Hrwr)).
  rewrite (mbind_ok _ _ _ _ _ R3).
  rewrite (mbind_ok _ _ _ _ _ (get_list_run _ _ _ (extends_nth _ _ _ _ E3 Hre))).
  destruct (returns_sample_points h3 rrefs (map rot es)
              (reads_edges_stable _ _ _ _ E3 Hrr))
    as (rp & h4 & R4 & E4 & Q4).
  rewrite (mbind_ok _ _ _ _ _ R4).
  rewrite (mbind_ok _ _ _ _ _ (get_points_run _ _ _ Q4)).
  unfold bind. fold (map rot es). rewrite mbind_lift.
  destruct (Py.min (map fst (optimizer._sample_points (map rot es)))) as [x0 | ex];
    [ | now eexists; eexists].
  rewrite mbind_lift.
  destruct (Py.max (map fst (optimizer._sample_points (map rot es)))) as [x1 | ex];
    [ | now eexists; eexists].
  rewrite mbind_lift.
  destruct (Py.min (map snd (optimizer._sample_points (map rot es)))) as [y0 | ex];
    [ | now eexists; eexists].
  rewrite mbind_lift.
  destruct (Py.max (map snd (optimizer._sample_points (map rot es)))) as [y1 | ex];
    [ | now eexists; eexists].
  set (tr := fun ed => optimizer._translate_edge ed (- x0) (- y0)).
  assert (E34 : extends h2 h4) by (now apply extends_trans with h3).
  destruct (returns_edges (_translate_edge (- x0) (- y0)) tr
              (fun h r e => returns_translate_edge (- x0) (- y0) h r e)
              rrefs (map rot es) h4 (reads_edges_stable _ _ _ _ E34 Hrr))
    as (te & h5 & R5 & E5 & Hte).
  rewrite (mbind_ok _ _ _ _ _ R5).
  assert (E35 : extends h3 h5) by (now apply extends_trans with h4).
  rewrite (mbind_ok _ _ _ _ _ (get_list_run _ _ _ (extends_nth _ _ _ _ E35 Hrw))).
  destruct (returns_wires (_translate_edge (- x0) (- y0)) tr
              (fun h r e => returns_translate_edge (- x0) (- y0) h r e)
              rwrefs (map (map rot) ws) h5 (reads_lists_stable _ _ _ _ E35 Hrwr))
    as (tw & h6 & R6 & E6 & Htw).
  rewrite (mbind_ok _ _ _ _ _ R6).
  eexists; eexists. split; [reflexivity | ].
  exists (length h6). split; [reflexivity | ].
  exists te, tw. cbn [optimizer.bbox_w optimizer.bbox_h optimizer.rotation_deg
                      optimizer.thickness_inches optimizer.edges optimizer.wires].
  split; [apply nth_error_last | ].
  assert (EL : forall o, extends h6 (h6 ++ [o])) by (intros; now eexists).
  split.
  - apply reads_list_stable with h5; [ | exact Hte].
    apply extends_trans with h6; [exact E6 | apply EL].
  - apply reads_wires_stable with h6; [apply EL | exact Htw].
Qed.

Lemma line_store_reads : reads_profile Examples.line_store 4%nat Examples.one_line.
Proof.
  exists 1%nat, 3%nat. split; [reflexivity | ]. split.
  - exists [0%nat]. split; [reflexivity | ]. repeat constructor.
  - exists [2%nat]. split; [reflexivity | ]. constructor; [ | constructor].
    exists [0%nat]. split; [reflexivity | ]. repeat constructor.
Qed.

(** C10. [optimize_rotation] never mutates its input.  On a store that
    holds a profile [p] behind the reference [profile], the call ends with
    every object that existed before still in place and unchanged, so that
    the edges, the wires, the thickness and the axis label of the input read
    as before; and when it returns, the result is a new object whose lists
    are new and whose primitives are new objects, not shared with the input,
    holding the rotated and translated values that the function on values
    computes.  When the function on values raises, so does the call, and
    the store is still only extended. *)
Theorem optimize_rotation_never_mutates
  (mrr : list (R * R) -> option ((R * R) * (R * R)))
  (profile : ref) (p : ProfileResult) (h : heap) :
  reads_profile h profile p ->
  exists res h',
    optimize_rotation mrr profile h = (res, h')
    /\ (forall r o, nth_error h r = Some o -> nth_error h' r = Some o)
    /\ reads_profile h' profile p
    /\ match optimizer.optimize_rotation mrr p with
       | Ok op =>
           exists r, res = Ok r
                     /\ reads_optimized h' r op
                     /\ copied_profile (length h) h' r
       | Raise e => res = Raise e
       end.
Proof.
  intros Hp.
  destruct (optimize_rotation_refines mrr profile p h Hp) as (res & h' & Hrun & Hres).
  destruct (spec_optimize_rotation mrr profile h) as [E C].
  rewrite Hrun in E, C. cbn [fst snd] in E, C.
  exists res, h'. split; [exact Hrun | ]. split; [ | split].
  - intros r o. now apply extends_nth.
  - now apply reads_profile_stable with h.
  - destruct (optimizer.optimize_rotation mrr p) as [op | e]; [ | exact Hres].
    destruct Hres as (r & -> & Hr). exists r.
    split; [reflexivity | split; [exact Hr | exact (C)]].
Qed.

Lemma optimize_rotation_never_mutates_witness :
  reads_profile Examples.line_store 4%nat Examples.one_line
  /\ exists res h',
       optimize_rotation (fun _ => Some ((0, 0), (1, 0))) 4%nat Examples.line_store = (res, h')
       /\ (forall r o, nth_error Examples.line_store r = Some o -> nth_error h' r = Some o)
       /\ reads_profile h' 4%nat Examples.one_line
       /\ match optimizer.optimize_rotation (fun _ => Some ((0, 0), (1, 0)))
                                            Examples.one_line with
          | Ok op =>
              exists r, res = Ok r
                        /\ reads_optimized h' r op
                        /\ copied_profile (length Examples.line_store) h' r
          | Raise e => res = Raise e
          end.
Proof.
  split.
  - exact line_store_reads.
  - exact (optimize_rotation_never_mutates
             (fun _ => Some ((0, 0), (1, 0))) 4%nat Examples.one_line Examples.line_store
             line_store_reads).
Defined.

End store_facts.

(** * The claims *)

(** C1, as stated, fails: the ball has no planar face at all, and
    [extract_profile] returns a profile for it: the fallback takes its one
    face on the axis X, and the profile is the seam of the ball, a half
    circle seen along X. *)
Lemma sphere_gets_a_profile :
  no_planar_face sphere
  /\ exists w,
       Rabs w = 180
       /\ extract_profile sphere (1 / 25.4)
          = Ok {| projection.edges :=
                    [Arc2D (0 * (1 / 25.4)) (0 * (1 / 25.4)) (1 * (1 / 25.4)) (-90) w
                           (0 * (1 / 25.4)) (-1 * (1 / 25.4))
                           (0 * (1 / 25.4)) (1 * (1 / 25.4))];
                  projection.wires :=
                    [[Arc2D (0 * (1 / 25.4)) (0 * (1 / 25.4)) (1 * (1 / 25.4)) (-90) w
                            (0 * (1 / 25.4)) (-1 * (1 / 25.4))
                            (0 * (1 / 25.4)) (1 * (1 / 25.4))]];
                  projection.thickness_inches := (1 - -1) * (1 / 25.4);
                  extrusion_axis := X |}.
Proof. split; [exact sphere_no_planar | apply sphere_profile; lra]. Qed.

(** C1, amended.  [extract_profile] raises exactly for a solid without any
    face (the fallback indexes an empty list); for a solid with at least one
    face it returns a complete [ProfileResult], and when none of the faces
    is planar the result is built from the first face of the solid on the
    axis of smallest extent. *)
Theorem extract_profile_raises_only_without_faces (s : shape) (u : R) :
  (faces s = [] -> extract_profile s u = Raise IndexError)
  /\ (faces s <> [] -> exists p, extract_profile s u = Ok p)
  /\ (forall f fs a rest,
         faces s = f :: fs -> axes_sorted s = a :: rest -> no_planar_face s ->
         extract_profile s u = Ok (profile_of s f a u)).
Proof.
  split; [apply extract_profile_no_faces | ].
  split; [apply extract_profile_some_face | ].
  intros f fs a rest. apply extract_profile_no_planar.
Qed.

Lemma extract_profile_raises_only_without_faces_witness :
  extract_profile no_faces 1 = Raise IndexError
  /\ (exists p, extract_profile sphere 1 = Ok p)
  /\ extract_profile sphere 1 = Ok (profile_of sphere sphere_face X 1).
Proof.
  split; [ | split].
  - exact (proj1 (extract_profile_raises_only_without_faces no_faces 1) eq_refl).
  - refine (proj1 (proj2 (extract_profile_raises_only_without_faces sphere 1)) _).
    discriminate.
  - exact (proj2 (proj2 (extract_profile_raises_only_without_faces sphere 1))
                 sphere_face [] X [Y; Z] eq_refl sphere_axes sphere_no_planar).
Defined.

(** C2, as stated, fails: the outer boundary of the plate is a rectangle in
    the sense of the claim, and the pair is not rejected, because of the
    hole. *)
Lemma plate_with_hole_not_rejected :
  claimed_rectangle (outer_edges plate_top Z 1)
  /\ _is_rectangle (all_edges plate_top Z 1) = false.
Proof.
  split; [ | exact plate_top_not_rejected].
  rewrite plate_top_outer. do 4 eexists. split; [reflexivity | ].
  split; [repeat constructor | ].
  assert (Z0 : forall a b, np_dot (direction a) (direction b) = 0 ->
                           Rabs (adjacent_dot a b) < 0.05).
  { intros a b H. unfold adjacent_dot. cbv zeta. rewrite H.
    unfold Rdiv. rewrite Rmult_0_l, Rabs_R0. lra. }
  repeat split; apply Z0; cbv [direction np_dot fst snd]; ring.
Qed.

(** C2, amended.  A trial axis/face pair is rejected exactly when the
    flattened list of its edges, the outer boundary followed by the holes,
    consists of exactly four lines whose cyclically adjacent directions have
    a normalised dot product of at most 0.05 in absolute value; an edge
    contributed by a hole therefore changes the decision. *)
Theorem rejection_reads_all_edges
  (s : shape) (scale : R) (a : axis) (rest : list axis) (f : face) :
  best_of (candidate_faces s a) = Some f ->
  axis_loop s scale (a :: rest)
  = (if _is_rectangle (outer_edges f a scale ++ concat (inner_wires_edges f a scale))
     then axis_loop s scale rest
     else Some (profile_of s f a scale))
  /\ (_is_rectangle (outer_edges f a scale ++ concat (inner_wires_edges f a scale)) = true
      <-> four_perpendicular_lines
            (outer_edges f a scale ++ concat (inner_wires_edges f a scale))).
Proof.
  intros Hf. split.
  - cbn [axis_loop]. rewrite Hf. reflexivity.
  - apply is_rectangle_spec.
Qed.

Lemma rejection_reads_all_edges_witness :
  best_of (candidate_faces bar Y) = Some (side (0, 0) (4, 0) (0, -1, 0) 40)
  /\ axis_loop bar 1 [Y]
     = (if _is_rectangle
             (outer_edges (side (0, 0) (4, 0) (0, -1, 0) 40) Y 1
              ++ concat (inner_wires_edges (side (0, 0) (4, 0) (0, -1, 0) 40) Y 1))
        then axis_loop bar 1 []
        else Some (profile_of bar (side (0, 0) (4, 0) (0, -1, 0) 40) Y 1)).
Proof.
  assert (H : best_of (candidate_faces bar Y)
              = Some (side (0, 0) (4, 0) (0, -1, 0) 40))
    by (rewrite bar_candidates_Y; reflexivity).
  split; [exact H | ].
  exact (proj1 (rejection_reads_all_edges bar 1 Y [] _ H)).
Defined.

(** C3.  With no sampled point [optimize_rotation] raises [ValueError]
    (the minimum of an empty sequence), against the claim; with one or two
    sampled points it returns a complete result with a rotation of zero. *)
Theorem few_points_rotation
  (mrr : list (R * R) -> option ((R * R) * (R * R))) (p : ProfileResult) :
  (optimizer._sample_points (projection.edges p) = [] ->
   optimizer.optimize_rotation mrr p = Raise ValueError)
  /\ (optimizer._sample_points (projection.edges p) <> [] ->
      (length (optimizer._sample_points (projection.edges p)) < 3)%nat ->
      exists op, optimizer.optimize_rotation mrr p = Ok op
                 /\ optimizer.rotation_deg op = 0).
Proof.
  split.
  - intros He.
    assert (Ha : optimizer._find_optimal_angle
                   mrr (optimizer._sample_points (projection.edges p)) = Ok 0).
    { apply find_optimal_angle_few. rewrite He. cbn. lia. }
    unfold optimizer.optimize_rotation. rewrite Ha. cbn [bind].
    match goal with
    | |- context [Py.min (map fst (optimizer._sample_points ?es))] =>
        assert (Hr : optimizer._sample_points es = [])
    end.
    { apply length_zero_iff_nil. rewrite sample_points_rotate_length, He. reflexivity. }
    rewrite Hr. reflexivity.
  - intros Hne Hlt.
    pose proof (find_optimal_angle_few mrr _ Hlt) as Ha.
    destruct (optimize_rotation_returns mrr p 0 Ha Hne)
      as (x0 & x1 & y0 & y1 & _ & _ & _ & _ & Hop).
    eexists. split; [exact Hop | ].
    cbn [optimizer.rotation_deg]. apply Ropp_0.
Qed.

Lemma few_points_rotation_witness :
  optimizer.optimize_rotation (fun _ => Some ((0, 0), (1, 0))) (empty_profile 1)
  = Raise ValueError
  /\ exists op, optimizer.optimize_rotation (fun _ => Some ((0, 0), (1, 0))) one_line = Ok op
                /\ optimizer.rotation_deg op = 0.
Proof.
  split.
  - exact (proj1 (few_points_rotation (fun _ => Some ((0, 0), (1, 0))) (empty_profile 1))
                 eq_refl).
  - refine (proj2 (few_points_rotation (fun _ => Some ((0, 0), (1, 0))) one_line) _ _).
    + discriminate.
    + cbn. lia.
Defined.

(** C4, as stated, fails: turning the quarter arc that starts at -90
    degrees by 0 degrees leaves its start angle at -90, where
    (-90 + 0) mod 360 is 270. *)
Lemma quarter_arc_start_not_reduced :
  optimizer._rotate_edge quarter_arc (cos (Py.radians 0)) (sin (Py.radians 0))
  = Arc2D 0 0 1 (-90) 90 0 (-1) 1 0
  /\ Py.mod_ (-90 + 0) 360 = 270.
Proof.
  split.
  - unfold quarter_arc. cbn [optimizer._rotate_edge optimizer._rotate_point].
    rewrite (angle_offset_exact 0) by lra.
    replace (Py.radians 0) with 0 by (unfold Py.radians; ring).
    rewrite cos_0, sin_0. f_equal; ring.
  - rewrite (mod_shift _ 360 (-1)) by lra. lra.
Qed.

(** C4, amended.  Rotating an arc by [phi] degrees keeps its signed sweep
    and turns its start angle by [phi] up to whole turns: the new start
    angle is the old one plus [phi] plus a whole number of turns, and it is
    not reduced modulo 360.  Centre and end points are rotated, the radius
    is kept. *)
Theorem rotate_arc_keeps_sweep
  (cx cy r start_deg sweep_deg x1 y1 x2 y2 phi : R) :
  let cos_a := cos (Py.radians phi) in
  let sin_a := sin (Py.radians phi) in
  exists k : BinNums.Z,
    optimizer._rotate_edge
      (Arc2D cx cy r start_deg sweep_deg x1 y1 x2 y2) cos_a sin_a
    = Arc2D (fst (optimizer._rotate_point cx cy cos_a sin_a))
            (snd (optimizer._rotate_point cx cy cos_a sin_a))
            r
            (start_deg + phi + 360 * IZR k)
            sweep_deg
            (fst (optimizer._rotate_point x1 y1 cos_a sin_a))
            (snd (optimizer._rotate_point x1 y1 cos_a sin_a))
            (fst (optimizer._rotate_point x2 y2 cos_a sin_a))
            (snd (optimizer._rotate_point x2 y2 cos_a sin_a)).
Proof.
  intros cos_a sin_a.
  destruct (angle_offset_congruent phi) as (k & _ & E).
  exists k.
  cbn [optimizer._rotate_edge optimizer._rotate_point fst snd].
  fold cos_a sin_a in E. rewrite E. f_equal. ring.
Qed.

(** C5, as stated, fails.  A drawing of one polyline from (0,0) to (2,2)
    whose segment is a half circle gives the tool the two sample points the
    optimizer reads on the polyline of the two vertices, so that both take
    the angle 0 without asking for a rectangle.  The optimizer leaves the
    polyline at the corner (0,0) of its two points; the tool moves the
    vertices by the corner of the box the drawing library gives for the
    drawing, and that box reaches beyond (0,0), to the left or below,
    wherever the half circle runs: the vertices the tool writes are not the
    optimizer's. *)
Lemma bulged_polyline_moves_with_the_box :
  as_edges bulged_msp (projection.edges straight_profile)
  /\ flat_map (fun e => _sample_entity_points e 64) bulged_msp
     = optimizer._sample_points (projection.edges straight_profile)
  /\ forall mrr extents,
       c0 (fst (extents bulged_msp)) < 0 \/ c1 (fst (extents bulged_msp)) < 0 ->
       exists out size op,
         process_dxf mrr extents bulged_msp = Ok (out, size)
         /\ optimizer.optimize_rotation mrr straight_profile = Ok op
         /\ ~ as_edges_up_to_turns out (optimizer.edges op).
Proof.
  assert (Has : as_edges bulged_msp (projection.edges straight_profile))
    by (repeat constructor).
  split; [exact Has | ]. split; [reflexivity | ].
  intros mrr extents Hbox.
  assert (Ha : optimizer._find_optimal_angle
                 mrr (optimizer._sample_points (projection.edges straight_profile))
               = Ok 0)
    by (apply find_optimal_angle_few; cbn; lia).
  destruct (optimize_rotation_returns mrr straight_profile 0 Ha ltac:(discriminate))
    as (x0 & x1 & y0 & y1 & Hx0 & _ & Hy0 & _ & Hop).
  destruct (cos_sin_no_turn) as [Ec Es].
  assert (Hrot : map (fun e => rotate_entity e (- 0) (cos (Py.radians (- 0)))
                                             (sin (Py.radians (- 0)))) bulged_msp
                 = bulged_msp).
  { cbn [bulged_msp map rotate_entity _rotate_pt c0 c1 c2 fst snd].
    rewrite Ec, Es. unfold bulged_msp.
    replace (0 * 1 - 0 * 0) with 0 by ring.
    replace (0 * 0 + 0 * 1) with 0 by ring.
    replace (2 * 1 - 2 * 0) with 2 by ring.
    replace (2 * 0 + 2 * 1) with 2 by ring.
    reflexivity. }
  unfold rotated_by in Hx0, Hy0.
  cbn [straight_profile projection.edges map optimizer._rotate_edge
       optimizer._rotate_point optimizer._sample_points flat_map
       optimizer.edge_points app fst snd Py.min fold_left] in Hx0, Hy0.
  rewrite Ec, Es in Hx0, Hy0.
  injection Hx0 as Hx0. injection Hy0 as Hy0.
  assert (X0 : x0 = 0).
  { rewrite <- Hx0. replace (0 * 1 - 0 * 0) with 0 by ring.
    replace (2 * 1 - 2 * 0) with 2 by ring. unfold Rmin.
    destruct (Rle_dec 0 2); lra. }
  assert (Y0 : y0 = 0).
  { rewrite <- Hy0. replace (0 * 0 + 0 * 1) with 0 by ring.
    replace (2 * 0 + 2 * 1) with 2 by ring. unfold Rmin.
    destruct (Rle_dec 0 2); lra. }
  exists (fst (_apply_rotation extents bulged_msp (- 0))),
         (snd (_apply_rotation extents bulged_msp (- 0))).
  eexists. split; [ | split; [exact Hop | ]].
  - unfold process_dxf.
    cbn [bulged_msp flat_map _sample_entity_points map app c0 c1 fst snd].
    unfold dxf_min_bound._find_optimal_angle. cbn [length Nat.ltb Nat.leb bind].
    now destruct (_apply_rotation _ _ _).
  - cbn [optimizer.edges]. intros Hsame.
    destruct (apply_rotation_offsets extents bulged_msp _ (- 0) x0 y0 Has
                ltac:(discriminate) Hsame) as [Ox Oy].
    rewrite Hrot in Ox, Oy. lra.
Qed.

(** C5, amended.  On the same sampled points the two tools compute the same
    angle, or fail alike.  Entity by entity, the rotation of the DXF tool
    yields the primitive the optimizer's rotation yields, coordinate for
    coordinate, with the same radius and sweep, the start angle of an arc
    up to whole turns (the tool reduces it modulo 360, the optimizer does
    not).  Entity by entity, the tool's translation by [(ox, oy)] is the
    optimizer's translation by [(-ox, -oy)].  The two differ in the corner
    they subtract: the tool takes the minimum corner of the box the drawing
    library gives for the rotated drawing, the optimizer the minimum corner
    [(x0, y0)] of its own sample points.  For a drawing that gives a sample
    point, the entities the tool leaves are the optimizer's rotated and
    translated primitives, up to whole turns in the start angles of arcs,
    if and only if the two corners are the same. *)
Theorem dxf_tool_matches_optimizer :
  (forall mrr pts,
      dxf_min_bound._find_optimal_angle mrr pts
      = optimizer._find_optimal_angle mrr pts)
  /\ (forall e phi,
         match as_edge (rotate_entity e phi (cos (Py.radians phi)) (sin (Py.radians phi))),
               as_edge e with
         | Some ed', Some ed =>
             same_up_to_turns
               ed' (optimizer._rotate_edge ed (cos (Py.radians phi)) (sin (Py.radians phi)))
         | None, None => True
         | _, _ => False
         end)
  /\ (forall e ox oy,
         as_edge (translate_entity e ox oy)
         = option_map (fun ed => optimizer._translate_edge ed (- ox) (- oy)) (as_edge e))
  /\ (forall extents msp es phi x0 y0,
         as_edges msp es ->
         flat_map (fun e => _sample_entity_points e 64) msp <> [] ->
         as_edges_up_to_turns
           (fst (_apply_rotation extents msp phi))
           (map (fun ed => optimizer._translate_edge ed (- x0) (- y0))
                (rotated_by phi es))
         <-> c0 (fst (extents
                        (map (fun e => rotate_entity e phi (cos (Py.radians phi))
                                                     (sin (Py.radians phi))) msp))) = x0
             /\ c1 (fst (extents
                           (map (fun e => rotate_entity e phi (cos (Py.radians phi))
                                                        (sin (Py.radians phi))) msp)))
                = y0).
Proof.
  split; [exact find_optimal_angle_same | ].
  split; [exact rotate_entity_as_edge | ].
  split; [exact translate_entity_as_edge | ].
  intros extents msp es phi x0 y0 Has Hne. split.
  - now apply apply_rotation_offsets.
  - intros [Hx Hy]. now apply apply_rotation_edges.
Qed.

(** C6.  A circular curve whose parametric span is 2 pi within 1e-6 is
    classified as exactly one [Circle2D], with the projected and scaled
    centre and the scaled radius; so the wire that contains it yields that
    circle, and the curve yields no [Arc2D]. *)
Theorem full_circle_is_a_circle
  (wire : list curve) (c : curve) (a : axis) (scale : R) :
  In c wire ->
  GetType c = GeomAbs_Circle ->
  Rabs (LastParameter c - FirstParameter c - 2 * PI) < 1e-6 ->
  classify c a scale
  = [Circle2D (fst (centre c a scale)) (snd (centre c a scale)) (Radius c * scale)]
  /\ In (Circle2D (fst (centre c a scale)) (snd (centre c a scale)) (Radius c * scale))
        (_extract_edges_from_wire wire a scale).
Proof.
  intros Hin Ht Hs.
  pose proof (classify_full_circle c a scale Ht Hs) as Hc.
  split; [exact Hc | ].
  unfold _extract_edges_from_wire. apply in_flat_map. exists c.
  split; [exact Hin | ]. rewrite Hc. now left.
Qed.

Lemma full_circle_is_a_circle_witness :
  classify (circle_edge 5 2.5 1 1 0 (2 * PI)) Z 1
  = [Circle2D (fst (centre (circle_edge 5 2.5 1 1 0 (2 * PI)) Z 1))
              (snd (centre (circle_edge 5 2.5 1 1 0 (2 * PI)) Z 1))
              (Radius (circle_edge 5 2.5 1 1 0 (2 * PI)) * 1)]
  /\ In (Circle2D (fst (centre (circle_edge 5 2.5 1 1 0 (2 * PI)) Z 1))
                  (snd (centre (circle_edge 5 2.5 1 1 0 (2 * PI)) Z 1))
                  (Radius (circle_edge 5 2.5 1 1 0 (2 * PI)) * 1))
        (_extract_edges_from_wire [circle_edge 5 2.5 1 1 0 (2 * PI)] Z 1).
Proof.
  apply (full_circle_is_a_circle [circle_edge 5 2.5 1 1 0 (2 * PI)]).
  - now left.
  - reflexivity.
  - cbn [circle_edge FirstParameter LastParameter].
    replace (2 * PI - 0 - 2 * PI) with 0 by ring. rewrite Rabs_R0. lra.
Defined.

Lemma two_turns_zero_sweep : ccw_start_to_end two_turns Z 1 = 0.
Proof.
  unfold ccw_start_to_end, projected, two_turns.
  cbn [circle_edge FirstParameter LastParameter Value _drop_axis].
  assert (Hc : cos (2 * PI + 2 * PI) = cos 0)
    by (rewrite cos_plus, cos_2PI, sin_2PI, cos_0; ring).
  assert (Hs : sin (2 * PI + 2 * PI) = sin 0)
    by (rewrite sin_plus, cos_2PI, sin_2PI, sin_0; ring).
  rewrite Hc, Hs.
  match goal with
  | |- _normalize_angle (?x - ?x) = 0 => replace (x - x) with 0 by ring
  end.
  rewrite normalize_angle_mod. apply mod_small. lra.
Qed.

(** C7.  Every [Arc2D] the classifier emits has a sweep that is not zero
    and of magnitude at most 360; and when the counter-clockwise sweep from
    start to end comes out as 0, the arc is emitted with a sweep of 360. *)
Theorem arc_sweep_never_zero :
  (forall wire a scale,
      Forall sweep_in_range (_extract_edges_from_wire wire a scale))
  /\ (forall c a scale,
         GetType c = GeomAbs_Circle ->
         1e-3 <= Rabs (LastParameter c - FirstParameter c) ->
         1e-6 <= Rabs (LastParameter c - FirstParameter c - 2 * PI) ->
         ccw_start_to_end c a scale = 0 ->
         exists cx cy r start_deg x1 y1 x2 y2,
           classify c a scale = [Arc2D cx cy r start_deg 360 x1 y1 x2 y2]).
Proof.
  split; [exact extract_edges_sweep | exact classify_zero_sweep].
Qed.

Lemma arc_sweep_never_zero_witness :
  exists cx cy r start_deg x1 y1 x2 y2,
    classify two_turns Z 1 = [Arc2D cx cy r start_deg 360 x1 y1 x2 y2].
Proof.
  apply (proj2 arc_sweep_never_zero two_turns Z 1).
  - reflexivity.
  - cbn [two_turns circle_edge FirstParameter LastParameter].
    pose proof PI_gt_3. rewrite Rabs_pos_eq; lra.
  - cbn [two_turns circle_edge FirstParameter LastParameter].
    pose proof PI_gt_3. rewrite Rabs_pos_eq; lra.
  - exact two_turns_zero_sweep.
Defined.



(** C9.  For a profile with at least one sampled point, whenever fewer
    than three points are sampled or shapely gives a rectangle for them,
    [optimize_rotation] returns, the smallest X and the smallest Y over the
    sampled points of the output edges are 0, the largest are [bbox_w] and
    [bbox_h], and these two are the extents of the sampled points of the
    rotated edges.  With three or more sampled points for which shapely
    gives no polygon, as for points on one line, the call raises
    [AttributeError] and there is no output: there the claim fails. *)
Theorem optimized_profile_at_origin
  (mrr : list (R * R) -> option ((R * R) * (R * R))) (p : ProfileResult) :
  optimizer._sample_points (projection.edges p) <> [] ->
  ((length (optimizer._sample_points (projection.edges p)) < 3)%nat
   \/ mrr (optimizer._sample_points (projection.edges p)) <> None ->
   exists op,
     optimizer.optimize_rotation mrr p = Ok op
     /\ Py.min (map fst (optimizer._sample_points (optimizer.edges op))) = Ok 0
     /\ Py.min (map snd (optimizer._sample_points (optimizer.edges op))) = Ok 0
     /\ Py.max (map fst (optimizer._sample_points (optimizer.edges op)))
        = Ok (optimizer.bbox_w op)
     /\ Py.max (map snd (optimizer._sample_points (optimizer.edges op)))
        = Ok (optimizer.bbox_h op)
     /\ exists x0 x1 y0 y1,
          let pts := optimizer._sample_points
                       (rotated_by (optimizer.rotation_deg op) (projection.edges p)) in
          Py.min (map fst pts) = Ok x0 /\ Py.max (map fst pts) = Ok x1
          /\ Py.min (map snd pts) = Ok y0 /\ Py.max (map snd pts) = Ok y1
          /\ optimizer.bbox_w op = x1 - x0 /\ optimizer.bbox_h op = y1 - y0)
  /\ ((3 <= length (optimizer._sample_points (projection.edges p)))%nat ->
      mrr (optimizer._sample_points (projection.edges p)) = None ->
      optimizer.optimize_rotation mrr p = Raise AttributeError).
Proof.
  intros Hne. split; [ | apply optimize_rotation_no_polygon].
  intros Hmrr.
  assert (Ha : exists angle,
             optimizer._find_optimal_angle
               mrr (optimizer._sample_points (projection.edges p)) = Ok angle).
  { destruct (find_optimal_angle_cases
                mrr (optimizer._sample_points (projection.edges p)))
      as [[_ H] | [(_ & k0 & k1 & _ & H) | (Hn & Hm & _)]];
      [eexists; exact H | eexists; exact H | ].
    destruct Hmrr as [Hlt | Hs]; [lia | contradiction]. }
  destruct Ha as [angle Ha].
  destruct (optimize_rotation_returns mrr p angle Ha Hne)
    as (x0 & x1 & y0 & y1 & Hx0 & Hx1 & Hy0 & Hy1 & Hop).
  cbv zeta in Hx0, Hx1, Hy0, Hy1.
  eexists. split; [exact Hop | ].
  cbn [optimizer.edges optimizer.bbox_w optimizer.bbox_h optimizer.rotation_deg].
  rewrite sample_points_translate.
  rewrite map_fst_shift, map_snd_shift.
  rewrite (min_shift (- x0) _ _ Hx0), (max_shift (- x0) _ _ Hx1).
  rewrite (min_shift (- y0) _ _ Hy0), (max_shift (- y0) _ _ Hy1).
  replace (x0 + - x0) with 0 by ring. replace (y0 + - y0) with 0 by ring.
  repeat split; try reflexivity.
  exists x0, x1, y0, y1. repeat split; assumption.
Qed.

Lemma optimized_profile_at_origin_witness :
  (exists op,
     optimizer.optimize_rotation
       (fun _ => Some ((0, 0), (1, 0))) profile_examples.half_disc = Ok op
     /\ Py.min (map fst (optimizer._sample_points (optimizer.edges op))) = Ok 0
     /\ Py.min (map snd (optimizer._sample_points (optimizer.edges op))) = Ok 0
     /\ Py.max (map fst (optimizer._sample_points (optimizer.edges op)))
        = Ok (optimizer.bbox_w op)
     /\ Py.max (map snd (optimizer._sample_points (optimizer.edges op)))
        = Ok (optimizer.bbox_h op)
     /\ exists x0 x1 y0 y1,
          let pts := optimizer._sample_points
                       (rotated_by (optimizer.rotation_deg op)
                                   (projection.edges profile_examples.half_disc)) in
          Py.min (map fst pts) = Ok x0 /\ Py.max (map fst pts) = Ok x1
          /\ Py.min (map snd pts) = Ok y0 /\ Py.max (map snd pts) = Ok y1
          /\ optimizer.bbox_w op = x1 - x0 /\ optimizer.bbox_h op = y1 - y0)
  /\ optimizer.optimize_rotation (fun _ => None) collinear_profile
     = Raise AttributeError.
Proof.
  split.
  - apply (proj1 (optimized_profile_at_origin
                    (fun _ => Some ((0, 0), (1, 0))) profile_examples.half_disc
                    ltac:(discriminate))).
    right. discriminate.
  - apply (proj2 (optimized_profile_at_origin
                    (fun _ => None) collinear_profile ltac:(discriminate))).
    + cbn [collinear_profile projection.edges optimizer._sample_points flat_map
           optimizer.edge_points app length]. lia.
    + reflexivity.
Defined.

(** * Further properties of the code *)

Import more_statements.
Import more_examples.

(** ** projection.py: angles *)

(** X1.  [_normalize_angle] returns the remainder [a % 360] as it is: the
    branch that adds 360 to a negative remainder is never taken.  The angle
    returned lies between 0 and 360 and differs from the argument by a whole
    number of turns. *)
Theorem normalize_angle_canonical (a : R) :
  _normalize_angle a = Py.mod_ a 360
  /\ 0 <= _normalize_angle a <= 360
  /\ (exists k : BinNums.Z, _normalize_angle a = a + 360 * IZR k).
Proof.
  split; [apply normalize_angle_mod | ]. split.
  - pose proof (normalize_angle_range a). lra.
  - rewrite normalize_angle_mod. apply mod_turns.
Qed.

Lemma atan2_range (y x : R) : - PI < Py.atan2 y x <= PI.
Proof.
  pose proof PI_RGT_0 as Hpi. unfold Py.atan2.
  destruct (Rlt_dec 0 x) as [Hx | Hx].
  - pose proof (atan_bound (y / x)). lra.
  - destruct (Rlt_dec x 0) as [Hx' | Hx'].
    + pose proof (atan_bound (y / x)) as Hb.
      assert (Hi : / x < 0) by (apply Rinv_lt_0_compat; exact Hx').
      destruct (Rle_dec 0 y) as [Hy | Hy].
      * assert (y / x <= 0) by (unfold Rdiv; nra).
        assert (atan (y / x) <= 0).
        { rewrite <- atan_0. destruct (Req_dec (y / x) 0) as [-> | Hn]; [lra | ].
          left. apply atan_increasing. lra. }
        lra.
      * assert (0 < y / x) by (unfold Rdiv; nra).
        assert (0 < atan (y / x)).
        { rewrite <- atan_0. now apply atan_increasing. }
        lra.
    + destruct (Rlt_dec 0 y); [lra | ]. destruct (Rlt_dec y 0); lra.
Qed.

Lemma degrees_range (t : R) : - PI < t <= PI -> -180 < Py.degrees t <= 180.
Proof.
  intros [H1 H2]. pose proof PI_RGT_0 as Hpi. unfold Py.degrees.
  assert (Hk : 0 < 180 / PI) by (apply Rdiv_lt_0_compat; lra).
  assert (E : PI * (180 / PI) = 180) by (field; lra).
  split.
  - assert (- PI * (180 / PI) < t * (180 / PI)) by (apply Rmult_lt_compat_r; lra).
    lra.
  - assert (t * (180 / PI) <= PI * (180 / PI)) by (apply Rmult_le_compat_r; lra).
    lra.
Qed.

Lemma classify_start (c : curve) (a : axis) (scale : R) :
  Forall start_in_range (classify c a scale).
Proof.
  unfold classify.
  destruct (Py.ltb (Rabs (LastParameter c - FirstParameter c)) 1e-3); [constructor | ].
  destruct (GetType c); split_pairs.
  - repeat constructor.
  - destruct (Py.ltb _ 1e-6); [repeat constructor | ].
    constructor; [ | constructor].
    cbn [start_in_range].
    match goal with
    | |- _ <= Py.degrees (Py.atan2 ?y ?x) <= _ =>
        pose proof (degrees_range _ (atan2_range y x))
    end.
    lra.
  - repeat constructor.
Qed.

(** X2.  Every arc the classifier emits has its start angle between -180
    and 180 degrees. *)
Theorem arc_start_in_half_turn (wire : list curve) (a : axis) (scale : R) :
  Forall start_in_range (_extract_edges_from_wire wire a scale).
Proof.
  unfold _extract_edges_from_wire.
  induction wire as [ | c wire IH]; cbn [flat_map].
  - constructor.
  - apply Forall_app. split; [apply classify_start | exact IH].
Qed.

(** ** projection.py: one primitive per edge *)

Lemma classify_kind (c : curve) (a : axis) (scale : R) :
  if non_degenerate c
  then exists e, classify c a scale = [e] /\ kind_matches c e
  else classify c a scale = [].
Proof.
  unfold non_degenerate, classify, kind_matches.
  destruct (Py.ltb (Rabs (LastParameter c - FirstParameter c)) 1e-3);
    cbn [negb]; [reflexivity | ].
  destruct (GetType c); split_pairs.
  - eexists. split; [reflexivity | exact I].
  - destruct (Py.ltb _ 1e-6); eexists; (split; [reflexivity | exact I]).
  - eexists. split; [reflexivity | exact I].
Qed.

(** X3.  [_extract_edges_from_wire] emits exactly one primitive for every
    edge whose parametric span is at least 1e-3 and none for the others, in
    the order of the edges; a line gives a [Line2D], a circle a [Circle2D]
    or an [Arc2D], any other curve a [Polyline2D]. *)
Theorem one_primitive_per_edge (wire : list curve) (a : axis) (scale : R) :
  Forall2 kind_matches (filter non_degenerate wire)
          (_extract_edges_from_wire wire a scale).
Proof.
  unfold _extract_edges_from_wire.
  induction wire as [ | c wire IH]; cbn [filter flat_map].
  - constructor.
  - pose proof (classify_kind c a scale) as H.
    destruct (non_degenerate c).
    + destruct H as (e & -> & Hk). cbn [app]. now constructor.
    + rewrite H. exact IH.
Qed.

(** ** projection.py: tessellated curves *)

Lemma INR_max_steps_pos (n : nat) (z : BinNums.Z) :
  (0 < n)%nat -> 0 < INR (Py.max_steps n z).
Proof.
  intros H. apply lt_0_INR. unfold Py.max_steps. lia.
Qed.

(** X4.  A curve that is neither a line nor a circle, with a span of at
    least 1e-3, becomes one polyline of at least 21 points that starts at
    the projected point of the first parameter and ends at the projected
    point of the last parameter. *)
Theorem tessellation_endpoints (c : curve) (a : axis) (scale : R) :
  GetType c = GeomAbs_Other ->
  non_degenerate c = true ->
  exists pts,
    classify c a scale = [Polyline2D pts]
    /\ (21 <= length pts)%nat
    /\ hd (0, 0) pts = projected c (FirstParameter c) a scale
    /\ last pts (0, 0) = projected c (LastParameter c) a scale.
Proof.
  intros Ht Hn. unfold non_degenerate in Hn. apply negb_true_iff in Hn.
  unfold classify. rewrite Hn, Ht.
  set (n := Py.max_steps 20 (Py.int ((LastParameter c - FirstParameter c) * 50))).
  assert (Hpos : 0 < INR n) by (apply INR_max_steps_pos; lia).
  assert (Hn20 : (20 <= n)%nat) by (unfold n, Py.max_steps; lia).
  eexists. split; [reflexivity | ]. split; [ | split].
  - rewrite length_map, length_seq. lia.
  - replace (n + 1)%nat with (S n) by lia. cbn [seq map hd]. unfold projected.
    replace (FirstParameter c + (LastParameter c - FirstParameter c) * INR 0 / INR n)
      with (FirstParameter c) by (cbn [INR]; field; lra).
    reflexivity.
  - rewrite seq_app, map_app. cbn [seq map]. rewrite last_last. unfold projected.
    replace (FirstParameter c + (LastParameter c - FirstParameter c) * INR (0 + n) / INR n)
      with (LastParameter c) by (cbn [Nat.add]; field; lra).
    reflexivity.
Qed.

Lemma tessellation_endpoints_witness :
  exists pts,
    classify other_edge Z 1 = [Polyline2D pts]
    /\ (21 <= length pts)%nat
    /\ hd (0, 0) pts = projected other_edge (FirstParameter other_edge) Z 1
    /\ last pts (0, 0) = projected other_edge (LastParameter other_edge) Z 1.
Proof.
  apply (tessellation_endpoints other_edge Z 1).
  - reflexivity.
  - unfold non_degenerate. cbn [other_edge FirstParameter LastParameter].
    rewrite ltb_false; [reflexivity | ]. rewrite Rabs_pos_eq; lra.
Defined.

(** ** projection.py: position along the axis, and the unit factor *)

Lemma drop_axis_along (a : axis) (t : R) (p : R * R * R) :
  _drop_axis (along a t p) a = _drop_axis p a.
Proof.
  destruct p as [[x y] z]. destruct a; cbn [along AXIS_VECTORS _drop_axis];
    f_equal; ring.
Qed.

Lemma classify_moved_along (a : axis) (t : R) (c : curve) (scale : R) :
  classify (moved_along a t c) a scale = classify c a scale.
Proof.
  unfold classify.
  cbn [moved_along GetType FirstParameter LastParameter Value Location Radius].
  destruct (Py.ltb (Rabs (LastParameter c - FirstParameter c)) 1e-3); [reflexivity | ].
  destruct (GetType c); rewrite ?drop_axis_along; try reflexivity.
  do 2 f_equal. apply map_ext. intros i. now rewrite drop_axis_along.
Qed.

(** X5.  The primitives of a wire do not depend on where the wire sits
    along the dropped axis: moving every edge by [t] along the axis gives
    the same primitives (the two end faces of an extrusion give the same
    boundary). *)
Theorem profile_independent_of_height
  (wire : list curve) (a : axis) (t scale : R) :
  _extract_edges_from_wire (map (moved_along a t) wire) a scale
  = _extract_edges_from_wire wire a scale.
Proof.
  unfold _extract_edges_from_wire.
  induction wire as [ | c wire IH]; cbn [map flat_map]; [reflexivity | ].
  now rewrite classify_moved_along, IH.
Qed.

Lemma atan2_scale (k y x : R) : 0 < k -> Py.atan2 (k * y) (k * x) = Py.atan2 y x.
Proof.
  intros Hk. unfold Py.atan2.
  assert (Hq : x <> 0 -> k * y / (k * x) = y / x) by (intros; field; lra).
  destruct (Rlt_dec 0 x) as [Hx | Hx].
  - destruct (Rlt_dec 0 (k * x)) as [_ | Hn]; [ | exfalso; nra].
    rewrite Hq by lra. reflexivity.
  - destruct (Rlt_dec 0 (k * x)) as [Hp | _]; [exfalso; nra | ].
    destruct (Rlt_dec x 0) as [Hx' | Hx'].
    + destruct (Rlt_dec (k * x) 0) as [_ | Hn]; [ | exfalso; nra].
      rewrite Hq by lra.
      destruct (Rle_dec 0 y), (Rle_dec 0 (k * y)); try reflexivity; exfalso; nra.
    + destruct (Rlt_dec (k * x) 0) as [Hp | _]; [exfalso; nra | ].
      destruct (Rlt_dec 0 y), (Rlt_dec 0 (k * y)); try (exfalso; nra);
        destruct (Rlt_dec y 0), (Rlt_dec (k * y) 0); try reflexivity; exfalso; nra.
Qed.

Lemma classify_scale (c : curve) (a : axis) (k s : R) :
  0 < k -> classify c a (s * k) = map (scale_edge k) (classify c a s).
Proof.
  intros Hk. unfold classify.
  destruct (Py.ltb (Rabs (LastParameter c - FirstParameter c)) 1e-3); [reflexivity | ].
  destruct (GetType c).
  - destruct (_drop_axis (Value c (FirstParameter c)) a) as [u1 v1].
    destruct (_drop_axis (Value c (LastParameter c)) a) as [u2 v2].
    cbn [map scale_edge]. do 2 f_equal; ring.
  - destruct (_drop_axis (Location c) a) as [cx cy].
    destruct (_drop_axis (Value c (FirstParameter c)) a) as [u1 v1].
    destruct (_drop_axis (Value c (LastParameter c)) a) as [u2 v2].
    destruct (Py.ltb _ 1e-6).
    + cbn [map scale_edge]. do 2 f_equal; ring.
    + destruct (_drop_axis (Value c ((FirstParameter c + LastParameter c) / 2)) a)
        as [um vm].
      replace (v1 * (s * k) - cy * (s * k)) with (k * (v1 * s - cy * s)) by ring.
      replace (u1 * (s * k) - cx * (s * k)) with (k * (u1 * s - cx * s)) by ring.
      replace (v2 * (s * k) - cy * (s * k)) with (k * (v2 * s - cy * s)) by ring.
      replace (u2 * (s * k) - cx * (s * k)) with (k * (u2 * s - cx * s)) by ring.
      replace (vm * (s * k) - cy * (s * k)) with (k * (vm * s - cy * s)) by ring.
      replace (um * (s * k) - cx * (s * k)) with (k * (um * s - cx * s)) by ring.
      rewrite !atan2_scale by exact Hk.
      cbn [map scale_edge]. do 2 f_equal; ring.
  - cbn [map scale_edge]. do 2 f_equal. rewrite map_map. apply map_ext.
    intros i. destruct (_drop_axis _ a) as [u v]. cbn [fst snd]. f_equal; ring.
Qed.

(** X6.  Multiplying the unit factor by [k > 0] multiplies every
    coordinate and radius of the primitives by [k] and leaves the start
    angles and sweeps of the arcs as they are. *)
Theorem unit_factor_scales_lengths
  (wire : list curve) (a : axis) (k s : R) :
  0 < k ->
  _extract_edges_from_wire wire a (s * k)
  = map (scale_edge k) (_extract_edges_from_wire wire a s).
Proof.
  intros Hk. unfold _extract_edges_from_wire.
  induction wire as [ | c wire IH]; cbn [flat_map map]; [reflexivity | ].
  now rewrite map_app, classify_scale, IH.
Qed.

Lemma unit_factor_scales_lengths_witness :
  _extract_edges_from_wire (outerWire plate_top) Z (1 * 25.4)
  = map (scale_edge 25.4) (_extract_edges_from_wire (outerWire plate_top) Z 1).
Proof.
  apply (unit_factor_scales_lengths (outerWire plate_top) Z 25.4 1). lra.
Defined.

(** ** projection.py: what [extract_profile] returns *)

Lemma best_of_in (fs : list face) (f : face) : best_of fs = Some f -> In f fs.
Proof.
  destruct fs as [ | g fs]; cbn [best_of]; [discriminate | ].
  intros H. injection H as <-. apply (max_by_from_spec g fs).
Qed.

Lemma candidate_in (s : shape) (a : axis) (f : face) :
  In f (candidate_faces s a) -> In f (faces s).
Proof. unfold candidate_faces. intros H. now apply filter_In in H. Qed.

Lemma axis_loop_some (s : shape) (u : R) (axes : list axis) (p : ProfileResult) :
  axis_loop s u axes = Some p ->
  exists f a, In a axes /\ In f (faces s) /\ p = profile_of s f a u
              /\ _is_rectangle (all_edges f a u) = false.
Proof.
  induction axes as [ | a axes IH]; cbn [axis_loop]; [discriminate | ].
  destruct (best_of (candidate_faces s a)) as [f | ] eqn:Hf.
  - destruct (_is_rectangle (all_edges f a u)) eqn:Hr.
    + intros H. destruct (IH H) as (g & b & Hb & Hg & Hp & Hn).
      exists g, b. repeat split; try assumption. now right.
    + intros H. injection H as <-. exists f, a. repeat split; try assumption.
      * now left.
      * now apply candidate_in with a, best_of_in.
  - intros H. destruct (IH H) as (g & b & Hb & Hg & Hp & Hn).
    exists g, b. repeat split; try assumption. now right.
Qed.

Lemma axis_loop_none (s : shape) (u : R) (axes : list axis) :
  axis_loop s u axes = None -> Forall (skipped s u) axes.
Proof.
  induction axes as [ | a axes IH]; cbn [axis_loop]; [constructor | ].
  unfold skipped at 1.
  destruct (best_of (candidate_faces s a)) as [f | ] eqn:Hf.
  - destruct (_is_rectangle (all_edges f a u)) eqn:Hr; [ | discriminate].
    intros H. constructor; [ | now apply IH]. unfold skipped. now rewrite Hf.
  - intros H. constructor; [ | now apply IH]. unfold skipped. now rewrite Hf.
Qed.

Lemma fallback_ok (s : shape) (u : R) (p : ProfileResult) :
  fallback s u = Ok p ->
  exists f a rest, axes_sorted s = a :: rest /\ In f (faces s)
                   /\ p = profile_of s f a u.
Proof.
  unfold fallback. destruct (axes_sorted_nonempty s) as (a & rest & Ha).
  rewrite Ha. cbn [Py.first bind].
  destruct (best_of (candidate_faces s a)) as [f | ] eqn:Hf.
  - cbn [bind]. intros H. injection H as <-. exists f, a, rest.
    repeat split. now apply candidate_in with a, best_of_in.
  - destruct (faces s) as [ | f fs] eqn:Hfs; cbn [Py.first bind]; [discriminate | ].
    intros H. injection H as <-. exists f, a, rest. repeat split. now left.
Qed.

Lemma extract_profile_ok (s : shape) (u : R) (p : ProfileResult) :
  extract_profile s u = Ok p ->
  exists f a, In f (faces s) /\ p = profile_of s f a u.
Proof.
  unfold extract_profile.
  destruct (axis_loop s u (axes_sorted s)) as [q | ] eqn:Hl.
  - intros H. injection H as <-.
    destruct (axis_loop_some _ _ _ _ Hl) as (f & a & _ & Hf & Hp & _).
    now exists f, a.
  - intros H. destruct (fallback_ok _ _ _ H) as (f & a & rest & _ & Hf & Hp).
    now exists f, a.
Qed.

(** X7.  Every profile [extract_profile] returns is built from one face of
    the solid: its flattened edge list is the concatenation of its wires,
    the first wire is the outer boundary of that face and the others are
    its holes, one per inner wire and in their order, and its thickness is
    the extent of the solid along the returned axis times the unit
    factor. *)
Theorem profile_is_one_face (s : shape) (u : R) (p : ProfileResult) :
  extract_profile s u = Ok p ->
  projection.edges p = concat (projection.wires p)
  /\ projection.thickness_inches p = extents s (extrusion_axis p) * u
  /\ exists f,
       In f (faces s)
       /\ projection.wires p
          = _extract_edges_from_wire (outerWire f) (extrusion_axis p) u
            :: map (fun iw => _extract_edges_from_wire iw (extrusion_axis p) u)
                   (innerWires f).
Proof.
  intros H. destruct (extract_profile_ok s u p H) as (f & a & Hf & ->).
  cbn [profile_of projection.edges projection.wires projection.thickness_inches
       extrusion_axis concat].
  split; [reflexivity | ]. split; [reflexivity | ].
  exists f. split; [exact Hf | reflexivity].
Qed.

Lemma profile_is_one_face_witness :
  projection.edges (profile_of bar (triangle_at 0 (-1)) Z 1)
  = concat (projection.wires (profile_of bar (triangle_at 0 (-1)) Z 1))
  /\ projection.thickness_inches (profile_of bar (triangle_at 0 (-1)) Z 1)
     = extents bar (extrusion_axis (profile_of bar (triangle_at 0 (-1)) Z 1)) * 1
  /\ exists f,
       In f (faces bar)
       /\ projection.wires (profile_of bar (triangle_at 0 (-1)) Z 1)
          = _extract_edges_from_wire
              (outerWire f)
              (extrusion_axis (profile_of bar (triangle_at 0 (-1)) Z 1)) 1
            :: map (fun iw =>
                      _extract_edges_from_wire
                        iw (extrusion_axis (profile_of bar (triangle_at 0 (-1)) Z 1)) 1)
                   (innerWires f).
Proof.
  apply (profile_is_one_face bar 1).
  unfold extract_profile. rewrite bar_axes.
  change [Y; X; Z] with ([Y; X] ++ [Z]).
  rewrite (axis_loop_skip bar 1 [Y; X] [Z])
    by (constructor; [exact bar_skipped_Y | constructor; [exact bar_skipped_X | constructor]]).
  now rewrite (axis_loop_accept bar 1 Z [] _ bar_best_Z bar_triangle_kept).
Defined.

Lemma sorted_head_least (s : shape) (a : axis) (rest : list axis) (b : axis) :
  axes_sorted s = a :: rest -> extents s a <= extents s b.
Proof.
  intros Ha. destruct (axes_sorted_order s) as [Hs Hp]. rewrite Ha in Hs, Hp.
  assert (Hb : In b (a :: rest)).
  { apply (Permutation_in b Hp). destruct b; cbn; tauto. }
  destruct Hb as [<- | Hb]; [lra | ].
  inversion Hs as [ | ? ? _ Hall]; subst.
  rewrite Forall_forall in Hall. specialize (Hall b Hb).
  unfold before in Hall. lra.
Qed.

(** X8.  A profile that is a plain rectangle is only ever returned by the
    fallback: every axis was passed over in the loop, and the returned axis
    is one of smallest extent. *)
Theorem rectangle_only_on_thinnest_axis (s : shape) (u : R) (p : ProfileResult) :
  extract_profile s u = Ok p ->
  _is_rectangle (projection.edges p) = true ->
  Forall (skipped s u) (axes_sorted s)
  /\ forall b, extents s (extrusion_axis p) <= extents s b.
Proof.
  unfold extract_profile.
  destruct (axis_loop s u (axes_sorted s)) as [q | ] eqn:Hl.
  - intros H Hr. injection H as <-.
    destruct (axis_loop_some _ _ _ _ Hl) as (f & a & _ & _ & -> & Hn).
    cbn [profile_of projection.edges] in Hr. congruence.
  - intros H _. split; [now apply axis_loop_none | ].
    destruct (fallback_ok _ _ _ H) as (f & a & rest & Ha & _ & ->).
    intros b. cbn [profile_of extrusion_axis]. now apply sorted_head_least with rest.
Qed.

Lemma slab_axes : axes_sorted slab = [Y; X; Z].
Proof.
  rewrite axes_sorted_cases. cbv zeta.
  cbn [extents slab xmin xmax ymin ymax zmin zmax].
  repeat destruct (Rle_dec _ _); first [reflexivity | exfalso; lra].
Qed.

Lemma slab_profile :
  extract_profile slab 1 = Ok (profile_of slab (side (0, 0) (4, 0) (0, -1, 0) 40) Y 1).
Proof.
  assert (HY : candidate_faces slab Y = [side (0, 0) (4, 0) (0, -1, 0) 40]).
  { unfold candidate_faces. cbn [slab faces filter]. eval_parallel. reflexivity. }
  assert (HX : candidate_faces slab X = []).
  { unfold candidate_faces. cbn [slab faces filter]. eval_parallel. reflexivity. }
  assert (HZ : candidate_faces slab Z = []).
  { unfold candidate_faces. cbn [slab faces filter]. eval_parallel. reflexivity. }
  assert (Hr : _is_rectangle (all_edges (side (0, 0) (4, 0) (0, -1, 0) 40) Y 1) = true).
  { apply bar_side_rejected. left. split; reflexivity. }
  unfold extract_profile. rewrite slab_axes. cbn [axis_loop].
  rewrite HY, HX, HZ. cbn [best_of Py.max_by_from]. rewrite Hr.
  unfold fallback. rewrite slab_axes. cbn [Py.first bind].
  rewrite HY. reflexivity.
Qed.

Lemma rectangle_only_on_thinnest_axis_witness :
  Forall (skipped slab 1) (axes_sorted slab)
  /\ forall b,
       extents slab
               (extrusion_axis (profile_of slab (side (0, 0) (4, 0) (0, -1, 0) 40) Y 1))
       <= extents slab b.
Proof.
  apply (rectangle_only_on_thinnest_axis slab 1 _ slab_profile).
  cbn [profile_of projection.edges].
  apply bar_side_rejected. left. split; reflexivity.
Defined.

Lemma max_by_from_first (best : face) (fs : list face) :
  let m := Py.max_by_from _face_area best fs in
  exists pre post,
    best :: fs = pre ++ m :: post
    /\ Forall (fun g => _face_area g < _face_area m) pre
    /\ Forall (fun g => _face_area g <= _face_area m) post.
Proof.
  revert best. induction fs as [ | x fs IH]; intros best; cbn [Py.max_by_from].
  - exists [], []. repeat split; constructor.
  - destruct (Rlt_dec (_face_area best) (_face_area x)) as [L | L].
    + destruct (IH x) as (pre & post & E & Hpre & Hpost).
      destruct (max_by_from_spec x fs) as [_ Hx].
      apply Forall_inv in Hx.
      revert E Hpre Hpost Hx.
      generalize (Py.max_by_from _face_area x fs). intros m E Hpre Hpost Hx.
      exists (best :: pre), post. cbn [app]. rewrite E. split; [reflexivity | ].
      split; [ | exact Hpost]. constructor; [lra | exact Hpre].
    + destruct (IH best) as (pre & post & E & Hpre & Hpost).
      revert E Hpre Hpost.
      generalize (Py.max_by_from _face_area best fs). intros m E Hpre Hpost.
      destruct pre as [ | y pre]; cbn [app] in E; injection E as E1 E2.
      * exists [], (x :: post). cbn [app]. subst m fs.
        split; [reflexivity | ]. split; [constructor | ].
        constructor; [lra | exact Hpost].
      * subst y fs. exists (best :: x :: pre), post. cbn [app].
        split; [reflexivity | ]. inversion Hpre; subst.
        split; [ | exact Hpost]. constructor; [assumption | ].
        constructor; [lra | assumption].
Qed.

(** X9.  The face the selection takes for an axis is a face of largest
    area among the planar faces whose normal is parallel to the axis, and
    the first such face in the order in which the kernel lists them. *)
Theorem largest_face_first (s : shape) (a : axis) (f : face) :
  best_of (candidate_faces s a) = Some f ->
  exists pre post,
    candidate_faces s a = pre ++ f :: post
    /\ Forall (fun g => _face_area g < _face_area f) pre
    /\ Forall (fun g => _face_area g <= _face_area f) post.
Proof.
  destruct (candidate_faces s a) as [ | g fs]; cbn [best_of]; [discriminate | ].
  intros H. injection H as <-. apply max_by_from_first.
Qed.

Lemma largest_face_first_witness :
  exists pre post,
    candidate_faces bar Z = pre ++ triangle_at 0 (-1) :: post
    /\ Forall (fun g => _face_area g < _face_area (triangle_at 0 (-1))) pre
    /\ Forall (fun g => _face_area g <= _face_area (triangle_at 0 (-1))) post.
Proof. exact (largest_face_first bar Z _ bar_best_Z). Defined.

(** ** projection.py: [_is_rectangle] on rectangles *)

(** X10.  [_is_rectangle] accepts the four sides of every rectangle, given
    in order round the loop, whatever its position, orientation and size. *)
Theorem rectangle_is_recognised (p u v : R * R) :
  fst u * fst v + snd u * snd v = 0 ->
  _is_rectangle (rectangle_lines p u v) = true.
Proof.
  intros H. unfold rectangle_lines. apply is_rectangle_four.
  - repeat constructor.
  - destruct p as [px py], u as [ux uy], v as [vx vy]. cbn [fst snd] in *.
    repeat split; apply near_perpendicular_dot0;
      cbv [direction np_dot fst snd]; nra.
Qed.

Lemma rectangle_is_recognised_witness :
  _is_rectangle (rectangle_lines (1, 2) (3, 4) (-4, 3)) = true.
Proof.
  apply (rectangle_is_recognised (1, 2) (3, 4) (-4, 3)). cbn [fst snd]. lra.
Defined.

(** ** optimizer.py: the profile is moved as a whole *)

Import motion_statements.

Lemma optimize_rotation_inv
  (mrr : list (R * R) -> option ((R * R) * (R * R))) (p : ProfileResult)
  (op : OptimizedProfile) :
  optimizer.optimize_rotation mrr p = Ok op ->
  exists angle,
    optimizer._find_optimal_angle
      mrr (optimizer._sample_points (projection.edges p)) = Ok angle
    /\ let phi := - angle in
       let pts := optimizer._sample_points (rotated_by phi (projection.edges p)) in
       exists x0 x1 y0 y1,
         Py.min (map fst pts) = Ok x0 /\ Py.max (map fst pts) = Ok x1
         /\ Py.min (map snd pts) = Ok y0 /\ Py.max (map snd pts) = Ok y1
         /\ op = {| optimizer.edges :=
                      map (fun e => _translate_edge e (- x0) (- y0))
                          (rotated_by phi (projection.edges p));
                    optimizer.wires :=
                      map (fun w => map (fun e => _translate_edge e (- x0) (- y0)) w)
                          (map (rotated_by phi) (projection.wires p));
                    bbox_w := x1 - x0;
                    bbox_h := y1 - y0;
                    rotation_deg := phi;
                    optimizer.thickness_inches := projection.thickness_inches p |}.
Proof.
  intros H. unfold optimizer.optimize_rotation in H.
  destruct (optimizer._find_optimal_angle
              mrr (optimizer._sample_points (projection.edges p)))
    as [angle | ex]; [ | discriminate].
  exists angle. split; [reflexivity | ]. intros phi pts.
  cbn [bind] in H.
  fold phi in H. fold (rotated_by phi (projection.edges p)) in H. fold pts in H.
  destruct (Py.min (map fst pts)) as [x0 | ] eqn:Hx0; [ | discriminate].
  destruct (Py.max (map fst pts)) as [x1 | ] eqn:Hx1; [ | discriminate].
  destruct (Py.min (map snd pts)) as [y0 | ] eqn:Hy0; [ | discriminate].
  destruct (Py.max (map snd pts)) as [y1 | ] eqn:Hy1; [ | discriminate].
  cbn [bind] in H. injection H as <-.
  exists x0, x1, y0, y1. repeat split; reflexivity.
Qed.

(** The call returns when a point is sampled and the angle is found, which
    it is with fewer than three points, and with a rectangle from shapely. *)
Lemma optimize_rotation_defined
  (mrr : list (R * R) -> option ((R * R) * (R * R))) (p : ProfileResult) :
  optimizer._sample_points (projection.edges p) <> [] ->
  (length (optimizer._sample_points (projection.edges p)) < 3)%nat
  \/ mrr (optimizer._sample_points (projection.edges p)) <> None ->
  exists op, optimizer.optimize_rotation mrr p = Ok op.
Proof.
  intros Hne Hmrr.
  destruct (find_optimal_angle_cases
              mrr (optimizer._sample_points (projection.edges p)))
    as [[_ H] | [(_ & k0 & k1 & _ & H) | (Hn & Hm & _)]].
  - destruct (optimize_rotation_returns mrr p _ H Hne)
      as (x0 & x1 & y0 & y1 & _ & _ & _ & _ & Hop).
    eexists. exact Hop.
  - destruct (optimize_rotation_returns mrr p _ H Hne)
      as (x0 & x1 & y0 & y1 & _ & _ & _ & _ & Hop).
    eexists. exact Hop.
  - destruct Hmrr as [Hlt | Hs]; [lia | contradiction].
Qed.

Lemma one_line_has_result :
  exists op, optimizer.optimize_rotation (fun _ => Some ((0, 0), (1, 0))) one_line = Ok op.
Proof. apply optimize_rotation_defined; [discriminate | right; discriminate]. Qed.

Lemma motion_rigid (phi dx dy : R) : rigid (motion phi dx dy).
Proof.
  intros [px py] [qx qy].
  unfold motion, shift, rotate, dist2, _rotate_point. cbn [fst snd].
  pose proof (sin2_cos2 (Py.radians phi)) as H. unfold Rsqr in H.
  set (c := cos (Py.radians phi)) in *. set (s := sin (Py.radians phi)) in *.
  replace ((px * c - py * s + dx - (qx * c - qy * s + dx))
           * (px * c - py * s + dx - (qx * c - qy * s + dx))
           + (px * s + py * c + dy - (qx * s + qy * c + dy))
             * (px * s + py * c + dy - (qx * s + qy * c + dy)))
    with (((px - qx) * (px - qx) + (py - qy) * (py - qy)) * (s * s + c * c))
    by ring.
  rewrite H. ring.
Qed.

Lemma rotate_edge_moved (phi : R) (e : edge) :
  moved_by (rotate phi) phi e
           (_rotate_edge e (cos (Py.radians phi)) (sin (Py.radians phi))).
Proof.
  destruct e; cbn [_rotate_edge _rotate_point moved_by]; unfold rotate;
    cbn [fst snd _rotate_point].
  - split; reflexivity.
  - split; reflexivity.
  - repeat split; try reflexivity.
    destruct (angle_offset_congruent phi) as (k & _ & E).
    exists k. rewrite E. ring.
  - reflexivity.
Qed.

Lemma translate_edge_moved (T : R * R -> R * R) (phi dx dy : R) (e e' : edge) :
  moved_by T phi e e' ->
  moved_by (fun p => shift dx dy (T p)) phi e (_translate_edge e' dx dy).
Proof.
  destruct e, e'; cbn [moved_by _translate_edge]; try contradiction.
  - intros [H1 H2]. rewrite <- H1, <- H2. split; reflexivity.
  - intros [H1 ->]. rewrite <- H1. split; reflexivity.
  - intros (H0 & -> & -> & H1 & H2 & k & ->).
    rewrite <- H0, <- H1, <- H2. repeat split; try reflexivity.
    exists k. reflexivity.
  - intros ->. now rewrite map_map.
Qed.

Lemma moved_edges (phi dx dy : R) (es : list edge) :
  Forall2 (moved_by (motion phi dx dy) phi) es
          (map (fun e => _translate_edge e dx dy) (rotated_by phi es)).
Proof.
  unfold rotated_by. induction es as [ | e es IH]; cbn [map]; constructor.
  - apply (translate_edge_moved (rotate phi)). apply rotate_edge_moved.
  - exact IH.
Qed.

Lemma moved_wires (phi dx dy : R) (ws : list (list edge)) :
  Forall2 (Forall2 (moved_by (motion phi dx dy) phi)) ws
          (map (fun w => map (fun e => _translate_edge e dx dy) w)
               (map (rotated_by phi) ws)).
Proof.
  induction ws as [ | w ws IH]; cbn [map]; constructor.
  - apply moved_edges.
  - exact IH.
Qed.

(** X11.  [optimize_rotation] moves the profile as a whole: there is one
    rigid motion of the plane, the rotation by [rotation_deg] followed by a
    translation, that carries every edge of the input to the edge at the
    same position of the output, in [edges] and in every wire of [wires]:
    stored points are mapped by the motion, radii and sweeps are kept, and
    the start angle of an arc advances by [rotation_deg] up to whole
    turns.  The thickness is passed through, and [edges] is again the
    concatenation of [wires] if it was so in the input. *)
Theorem optimize_rotation_is_a_motion
  (mrr : list (R * R) -> option ((R * R) * (R * R))) (p : ProfileResult)
  (op : OptimizedProfile) :
  optimizer.optimize_rotation mrr p = Ok op ->
  exists dx dy,
    let T := motion (rotation_deg op) dx dy in
    rigid T
    /\ Forall2 (moved_by T (rotation_deg op)) (projection.edges p) (optimizer.edges op)
    /\ Forall2 (Forall2 (moved_by T (rotation_deg op)))
               (projection.wires p) (optimizer.wires op)
    /\ optimizer.thickness_inches op = projection.thickness_inches p
    /\ (projection.edges p = concat (projection.wires p) ->
        optimizer.edges op = concat (optimizer.wires op)).
Proof.
  intros H. destruct (optimize_rotation_inv mrr p op H)
    as (angle & _ & x0 & x1 & y0 & y1 & _ & _ & _ & _ & ->).
  cbn [optimizer.edges optimizer.wires rotation_deg optimizer.thickness_inches].
  exists (- x0), (- y0). cbv zeta.
  split; [apply motion_rigid | ].
  split; [apply moved_edges | ].
  split.
  - apply moved_wires.
  - split; [reflexivity | ].
    intros ->. unfold rotated_by. rewrite !concat_map, !map_map. reflexivity.
Qed.

Lemma optimize_rotation_is_a_motion_witness :
  exists op,
    optimizer.optimize_rotation (fun _ => Some ((0, 0), (1, 0))) one_line = Ok op
    /\ exists dx dy,
         let T := motion (rotation_deg op) dx dy in
         rigid T
         /\ Forall2 (moved_by T (rotation_deg op))
                    (projection.edges one_line) (optimizer.edges op)
         /\ Forall2 (Forall2 (moved_by T (rotation_deg op)))
                    (projection.wires one_line) (optimizer.wires op)
         /\ optimizer.thickness_inches op = projection.thickness_inches one_line
         /\ (projection.edges one_line = concat (projection.wires one_line) ->
             optimizer.edges op = concat (optimizer.wires op)).
Proof.
  destruct one_line_has_result as [op H]. exists op. split; [exact H | ].
  exact (optimize_rotation_is_a_motion _ one_line op H).
Defined.

(** ** optimizer.py: the sample points of a rotated edge *)

Import profile_examples.

Lemma rotated_sample (phi a cx cy r : R) (k : BinNums.Z) :
  let c := cos (Py.radians phi) in
  let s := sin (Py.radians phi) in
  (cx * c - cy * s + r * cos (a + Py.radians phi + 2 * IZR k * PI),
   cx * s + cy * c + r * sin (a + Py.radians phi + 2 * IZR k * PI))
  = rotate phi (cx + r * cos a, cy + r * sin a).
Proof.
  cbv zeta. destruct (sin_cos_period_Z (a + Py.radians phi) k) as [Hs Hc].
  rewrite Hs, Hc, cos_plus, sin_plus.
  unfold rotate, _rotate_point. cbn [fst snd]. f_equal; ring.
Qed.

(** X12.  Rotating an edge and sampling it gives, for a line, an arc and a
    polyline, the rotated sample points of the edge; for a circle it gives
    the sample points of the circle moved along with the centre, since the
    64 sampling angles start at 0 whatever the rotation. *)
Theorem rotated_edge_samples (phi : R) (e : edge) :
  edge_points (_rotate_edge e (cos (Py.radians phi)) (sin (Py.radians phi)))
  = points_after_rotation phi e.
Proof.
  destruct e as [x1 y1 x2 y2 | cx cy r | cx cy r s w x1 y1 x2 y2 | pts];
    cbn [_rotate_edge _rotate_point points_after_rotation edge_points].
  - reflexivity.
  - unfold rotate. cbn [fst snd _rotate_point].
    rewrite map_map. apply map_ext. intros i. unfold shift. cbn [fst snd].
    apply f_equal2; ring.
  - unfold _sample_arc_points. rewrite map_app. cbn [map app].
    apply f_equal2; [reflexivity | ]. apply f_equal2; [reflexivity | ].
    rewrite map_map. apply map_ext. intros i.
    destruct (angle_offset_congruent phi) as (k & _ & E). rewrite E.
    rewrite <- (rotated_sample phi _ cx cy r k). cbv zeta.
    apply f_equal2; do 3 f_equal; unfold Py.radians; field;
      apply not_0_INR; unfold Py.max_steps; lia.
  - apply map_ext. intros [x y]. reflexivity.
Qed.

(** ** optimizer.py: the box of a circle *)

Lemma fold_min_spec (l : list R) (x : R) :
  In (fold_left Rmin l x) (x :: l)
  /\ forall y, In y (x :: l) -> fold_left Rmin l x <= y.
Proof.
  revert x. induction l as [ | z l IH]; intros x; cbn [fold_left].
  - split; [now left | ]. intros y [<- | []]. lra.
  - destruct (IH (Rmin x z)) as [Hin Hle]. split.
    + destruct Hin as [E | Hin]; [ | right; now right].
      rewrite <- E. unfold Rmin. destruct (Rle_dec x z); [now left | right; now left].
    + intros y Hy. pose proof (Hle (Rmin x z) (or_introl eq_refl)) as Hm.
      destruct Hy as [<- | [<- | Hy]].
      * pose proof (Rmin_l x z). lra.
      * pose proof (Rmin_r x z). lra.
      * apply Hle. now right.
Qed.

Lemma fold_max_spec (l : list R) (x : R) :
  In (fold_left Rmax l x) (x :: l)
  /\ forall y, In y (x :: l) -> y <= fold_left Rmax l x.
Proof.
  revert x. induction l as [ | z l IH]; intros x; cbn [fold_left].
  - split; [now left | ]. intros y [<- | []]. lra.
  - destruct (IH (Rmax x z)) as [Hin Hle]. split.
    + destruct Hin as [E | Hin]; [ | right; now right].
      rewrite <- E. unfold Rmax. destruct (Rle_dec x z); [right; now left | now left].
    + intros y Hy. pose proof (Hle (Rmax x z) (or_introl eq_refl)) as Hm.
      destruct Hy as [<- | [<- | Hy]].
      * pose proof (Rmax_l x z). lra.
      * pose proof (Rmax_r x z). lra.
      * apply Hle. now right.
Qed.

Lemma min_is_least (l : list R) (m : R) :
  In m l -> (forall y, In y l -> m <= y) -> Py.min l = Ok m.
Proof.
  destruct l as [ | x l]; [intros [] | ]. intros Hin Hle. cbn [Py.min].
  destruct (fold_min_spec l x) as [Hf Hfl].
  f_equal. apply Rle_antisym; [now apply Hfl | now apply Hle].
Qed.

Lemma max_is_greatest (l : list R) (m : R) :
  In m l -> (forall y, In y l -> y <= m) -> Py.max l = Ok m.
Proof.
  destruct l as [ | x l]; [intros [] | ]. intros Hin Hle. cbn [Py.max].
  destruct (fold_max_spec l x) as [Hf Hfl].
  f_equal. apply Rle_antisym; [now apply Hle | now apply Hfl].
Qed.

Lemma min_le_max (l : list R) (lo hi : R) :
  Py.min l = Ok lo -> Py.max l = Ok hi -> lo <= hi.
Proof.
  destruct l as [ | x l]; cbn [Py.min Py.max]; [discriminate | ].
  intros H1 H2. injection H1 as <-. injection H2 as <-.
  pose proof (proj2 (fold_min_spec l x) x (or_introl eq_refl)).
  pose proof (proj2 (fold_max_spec l x) x (or_introl eq_refl)). lra.
Qed.

Lemma sample_angle (i : nat) (q : R) :
  INR i = 16 * q -> 2 * PI * INR i / 64 = q * (PI / 2).
Proof. intros ->. field. Qed.

Lemma INR_16 : INR 16 = 16 * 1.
Proof. rewrite INR_IZR_INZ. cbn. lra. Qed.

Lemma INR_32 : INR 32 = 16 * 2.
Proof. rewrite INR_IZR_INZ. cbn. lra. Qed.

Lemma INR_48 : INR 48 = 16 * 3.
Proof. rewrite INR_IZR_INZ. cbn. lra. Qed.

Lemma INR_0 : INR 0 = 16 * 0.
Proof. cbn. lra. Qed.

Lemma cos_sin_quarters :
  (cos (0 * (PI / 2)) = 1 /\ sin (0 * (PI / 2)) = 0)
  /\ (cos (1 * (PI / 2)) = 0 /\ sin (1 * (PI / 2)) = 1)
  /\ (cos (2 * (PI / 2)) = -1 /\ sin (2 * (PI / 2)) = 0)
  /\ (cos (3 * (PI / 2)) = 0 /\ sin (3 * (PI / 2)) = -1).
Proof.
  replace (0 * (PI / 2)) with 0 by ring.
  replace (1 * (PI / 2)) with (PI / 2) by ring.
  replace (2 * (PI / 2)) with PI by field.
  replace (3 * (PI / 2)) with (3 * (PI / 2)) by ring.
  rewrite cos_0, sin_0, cos_PI2, sin_PI2, cos_PI, sin_PI, cos_3PI2, sin_3PI2.
  repeat split; lra.
Qed.

Lemma circle_xs (cx cy r : R) :
  Py.min (map fst (edge_points (Circle2D cx cy r))) = Ok (cx - Rabs r)
  /\ Py.max (map fst (edge_points (Circle2D cx cy r))) = Ok (cx + Rabs r).
Proof.
  cbn [edge_points]. rewrite map_map. cbn [fst].
  destruct cos_sin_quarters as ((C0 & _) & _ & (C2 & _) & _).
  assert (I0 : In 0%nat (seq 0 64)) by (apply in_seq; lia).
  assert (I2 : In 32%nat (seq 0 64)) by (apply in_seq; lia).
  pose proof (in_map (fun i => cx + r * cos (2 * PI * INR i / 64)) _ _ I0) as M0.
  pose proof (in_map (fun i => cx + r * cos (2 * PI * INR i / 64)) _ _ I2) as M2.
  cbv beta in M0, M2.
  rewrite (sample_angle _ _ INR_0), C0 in M0.
  rewrite (sample_angle _ _ INR_32), C2 in M2.
  assert (B : forall y,
             In y (map (fun i => cx + r * cos (2 * PI * INR i / 64)) (seq 0 64)) ->
             cx - Rabs r <= y <= cx + Rabs r).
  { intros y Hy. apply in_map_iff in Hy. destruct Hy as (i & <- & _).
    pose proof (COS_bound (2 * PI * INR i / 64)) as [Hl Hu].
    unfold Rabs. destruct (Rcase_abs r); split; nra. }
  split.
  - apply min_is_least; [ | intros y Hy; apply (B y Hy)].
    unfold Rabs. destruct (Rcase_abs r).
    + replace (cx - - r) with (cx + r * 1) by ring. exact M0.
    + replace (cx - r) with (cx + r * -1) by ring. exact M2.
  - apply max_is_greatest; [ | intros y Hy; apply (B y Hy)].
    unfold Rabs. destruct (Rcase_abs r).
    + replace (cx + - r) with (cx + r * -1) by ring. exact M2.
    + replace (cx + r) with (cx + r * 1) by ring. exact M0.
Qed.

Lemma circle_ys (cx cy r : R) :
  Py.min (map snd (edge_points (Circle2D cx cy r))) = Ok (cy - Rabs r)
  /\ Py.max (map snd (edge_points (Circle2D cx cy r))) = Ok (cy + Rabs r).
Proof.
  cbn [edge_points]. rewrite map_map. cbn [snd].
  destruct cos_sin_quarters as (_ & (_ & S1) & _ & (_ & S3)).
  assert (I1 : In 16%nat (seq 0 64)) by (apply in_seq; lia).
  assert (I3 : In 48%nat (seq 0 64)) by (apply in_seq; lia).
  pose proof (in_map (fun i => cy + r * sin (2 * PI * INR i / 64)) _ _ I1) as M1.
  pose proof (in_map (fun i => cy + r * sin (2 * PI * INR i / 64)) _ _ I3) as M3.
  cbv beta in M1, M3.
  rewrite (sample_angle _ _ INR_16), S1 in M1.
  rewrite (sample_angle _ _ INR_48), S3 in M3.
  assert (B : forall y,
             In y (map (fun i => cy + r * sin (2 * PI * INR i / 64)) (seq 0 64)) ->
             cy - Rabs r <= y <= cy + Rabs r).
  { intros y Hy. apply in_map_iff in Hy. destruct Hy as (i & <- & _).
    pose proof (SIN_bound (2 * PI * INR i / 64)) as [Hl Hu].
    unfold Rabs. destruct (Rcase_abs r); split; nra. }
  split.
  - apply min_is_least; [ | intros y Hy; apply (B y Hy)].
    unfold Rabs. destruct (Rcase_abs r).
    + replace (cy - - r) with (cy + r * 1) by ring. exact M1.
    + replace (cy - r) with (cy + r * -1) by ring. exact M3.
  - apply max_is_greatest; [ | intros y Hy; apply (B y Hy)].
    unfold Rabs. destruct (Rcase_abs r).
    + replace (cy + - r) with (cy + r * -1) by ring. exact M3.
    + replace (cy + r) with (cy + r * 1) by ring. exact M1.
Qed.

(** The angle [_find_optimal_angle] returns lies in (-180, 180] on real
    numbers; it is found with fewer than three points and with a rectangle
    from shapely. *)
Lemma find_optimal_angle_range
  (mrr : list (R * R) -> option ((R * R) * (R * R))) (pts : list (R * R))
  (angle : R) :
  optimizer._find_optimal_angle mrr pts = Ok angle -> -180 < angle <= 180.
Proof.
  unfold optimizer._find_optimal_angle.
  destruct (length pts <? 3)%nat.
  - intros H. injection H as <-. lra.
  - destruct (mrr pts) as [[k0 k1] | ]; [ | discriminate].
    intros H. injection H as <-. apply degrees_range. apply atan2_range.
Qed.

Lemma find_optimal_angle_found
  (mrr : list (R * R) -> option ((R * R) * (R * R))) (pts : list (R * R)) :
  (length pts < 3)%nat \/ mrr pts <> None ->
  exists angle, optimizer._find_optimal_angle mrr pts = Ok angle.
Proof.
  intros Hmrr.
  destruct (find_optimal_angle_cases mrr pts)
    as [[_ H] | [(_ & k0 & k1 & _ & H) | (Hn & Hm & _)]];
    [eexists; exact H | eexists; exact H | ].
  destruct Hmrr as [Hlt | Hs]; [lia | contradiction].
Qed.

Lemma circle_samples (cx cy r : R) :
  length (optimizer._sample_points [Circle2D cx cy r]) = 64%nat.
Proof.
  cbn [optimizer._sample_points flat_map optimizer.edge_points].
  rewrite app_nil_r, length_map, length_seq. reflexivity.
Qed.

(** X13.  A profile that is one circle of radius [r] is sampled at 64
    points.  When shapely gives a rectangle for them, the profile comes out
    of [optimize_rotation] as the circle about [(|r|, |r|)] in a box of
    [2|r|] by [2|r|], whatever the angle of the rectangle: the 64 sample
    points of a circle include its four extreme points, so the box of the
    samples is the box of the circle.  When shapely gives no polygon for
    them, as for the 64 equal points of a circle of radius 0, the call
    raises [AttributeError]. *)
Theorem circle_profile_box
  (mrr : list (R * R) -> option ((R * R) * (R * R))) (p : ProfileResult) (cx cy r : R) :
  projection.edges p = [Circle2D cx cy r] ->
  (mrr (optimizer._sample_points (projection.edges p)) <> None ->
   exists op,
     optimizer.optimize_rotation mrr p = Ok op
     /\ optimizer.edges op = [Circle2D (Rabs r) (Rabs r) r]
     /\ bbox_w op = 2 * Rabs r /\ bbox_h op = 2 * Rabs r)
  /\ (mrr (optimizer._sample_points (projection.edges p)) = None ->
      optimizer.optimize_rotation mrr p = Raise AttributeError).
Proof.
  intros He. split.
  - intros Hm.
    destruct (find_optimal_angle_found
                mrr (optimizer._sample_points (projection.edges p)) (or_intror Hm))
      as [angle Ha].
    pose proof (optimize_rotation_ok mrr p angle) as Hok.
    specialize (fun x0 x1 y0 y1 => Hok x0 x1 y0 y1 Ha). cbv zeta in Hok.
    set (phi := - angle) in *.
    rewrite He in Hok. unfold rotated_by in Hok.
    cbn [map _rotate_edge _rotate_point _sample_points flat_map] in Hok.
    rewrite app_nil_r in Hok.
    set (cx' := cx * cos (Py.radians phi) - cy * sin (Py.radians phi)) in *.
    set (cy' := cx * sin (Py.radians phi) + cy * cos (Py.radians phi)) in *.
    destruct (circle_xs cx' cy' r) as [Hx0 Hx1].
    destruct (circle_ys cx' cy' r) as [Hy0 Hy1].
    eexists. split; [exact (Hok _ _ _ _ Hx0 Hx1 Hy0 Hy1) | ].
    cbn [optimizer.edges bbox_w bbox_h map _translate_edge].
    repeat split; [ | ring | ring].
    do 2 f_equal; ring.
  - apply optimize_rotation_no_polygon.
    rewrite He, circle_samples. lia.
Qed.

Lemma circle_profile_box_witness :
  ((fun _ : list (R * R) => Some ((0, 0), (1, 0)))
     (optimizer._sample_points (projection.edges disc)) <> None ->
   exists op,
     optimizer.optimize_rotation (fun _ => Some ((0, 0), (1, 0))) disc = Ok op
     /\ optimizer.edges op = [Circle2D (Rabs 2) (Rabs 2) 2]
     /\ bbox_w op = 2 * Rabs 2 /\ bbox_h op = 2 * Rabs 2)
  /\ ((fun _ : list (R * R) => Some ((0, 0), (1, 0)))
        (optimizer._sample_points (projection.edges disc)) = None ->
      optimizer.optimize_rotation (fun _ => Some ((0, 0), (1, 0))) disc
      = Raise AttributeError).
Proof.
  apply (circle_profile_box (fun _ => Some ((0, 0), (1, 0))) disc 5 5 2). reflexivity.
Defined.

(** ** optimizer.py: the ranges of the result *)

(** X14.  In every result of [optimize_rotation] the box has sides that
    are not negative and the rotation recorded lies between -180 and 180
    degrees. *)
Theorem optimized_profile_ranges
  (mrr : list (R * R) -> option ((R * R) * (R * R))) (p : ProfileResult)
  (op : OptimizedProfile) :
  optimizer.optimize_rotation mrr p = Ok op ->
  0 <= bbox_w op /\ 0 <= bbox_h op /\ -180 <= rotation_deg op <= 180.
Proof.
  intros H. destruct (optimize_rotation_inv mrr p op H)
    as (angle & Ha & x0 & x1 & y0 & y1 & Hx0 & Hx1 & Hy0 & Hy1 & ->).
  cbn [bbox_w bbox_h rotation_deg].
  pose proof (min_le_max _ _ _ Hx0 Hx1).
  pose proof (min_le_max _ _ _ Hy0 Hy1).
  pose proof (find_optimal_angle_range _ _ _ Ha).
  repeat split; lra.
Qed.

Lemma optimized_profile_ranges_witness :
  exists op,
    optimizer.optimize_rotation (fun _ => Some ((0, 0), (1, 0))) one_line = Ok op
    /\ 0 <= bbox_w op /\ 0 <= bbox_h op /\ -180 <= rotation_deg op <= 180.
Proof.
  destruct one_line_has_result as [op H]. exists op. split; [exact H | ].
  exact (optimized_profile_ranges _ one_line op H).
Defined.

(** ** optimizer.py: the stored end points of arcs *)

Lemma moved_keeps_ends (phi dx dy : R) (e e' : edge) :
  moved_by (motion phi dx dy) phi e e' -> ends_on_arc e -> ends_on_arc e'.
Proof.
  destruct e as [ | | cx cy r s w x1 y1 x2 y2 | ],
           e' as [ | | cx' cy' r' s' w' x1' y1' x2' y2' | ];
    cbn [moved_by ends_on_arc]; try tauto.
  unfold motion, shift, rotate, _rotate_point. cbn [fst snd].
  intros (H0 & -> & -> & H1 & H2 & k & ->) (E1 & E2 & E3 & E4).
  injection H0 as -> ->. injection H1 as -> ->. injection H2 as -> ->.
  assert (A1 : Py.radians (s + phi + 360 * IZR k)
               = Py.radians s + Py.radians phi + 2 * IZR k * PI)
    by (unfold Py.radians; field).
  assert (A2 : Py.radians (s + phi + 360 * IZR k + w)
               = Py.radians (s + w) + Py.radians phi + 2 * IZR k * PI)
    by (unfold Py.radians; field).
  rewrite A1, A2.
  destruct (sin_cos_period_Z (Py.radians s + Py.radians phi) k) as [-> ->].
  destruct (sin_cos_period_Z (Py.radians (s + w) + Py.radians phi) k) as [-> ->].
  rewrite !cos_plus, !sin_plus. subst x1 y1 x2 y2.
  repeat split; ring.
Qed.

Lemma moved_keep_ends (phi dx dy : R) (es es' : list edge) :
  Forall2 (moved_by (motion phi dx dy) phi) es es' ->
  Forall ends_on_arc es -> Forall ends_on_arc es'.
Proof.
  induction 1 as [ | e e' es es' He _ IH]; intros Hall; [constructor | ].
  inversion Hall; subst. constructor.
  - now apply (moved_keeps_ends phi dx dy e e').
  - now apply IH.
Qed.

(** X15.  An [Arc2D] stores its end points beside its centre, radius,
    start angle and sweep.  If in every arc of the input the stored end
    points are the points of the circle at the start angle and at the
    start angle plus the sweep, the same holds in every arc of the result
    of [optimize_rotation]: the offset it adds to the start angle,
    [degrees(atan2(sin_a, cos_a))], turns the angles by as much as the
    points. *)
Theorem arcs_stay_consistent
  (mrr : list (R * R) -> option ((R * R) * (R * R))) (p : ProfileResult)
  (op : OptimizedProfile) :
  optimizer.optimize_rotation mrr p = Ok op ->
  Forall ends_on_arc (projection.edges p) ->
  Forall ends_on_arc (optimizer.edges op).
Proof.
  intros H. destruct (optimize_rotation_inv mrr p op H)
    as (angle & _ & x0 & x1 & y0 & y1 & _ & _ & _ & _ & ->).
  cbn [optimizer.edges]. intros Hall.
  exact (moved_keep_ends _ (- x0) (- y0) _ _ (moved_edges _ _ _ _) Hall).
Qed.

Lemma half_disc_has_result :
  exists op, optimizer.optimize_rotation (fun _ => Some ((0, 0), (1, 0))) half_disc = Ok op.
Proof. apply optimize_rotation_defined; [discriminate | right; discriminate]. Qed.

Lemma arcs_stay_consistent_witness :
  exists op,
    optimizer.optimize_rotation (fun _ => Some ((0, 0), (1, 0))) half_disc = Ok op
    /\ Forall ends_on_arc (optimizer.edges op).
Proof.
  destruct half_disc_has_result as [op H]. exists op. split; [exact H | ].
  apply (arcs_stay_consistent _ half_disc op H).
  constructor; [ | constructor; [exact I | constructor]].
  repeat split; reflexivity.
Defined.

(** ** dxf_min_bound/main.py: sampling *)

Import dxf_statements.

Lemma span_positive (sa ea : R) :
  let span := Py.mod_ (ea - sa) 360 in
  let span' := if Py.eqb span 0 then 360 else span in
  0 < span' <= 360 /\ exists k : BinNums.Z, sa + span' = ea + 360 * IZR k.
Proof.
  cbv zeta. pose proof (mod_range (ea - sa) 360 ltac:(lra)) as Hr.
  destruct (mod_turns (ea - sa)) as [k Hk].
  unfold Py.eqb. destruct (Req_dec_T (Py.mod_ (ea - sa) 360) 0) as [E | E].
  - split; [lra | ]. exists (k + 1)%Z. rewrite plus_IZR. lra.
  - split; [lra | ]. exists k. lra.
Qed.

Lemma seq_ends (m : nat) : seq 0 (S m + 1) = 0%nat :: seq 1 m ++ [S m].
Proof.
  replace (S m + 1)%nat with (S (m + 1)) by lia. cbn [seq].
  now rewrite seq_app.
Qed.

(** X16.  On the entity that stands for a primitive, the sampler of the
    DXF tool reads the same points as the sampler of the optimizer reads
    on the primitive, up to their order: for an arc the tool walks from
    the start to the end, the optimizer puts the two end points first.
    Entity types the tool does not know give no point. *)
Theorem tool_samples_as_optimizer (e : entity) :
  match as_edge e with
  | Some ed => Permutation (_sample_entity_points e 64) (optimizer.edge_points ed)
  | None => _sample_entity_points e 64 = []
  end.
Proof.
  destruct e as [start end_ | center r | center r sa ea | points | t];
    cbn [as_edge _sample_entity_points optimizer.edge_points].
  1, 4: apply Permutation_refl.
  3: reflexivity.
  { replace (INR 64) with 64 by (rewrite INR_IZR_INZ; reflexivity).
    apply Permutation_refl. }
  cbv zeta. destruct (span_positive sa ea) as [Hs (k & Hk)]. cbv zeta in Hs, Hk.
  set (span := if Py.eqb (Py.mod_ (ea - sa) 360) 0 then 360
               else Py.mod_ (ea - sa) 360) in *.
  unfold optimizer._sample_arc_points.
  rewrite (Rabs_pos_eq span) by lra.
  set (steps := Py.max_steps 8 (Py.int (span / 360 * INR 64))).
  assert (Hsteps : (8 <= steps)%nat) by (unfold steps, Py.max_steps; lia).
  assert (Hn : INR steps <> 0) by (apply not_0_INR; lia).
  destruct steps as [ | m] eqn:Em; [lia | ].
  replace (S m - 1)%nat with m by lia.
  rewrite seq_ends. cbn [map app]. rewrite map_app. cbn [map].
  assert (E0 : Py.radians (sa + span * INR 0 / INR (S m)) = Py.radians sa).
  { change (INR 0) with 0. unfold Py.radians. field. exact Hn. }
  assert (E1 : Py.radians (sa + span * INR (S m) / INR (S m))
               = Py.radians ea + 2 * IZR k * PI).
  { replace (sa + span * INR (S m) / INR (S m)) with (sa + span) by (field; exact Hn).
    rewrite Hk. apply radians_turns. }
  rewrite E0, E1.
  destruct (sin_cos_period_Z (Py.radians ea) k) as [-> ->].
  apply perm_skip.
  eapply Permutation_trans; [apply Permutation_sym, Permutation_cons_append | ].
  apply perm_skip.
  erewrite map_ext; [apply Permutation_refl | ].
  intros i. cbv beta.
  replace (Py.radians (sa + span * INR i / INR (S m)))
    with (Py.radians sa + Py.radians span * INR i / INR (S m))
    by (unfold Py.radians; field; exact Hn).
  reflexivity.
Qed.

Lemma sample_entity_empty (e : entity) :
  _sample_entity_points e 64 = [] <-> no_points e.
Proof.
  destruct e as [start end_ | center r | center r sa ea | points | t];
    cbn [_sample_entity_points no_points].
  - split; [discriminate | tauto].
  - split; [ | tauto]. intros H. apply (f_equal (@length _)) in H.
    rewrite length_map, length_seq in H. discriminate.
  - split; [ | tauto]. intros H. apply (f_equal (@length _)) in H.
    cbv zeta in H. rewrite length_map, length_seq in H. cbn [length] in H. lia.
  - destruct points; cbn [map]; split; try tauto; discriminate.
  - tauto.
Qed.

Lemma flat_map_nil {A B : Type} (f : A -> list B) (l : list A) :
  flat_map f l = [] <-> Forall (fun x => f x = []) l.
Proof.
  induction l as [ | x l IH]; cbn [flat_map].
  - split; [constructor | reflexivity].
  - split.
    + intros H. apply app_eq_nil in H. destruct H as [H1 H2].
      constructor; [exact H1 | now apply IH].
    + intros H. inversion H; subst. rewrite H2. cbn [app]. now apply IH.
Qed.

(** X17.  [process_dxf] raises a [ValueError] exactly when no entity of
    the drawing gives a sample point, that is when every entity is of a
    type the tool does not know or is a polyline without a vertex (in
    particular for an empty drawing).  It raises an [AttributeError]
    exactly when three sample points or more are read and shapely gives no
    polygon for them, as for two lines that lie on one line.  It raises
    nothing else, and in every other case it returns the drawing turned
    back by the angle found. *)
Theorem process_dxf_raises_without_geometry
  (mrr : list (R * R) -> option ((R * R) * (R * R)))
  (extents : list entity -> (R * R * R) * (R * R * R)) (msp : list entity) :
  (process_dxf mrr extents msp = Raise ValueError <-> Forall no_points msp)
  /\ (process_dxf mrr extents msp = Raise AttributeError
      <-> (3 <= length (flat_map (fun e => _sample_entity_points e 64) msp))%nat
          /\ mrr (flat_map (fun e => _sample_entity_points e 64) msp) = None)
  /\ (forall x, process_dxf mrr extents msp = Raise x ->
                x = ValueError \/ x = AttributeError)
  /\ (~ Forall no_points msp ->
      (length (flat_map (fun e => _sample_entity_points e 64) msp) < 3)%nat
      \/ mrr (flat_map (fun e => _sample_entity_points e 64) msp) <> None ->
      exists angle,
        dxf_min_bound._find_optimal_angle
          mrr (flat_map (fun e => _sample_entity_points e 64) msp) = Ok angle
        /\ process_dxf mrr extents msp
           = Ok (_apply_rotation extents msp (- angle))).
Proof.
  assert (E : Forall no_points msp
              <-> flat_map (fun e => _sample_entity_points e 64) msp = []).
  { rewrite flat_map_nil. split; intros H; eapply Forall_impl; try exact H;
      intros e; apply sample_entity_empty. }
  unfold process_dxf.
  destruct (flat_map (fun e => _sample_entity_points e 64) msp) as [ | q qs] eqn:Hq.
  - split; [split; [intros _; now apply E | reflexivity] | ].
    split; [split; [discriminate | intros [Hn _]; cbn [length] in Hn; lia] | ].
    split; [intros x H; injection H as <-; now left | ].
    intros H. exfalso. apply H. now apply E.
  - rewrite find_optimal_angle_same.
    destruct (find_optimal_angle_cases mrr (q :: qs))
      as [[Hl H] | [(Hn & k0 & k1 & Hm & H) | (Hn & Hm & H)]];
      rewrite H; cbn [bind].
    + split; [split; [discriminate | intros H'; apply E in H'; discriminate] | ].
      split; [split; [discriminate | intros [Hn _]; lia] | ].
      split; [discriminate | ].
      intros _ _. eexists. split; reflexivity.
    + split; [split; [discriminate | intros H'; apply E in H'; discriminate] | ].
      split; [split; [discriminate | intros [_ Hm']; congruence] | ].
      split; [discriminate | ].
      intros _ _. eexists. split; reflexivity.
    + split; [split; [discriminate | intros H'; apply E in H'; discriminate] | ].
      split; [split; [intros _; now split | reflexivity] | ].
      split; [intros x Hx; injection Hx as <-; now right | ].
      intros _ [Hl | Hs]; [lia | contradiction].
Qed.

(** ** dxf_min_bound/main.py: what the rotation keeps *)

Lemma rotate_entity_kept (e : entity) (phi c s : R) :
  kept_by_rotation e (rotate_entity e phi c s).
Proof.
  destruct e as [start end_ | center r | center r sa ea | points | t];
    cbn [rotate_entity _rotate_pt kept_by_rotation c2 snd].
  - split; reflexivity.
  - split; reflexivity.
  - pose proof (mod_range (sa + phi) 360 ltac:(lra)).
    pose proof (mod_range (ea + phi) 360 ltac:(lra)).
    repeat split; try reflexivity; try lra.
    apply span_rotated.
  - rewrite map_map. apply map_ext. intros pt. reflexivity.
  - reflexivity.
Qed.

Lemma translate_entity_kept (e e' : entity) (ox oy : R) :
  kept_by_rotation e e' -> kept_by_rotation e (translate_entity e' ox oy).
Proof.
  destruct e as [ | | | pts | ], e' as [ | | | pts' | ];
    cbn [translate_entity kept_by_rotation c2 snd]; try tauto;
    try (intros H; repeat split; solve [apply H | reflexivity]).
  intros <-. rewrite map_map. apply map_ext. intros pt. reflexivity.
Qed.

(** X18.  [_apply_rotation] leaves as many entities as it finds, each of
    the type it had.  It keeps the radius of a circle and of an arc, the
    span of an arc and the bulges of a polyline; the angles of an arc it
    writes lie between 0 and 360; the points it writes for lines, circles and
    arcs have third coordinate 0; an entity of any other type is left as
    it is. *)
Theorem apply_rotation_keeps
  (extents : list entity -> (R * R * R) * (R * R * R))
  (msp : list entity) (angle_deg : R) :
  Forall2 kept_by_rotation msp (fst (_apply_rotation extents msp angle_deg)).
Proof.
  unfold _apply_rotation. cbv zeta. cbn [fst].
  generalize (c0 (fst (extents
    (map (fun e => rotate_entity e angle_deg (cos (Py.radians angle_deg))
                                 (sin (Py.radians angle_deg))) msp)))).
  generalize (c1 (fst (extents
    (map (fun e => rotate_entity e angle_deg (cos (Py.radians angle_deg))
                                 (sin (Py.radians angle_deg))) msp)))).
  intros oy ox.
  induction msp as [ | e msp IH]; cbn [map]; constructor.
  - apply translate_entity_kept, rotate_entity_kept.
  - exact IH.
Qed.

(** ** exporters/dxf_exporter.py *)

Import dxf_exporter.
Import pdf_exporter.
Import export_statements.
Import optimized_examples.

Lemma span_of (a b d : R) :
  0 < d <= 360 -> b - a = d ->
  (if Py.eqb (Py.mod_ (b - a) 360) 0 then 360 else Py.mod_ (b - a) 360) = d.
Proof.
  intros [Hl Hu] ->. destruct (Req_dec d 360) as [-> | Hd].
  - rewrite (mod_shift 360 360 1) by lra.
    rewrite eqb_true by lra. reflexivity.
  - rewrite (mod_small d 360) by lra. rewrite eqb_false by lra. reflexivity.
Qed.

Lemma polyline_points_back (pts : list (R * R)) :
  map (fun p : R * R * R => (c0 p, c1 p)) (map (fun p => (fst p, snd p, 0)) pts) = pts.
Proof.
  rewrite map_map. rewrite <- (map_id pts) at 2. apply map_ext.
  intros [x y]. reflexivity.
Qed.

Lemma export_edge_reads_back (e : edge) :
  sweep_in_range e -> drawable e = true ->
  exists ent ed,
    export_edge e = [ent] /\ as_edge ent = Some ed /\ written_as e ed.
Proof.
  destruct e as [x1 y1 x2 y2 | cx cy r | cx cy r s w x1 y1 x2 y2 | pts];
    cbn [sweep_in_range drawable export_edge]; intros Hw Hd.
  - eexists. eexists. split; [reflexivity | ]. split; reflexivity.
  - eexists. eexists. split; [reflexivity | ]. split; reflexivity.
  - cbv zeta. unfold Py.gtb, Py.ltb. destruct (Rlt_dec 0 w) as [Hpos | Hneg].
    + eexists. eexists. split; [reflexivity | ].
      cbn [as_edge c0 c1 fst snd]. cbv zeta.
      rewrite (span_of s (s + w) w) by (rewrite Rabs_pos_eq in Hw; lra).
      split; [reflexivity | ]. cbn [written_as ends_on_arc].
      rewrite Rabs_pos_eq by lra. unfold Rmin.
      destruct (Rle_dec s (s + w)); [ | lra]. repeat split; reflexivity.
    + assert (Hlt : w < 0).
      { destruct (Req_dec w 0) as [-> | ]; [rewrite Rabs_R0 in Hw | ]; lra. }
      eexists. eexists. split; [reflexivity | ].
      cbn [as_edge c0 c1 fst snd]. cbv zeta.
      rewrite (span_of (s + w) s (- w))
        by (rewrite ?Rabs_left in Hw by lra; lra).
      split; [reflexivity | ]. cbn [written_as ends_on_arc].
      rewrite Rabs_left by lra. unfold Rmin.
      destruct (Rle_dec s (s + w)); [lra | ].
      replace (s + w + - w) with s by ring. repeat split; reflexivity.
  - rewrite Hd. eexists. eexists. split; [reflexivity | ].
    cbn [as_edge]. rewrite polyline_points_back. split; reflexivity.
Qed.

Lemma export_edge_undrawable (e : edge) : drawable e = false -> export_edge e = [].
Proof.
  destruct e; cbn [drawable export_edge]; try discriminate. now intros ->.
Qed.

Lemma exported_edges_read_back (es : list edge) :
  Forall sweep_in_range es ->
  exists es',
    as_edges (flat_map export_edge es) es'
    /\ Forall2 written_as (filter drawable es) es'.
Proof.
  unfold as_edges. induction es as [ | e l IH]; intros Hall.
  - exists []. split; constructor.
  - inversion Hall as [ | ? ? He Hl]; subst.
    destruct (IH Hl) as (es' & H1 & H2).
    cbn [flat_map filter]. destruct (drawable e) eqn:Hd.
    + destruct (export_edge_reads_back e He Hd) as (ent & ed & -> & Ha & Hw).
      exists (ed :: es'). cbn [app]. split; constructor; assumption.
    + rewrite (export_edge_undrawable e Hd). exists es'. split; assumption.
Qed.

(** X19.  Read back entity by entity the way the DXF tool reads a drawing,
    the modelspace [export_dxf] writes holds the edges of the profile in
    their order, without the polylines of fewer than two points: lines,
    circles and polylines as they are; an arc, whose sweep is not zero and
    at most a full turn, as the counter-clockwise arc on the same circle
    over the magnitude of its sweep, so that a clockwise arc is written
    from its end to its start. *)
Theorem export_dxf_reads_back (profile : OptimizedProfile) :
  Forall sweep_in_range (optimizer.edges profile) ->
  exists es,
    as_edges (msp (export_dxf profile)) es
    /\ Forall2 written_as (filter drawable (optimizer.edges profile)) es.
Proof.
  intros H. unfold export_dxf. cbn [msp].
  exact (exported_edges_read_back _ H).
Qed.

Lemma export_dxf_reads_back_witness :
  exists es,
    as_edges (msp (export_dxf half_disc_placed)) es
    /\ Forall2 written_as
               (filter drawable (optimizer.edges half_disc_placed)) es.
Proof.
  apply (export_dxf_reads_back half_disc_placed).
  cbn [half_disc_placed optimizer.edges].
  constructor; [ | repeat constructor].
  cbn [sweep_in_range]. rewrite Rabs_left by lra. lra.
Defined.

(** ** exporters/pdf_exporter.py *)

Lemma div_nonzero (a b : R) : b <> 0 -> div a b = Done (a / b).
Proof. intros H. unfold div. now rewrite eqb_false. Qed.

Lemma div_zero (a : R) : div a 0 = ZeroDivisionError.
Proof. unfold div. now rewrite eqb_true. Qed.

Lemma layout_constants :
  DRAW_AREA_X = 54 /\ DRAW_AREA_Y = 162 /\ DRAW_AREA_W = 504 /\ DRAW_AREA_H = 576.
Proof.
  cbv [DRAW_AREA_X DRAW_AREA_Y DRAW_AREA_W DRAW_AREA_H MARGIN TITLE_BLOCK_H
       PAGE_W PAGE_H inch].
  repeat split; lra.
Qed.

Lemma scale_fits (bw bh : R) :
  0 < bw -> 0 < bh ->
  let scale := Rmin (464 / bw) (546 / bh) in
  0 < scale /\ bw * scale <= 464 /\ bh * scale <= 546
  /\ (bw * scale = 464 \/ bh * scale = 546).
Proof.
  intros Hw Hh. cbv zeta.
  assert (Ew : bw * (464 / bw) = 464) by (field; lra).
  assert (Eh : bh * (546 / bh) = 546) by (field; lra).
  assert (Pw : 0 < 464 / bw) by (apply Rdiv_lt_0_compat; lra).
  assert (Ph : 0 < 546 / bh) by (apply Rdiv_lt_0_compat; lra).
  unfold Rmin. destruct (Rle_dec (464 / bw) (546 / bh)) as [L | L].
  - assert (bh * (464 / bw) <= bh * (546 / bh)) by (apply Rmult_le_compat_l; lra).
    split; [lra | ]. split; [lra | ]. split; [lra | now left].
  - assert (bw * (546 / bh) <= bw * (464 / bw)) by (apply Rmult_le_compat_l; lra).
    split; [lra | ]. split; [lra | ]. split; [lra | now right].
Qed.

(** X20.  For a box with positive sides [export_pdf] finds a positive
    scale, the same in both directions, with which the box fills the width
    or the height left for it, and an origin such that every point of the
    box is drawn inside the drawing area, at least 20 points from its left
    and right sides and 15 points from its bottom and top. *)
Theorem profile_fits_drawing_area (profile : OptimizedProfile) :
  0 < bbox_w profile -> 0 < bbox_h profile ->
  exists scale ox oy,
    layout profile = Done (scale, ox, oy)
    /\ 0 < scale
    /\ (bbox_w profile * scale = DRAW_AREA_W - 40
        \/ bbox_h profile * scale = DRAW_AREA_H - 30)
    /\ forall q,
         0 <= fst q <= bbox_w profile -> 0 <= snd q <= bbox_h profile ->
         in_profile_area (on_page ox oy scale q).
Proof.
  intros Hw Hh. unfold layout.
  rewrite !div_nonzero by lra. cbv zeta.
  destruct layout_constants as (EX & EY & EW & EH). rewrite EX, EY, EW, EH.
  replace (504 - 40) with 464 by lra. replace (576 - 30) with 546 by lra.
  destruct (scale_fits _ _ Hw Hh) as (Hs & Lw & Lh & Ht). cbv zeta in Hs, Lw, Lh, Ht.
  set (scale := Rmin (464 / bbox_w profile) (546 / bbox_h profile)) in *.
  eexists. eexists. eexists. split; [reflexivity | ].
  split; [exact Hs | ]. split; [exact Ht | ].
  intros [x y]. cbn [fst snd]. intros Hx Hy.
  unfold in_profile_area, on_page. cbn [fst snd].
  assert (0 <= x * scale) by (apply Rmult_le_pos; lra).
  assert (0 <= y * scale) by (apply Rmult_le_pos; lra).
  assert (x * scale <= bbox_w profile * scale) by (apply Rmult_le_compat_r; lra).
  assert (y * scale <= bbox_h profile * scale) by (apply Rmult_le_compat_r; lra).
  repeat split; lra.
Qed.

Lemma profile_fits_drawing_area_witness :
  exists scale ox oy,
    layout half_disc_placed = Done (scale, ox, oy)
    /\ 0 < scale
    /\ (bbox_w half_disc_placed * scale = DRAW_AREA_W - 40
        \/ bbox_h half_disc_placed * scale = DRAW_AREA_H - 30)
    /\ forall q,
         0 <= fst q <= bbox_w half_disc_placed ->
         0 <= snd q <= bbox_h half_disc_placed ->
         in_profile_area (on_page ox oy scale q).
Proof.
  apply (profile_fits_drawing_area half_disc_placed);
    cbn [half_disc_placed bbox_w bbox_h]; lra.
Defined.

(** X21.  A profile that is one horizontal segment goes through
    [optimize_rotation] unturned and comes out with a box of height 0;
    [export_dxf] writes its line, and the arithmetic of [export_pdf] then
    divides by a side of the box that is 0: the PDF export raises
    [ZeroDivisionError]. *)
Theorem flat_profile_has_no_pdf
  (mrr : list (R * R) -> option ((R * R) * (R * R))) (p : ProfileResult) (x1 x2 y : R) :
  projection.edges p = [Line2D x1 y x2 y] ->
  exists op,
    optimizer.optimize_rotation mrr p = Ok op
    /\ rotation_deg op = - 0 /\ bbox_h op = 0
    /\ (exists a b, msp (export_dxf op) = [LINE (a, 0, 0) (b, 0, 0)])
    /\ layout op = ZeroDivisionError.
Proof.
  intros He.
  assert (Ha : optimizer._find_optimal_angle
                 mrr (optimizer._sample_points (projection.edges p)) = Ok 0)
    by (apply find_optimal_angle_few; rewrite He; cbn; lia).
  pose proof (fun x0 x1 y0 y1 => optimize_rotation_ok mrr p 0 x0 x1 y0 y1 Ha) as Hok.
  cbv zeta in Hok.
  rewrite He in Hok.
  unfold rotated_by in Hok.
  cbn [map _rotate_edge _rotate_point _sample_points flat_map edge_points app
       fst snd Py.min Py.max fold_left] in Hok.
  destruct cos_sin_no_turn as [Ec Es]. rewrite Ec, Es in Hok.
  eexists. split; [apply Hok; reflexivity | ].
  cbn [rotation_deg bbox_h]. split; [reflexivity | ].
  assert (Ey : x1 * 0 + y * 1 = x2 * 0 + y * 1) by ring.
  assert (E0 : Rmax (x1 * 0 + y * 1) (x2 * 0 + y * 1)
               - Rmin (x1 * 0 + y * 1) (x2 * 0 + y * 1) = 0).
  { rewrite Ey. unfold Rmax, Rmin. destruct (Rle_dec _ _); ring. }
  split; [exact E0 | ]. split.
  - unfold export_dxf.
    cbn [msp optimizer.edges map _translate_edge flat_map export_edge app].
    rewrite Ey. eexists. eexists. do 2 f_equal.
    + f_equal. f_equal. unfold Rmin. destruct (Rle_dec _ _); ring.
    + f_equal. f_equal. unfold Rmin. destruct (Rle_dec _ _); ring.
  - unfold layout. cbn [bbox_w bbox_h]. rewrite E0, div_zero.
    destruct (div _ _); reflexivity.
Qed.

Lemma flat_profile_has_no_pdf_witness :
  exists op,
    optimizer.optimize_rotation
      (fun _ => Some ((0, 0), (1, 0)))
      {| projection.edges := [Line2D 0 0 3 0];
         projection.wires := [[Line2D 0 0 3 0]];
         projection.thickness_inches := 1;
         extrusion_axis := Z |} = Ok op
    /\ rotation_deg op = - 0 /\ bbox_h op = 0
    /\ (exists a b, msp (export_dxf op) = [LINE (a, 0, 0) (b, 0, 0)])
    /\ layout op = ZeroDivisionError.
Proof.
  apply (flat_profile_has_no_pdf
           (fun _ => Some ((0, 0), (1, 0)))
           {| projection.edges := [Line2D 0 0 3 0];
              projection.wires := [[Line2D 0 0 3 0]];
              projection.thickness_inches := 1;
              extrusion_axis := Z |} 0 3 0).
  reflexivity.
Defined.

Lemma draw_edge_shows (e : edge) (ox oy scale : R) :
  Forall2 (shows ox oy scale) (export_edge e) (draw_edge e ox oy scale).
Proof.
  destruct e as [x1 y1 x2 y2 | cx cy r | cx cy r s w x1 y1 x2 y2 | pts];
    cbn [export_edge draw_edge].
  - constructor; [ | constructor]. split; reflexivity.
  - constructor; [ | constructor]. split; reflexivity.
  - cbv zeta. unfold Py.gtb, Py.ltb. destruct (Rlt_dec 0 w) as [Hpos | Hneg];
      (constructor; [ | constructor]); cbn [shows c0 c1 fst snd]; unfold on_page;
      cbn [fst snd].
    + split; [f_equal; ring | ]. split; [f_equal; ring | ]. left. repeat split. exact Hpos.
    + split; [f_equal; ring | ]. split; [f_equal; ring | ]. right. repeat split. lra.
  - destruct (2 <=? length pts)%nat; [ | constructor].
    constructor; [ | constructor]. cbn [shows]. split.
    + rewrite map_map. apply map_ext. intros [x y]. reflexivity.
    + apply Forall_forall. intros q Hq. apply in_map_iff in Hq.
      destruct Hq as (q0 & <- & _). reflexivity.
Qed.

(** X22.  The PDF shows what the DXF holds: for every origin and scale,
    the canvas calls of [_draw_profile] and the entities [export_dxf]
    writes correspond one to one and in order (both leave out the
    polylines with fewer than two points), each call drawing the entity of
    its position: same kind, points at their place on the page, radius
    scaled; an arc goes to the canvas with its start angle and signed
    sweep, and to the drawing as the counter-clockwise arc between the
    same two angles; the polyline vertices written carry bulge 0. *)
Theorem pdf_shows_the_dxf (profile : OptimizedProfile) (ox oy scale : R) :
  Forall2 (shows ox oy scale)
          (msp (export_dxf profile)) (_draw_profile profile ox oy scale).
Proof.
  unfold export_dxf, _draw_profile. cbn [msp].
  induction (optimizer.edges profile) as [ | e l IH]; cbn [flat_map].
  - constructor.
  - apply Forall2_app; [apply draw_edge_shows | exact IH].
Qed.

(** ** The command lines *)

Import cli.
Import cli_statements.

Section loop_facts.

Variables (path E : Type).
Variable name : path -> string.
Variable process : path -> option E.

Lemma fold_turn (files : list path) (n : nat) (errs : list (string * E)) :
  fold_left (turn path E name process) files (n, errs)
  = ((n + length (filter (succeeds path E process) files))%nat,
     errs ++ flat_map (failure path E name process) files).
Proof.
  revert n errs. induction files as [ | p files IH]; intros n errs;
    cbn [fold_left filter flat_map].
  - rewrite app_nil_r. cbn [length]. f_equal. lia.
  - unfold turn at 2, succeeds at 1, failure at 1. cbn [fst snd].
    destruct (process p) as [e | ]; rewrite IH.
    + cbn [app]. rewrite <- app_assoc. reflexivity.
    + cbn [length app]. f_equal. lia.
Qed.

Lemma failures_length (files : list path) :
  (length (filter (succeeds path E process) files)
   + length (flat_map (failure path E name process) files)
   = length files)%nat.
Proof.
  induction files as [ | p files IH]; cbn [filter flat_map length]; [reflexivity | ].
  unfold succeeds at 1, failure at 1. destruct (process p);
    rewrite ?length_app; cbn [length app]; lia.
Qed.

End loop_facts.

(** X23.  The loop of the two command lines goes through every file,
    whatever fails on the way: the count of successes is the number of
    files that were processed without an exception, the list of errors
    holds one entry for each file that raised, in the order of the files
    and under its name, and the two add up to the number of files.  With no
    file at all the command exits with code 1 before the loop. *)
Theorem batch_accounts_for_every_file
  (path E : Type) (name : path -> string) (process : path -> option E)
  (files : list path) :
  loop path E name process files
  = (length (filter (succeeds path E process) files),
     flat_map (failure path E name process) files)
  /\ (fst (loop path E name process files)
      + length (snd (loop path E name process files)) = length files)%nat
  /\ (main path E name process files = Exit E 1%Z <-> files = []).
Proof.
  assert (L : loop path E name process files
              = (length (filter (succeeds path E process) files),
                 flat_map (failure path E name process) files)).
  { unfold loop. rewrite fold_turn. reflexivity. }
  split; [exact L | ]. split.
  - rewrite L. cbn [fst snd]. apply failures_length.
  - unfold main. destruct files as [ | p files].
    + split; reflexivity.
    + rewrite L. split; discriminate.
Qed.

Lemma length_append (s t : string) :
  String.length (s ++ t) = (String.length s + String.length t)%nat.
Proof. induction s as [ | c s IH]; cbn; [reflexivity | now rewrite IH]. Qed.

Lemma substring_whole (t : string) : substring 0 (String.length t) t = t.
Proof. induction t as [ | c t IH]; cbn; [reflexivity | now rewrite IH]. Qed.

Lemma substring_suffix (s t : string) :
  substring (String.length s) (String.length t) (s ++ t) = t.
Proof. induction s as [ | c s IH]; cbn; [apply substring_whole | exact IH]. Qed.

Lemma endswith_append (s t : string) : endswith (s ++ t) t = true.
Proof.
  unfold endswith. rewrite length_append.
  replace (String.length s + String.length t - String.length t)%nat
    with (String.length s) by lia.
  rewrite substring_suffix, String.eqb_refl, andb_true_r.
  apply Nat.leb_le. lia.
Qed.

(** X24.  The DXF tool never takes a file it has written for an input:
    every stem [process_dxf] gives to its output ends in [_rotated], and
    the command line filters these stems out, so that the outputs of a run
    left in the folder do not change the inputs of the next run. *)
Theorem rotated_outputs_are_not_inputs (stems processed : list string) :
  dxf_inputs (stems ++ map rotated_stem processed) = dxf_inputs stems.
Proof.
  unfold dxf_inputs. rewrite filter_app.
  replace (filter (fun stem => negb (endswith stem "_rotated"))
                  (map rotated_stem processed))
    with (@nil string); [apply app_nil_r | ].
  induction processed as [ | s l IH]; cbn [map filter]; [reflexivity | ].
  unfold rotated_stem at 1. rewrite endswith_append. exact IH.
Qed.

Lemma replace_no_old (old new : Ascii.ascii) (s : string) :
  old <> new ->
  Forall (fun c => c <> old) (list_ascii_of_string (replace old new s)).
Proof.
  intros Hd. induction s as [ | c s IH]; cbn [replace list_ascii_of_string];
    constructor; [ | exact IH].
  destruct (Ascii.eqb c old) eqn:Ec; [congruence | ].
  intros ->. now rewrite Ascii.eqb_refl in Ec.
Qed.

Lemma replace_idempotent (old new : Ascii.ascii) (s : string) :
  old <> new -> replace old new (replace old new s) = replace old new s.
Proof.
  intros Hd. induction s as [ | c s IH]; cbn [replace]; [reflexivity | ].
  rewrite IH. f_equal. destruct (Ascii.eqb c old) eqn:Ec.
  - destruct (Ascii.eqb new old) eqn:En; [ | reflexivity].
    apply Ascii.eqb_eq in En. congruence.
  - now rewrite Ec.
Qed.

Lemma list_ascii_append (s t : string) :
  list_ascii_of_string (s ++ t) = list_ascii_of_string s ++ list_ascii_of_string t.
Proof.
  induction s as [ | c s IH]; cbn [String.append list_ascii_of_string app];
    [reflexivity | now rewrite IH].
Qed.

(** X25.  The names of the files written hold no space, and two stems that
    differ only in having spaces where the other has underscores are
    written to the same files: the stem with the spaces replaced gets the
    same converted stem and the same rotated stem as the stem itself. *)
Theorem stems_with_spaces_collide (stem : string) :
  Forall (fun c => c <> Ascii.Space) (list_ascii_of_string (converted_stem stem))
  /\ Forall (fun c => c <> Ascii.Space) (list_ascii_of_string (rotated_stem stem))
  /\ converted_stem (converted_stem stem) = converted_stem stem
  /\ rotated_stem (converted_stem stem) = rotated_stem stem.
Proof.
  assert (Hd : Ascii.Space <> Ascii.Ascii true true true true true false true false)
    by discriminate.
  unfold rotated_stem, converted_stem. split; [ | split; [ | split]].
  - apply (replace_no_old _ _ stem Hd).
  - rewrite list_ascii_append. apply Forall_app. split.
    + apply (replace_no_old _ _ stem Hd).
    + repeat constructor; discriminate.
  - apply (replace_idempotent _ _ stem Hd).
  - apply (f_equal (fun s => (s ++ "_rotated")%string)).
    apply (replace_idempotent _ _ stem Hd).
Qed.

(** ** Polar form of [math.atan2] *)

Import circle_statements.

Lemma radians_degrees (x : R) : Py.radians (Py.degrees x) = x.
Proof. unfold Py.degrees, Py.radians. pose proof PI_RGT_0. field. lra. Qed.

Lemma sin_cos_one (t : R) : sin t * sin t + cos t * cos t = 1.
Proof. exact (sin2_cos2 t). Qed.

Lemma polar_from_tangent (x y rho c s : R) :
  0 <= rho -> x * x + y * y = rho * rho ->
  0 < c -> s * s + c * c = 1 -> s * x = y * c ->
  (0 < x -> x = rho * c /\ y = rho * s)
  /\ (x < 0 -> x = rho * - c /\ y = rho * - s).
Proof.
  intros Hr Hd Hc Hsc Ht.
  assert (Hq : (rho * c) * (rho * c) = x * x).
  { replace (rho * c * (rho * c)) with ((x * x + y * y) * (c * c))
      by (rewrite Hd; ring).
    replace ((x * x + y * y) * (c * c)) with (x * x * (c * c) + (y * c) * (y * c))
      by ring.
    rewrite <- Ht.
    replace (x * x * (c * c) + s * x * (s * x)) with (x * x * (s * s + c * c)) by ring.
    rewrite Hsc. ring. }
  assert (Hrc : 0 <= rho * c) by (apply Rmult_le_pos; lra).
  split; intros Hx.
  - assert (E : x = rho * c) by nra.
    split; [exact E | ].
    apply (Rmult_eq_reg_r c); [ | lra].
    rewrite <- Ht, E at 1. ring.
  - assert (E : x = - (rho * c)) by nra.
    split; [rewrite E; ring | ].
    apply (Rmult_eq_reg_r c); [ | lra].
    rewrite <- Ht. rewrite E. ring.
Qed.

Lemma atan_facts (t : R) :
  0 < cos (atan t) /\ sin (atan t) = t * cos (atan t).
Proof.
  pose proof (atan_bound t) as [Hl Hu].
  assert (Hc : 0 < cos (atan t)) by (apply cos_gt_0; lra).
  split; [exact Hc | ].
  pose proof (tan_atan t) as Ht. unfold tan in Ht.
  rewrite <- Ht at 2. field. lra.
Qed.

Lemma atan2_polar (x y rho : R) :
  0 <= rho -> x * x + y * y = rho * rho ->
  x = rho * cos (Py.atan2 y x) /\ y = rho * sin (Py.atan2 y x).
Proof.
  intros Hr Hd. unfold Py.atan2.
  destruct (Rlt_dec 0 x) as [Hx | Hx].
  - destruct (atan_facts (y / x)) as [Hc Hs].
    apply (polar_from_tangent x y rho _ _ Hr Hd Hc (sin_cos_one _)); [ | exact Hx].
    rewrite Hs. field. lra.
  - destruct (Rlt_dec x 0) as [Hx' | Hx'].
    + destruct (atan_facts (y / x)) as [Hc Hs].
      assert (P : x = rho * - cos (atan (y / x)) /\ y = rho * - sin (atan (y / x))).
      { apply (polar_from_tangent x y rho _ _ Hr Hd Hc (sin_cos_one _)); [ | exact Hx'].
        rewrite Hs. field. lra. }
      destruct (Rle_dec 0 y).
      * rewrite cos_plus, sin_plus, cos_PI, sin_PI.
        destruct P as [P1 P2]. split; [rewrite P1 at 1 | rewrite P2 at 1]; ring.
      * rewrite cos_minus, sin_minus, cos_PI, sin_PI.
        destruct P as [P1 P2]. split; [rewrite P1 at 1 | rewrite P2 at 1]; ring.
    + assert (x = 0) by lra. subst x.
      destruct (Rlt_dec 0 y) as [Hy | Hy].
      * rewrite cos_PI2, sin_PI2. split; nra.
      * destruct (Rlt_dec y 0) as [Hy' | Hy'].
        -- rewrite cos_neg, sin_neg, cos_PI2, sin_PI2. split; nra.
        -- rewrite cos_0, sin_0. split; nra.
Qed.

Lemma aligned_algebra (vx vy rho c s : R) :
  vx = rho * c -> vy = rho * s -> s * s + c * c = 1 ->
  vx * c - vy * - s = rho /\ vx * - s + vy * c = 0.
Proof.
  intros -> -> H. split; [ | ring].
  replace (rho * c * c - rho * s * - s) with (rho * (s * s + c * c)) by ring.
  rewrite H. ring.
Qed.

(** ** optimizer.py: what the angle is for *)

(** X26.  With three sample points or more and a rectangle from shapely,
    [_find_optimal_angle] returns an angle, and turning by the rotation
    that [optimize_rotation] applies, the negated angle, brings the edge of
    the minimum rotated rectangle from its corner 0 to its corner 1 onto
    the positive X direction: the rotated edge vector is its length along X
    and 0 along Y. *)
Theorem rotation_aligns_rectangle
  (mrr : list (R * R) -> option ((R * R) * (R * R))) (pts : list (R * R))
  (k0 k1 : R * R) :
  (3 <= length pts)%nat ->
  mrr pts = Some (k0, k1) ->
  exists angle,
    optimizer._find_optimal_angle mrr pts = Ok angle
    /\ rotate (- angle) (fst k1 - fst k0, snd k1 - snd k0)
       = (sqrt ((fst k1 - fst k0) * (fst k1 - fst k0)
                + (snd k1 - snd k0) * (snd k1 - snd k0)), 0).
Proof.
  intros Hn Hm. unfold optimizer._find_optimal_angle.
  replace (length pts <? 3)%nat with false by (symmetry; apply Nat.ltb_ge; exact Hn).
  rewrite Hm. cbn [fst snd]. eexists. split; [reflexivity | ].
  set (vx := fst k1 - fst k0). set (vy := snd k1 - snd k0).
  unfold rotate, _rotate_point. cbn [fst snd].
  replace (Py.radians (- Py.degrees (Py.atan2 vy vx))) with (- Py.atan2 vy vx)
    by (rewrite <- (radians_degrees (Py.atan2 vy vx)) at 1; unfold Py.radians; ring).
  rewrite cos_neg, sin_neg.
  assert (Hpos : 0 <= vx * vx + vy * vy) by nra.
  destruct (atan2_polar vx vy (sqrt (vx * vx + vy * vy)) (sqrt_pos _)
                        (eq_sym (sqrt_sqrt _ Hpos))) as [Hx Hy].
  destruct (aligned_algebra vx vy _ _ _ Hx Hy (sin_cos_one _)) as [E1 E2].
  now rewrite E1, E2.
Qed.

Lemma rotation_aligns_rectangle_witness :
  exists angle,
    optimizer._find_optimal_angle
      (fun _ => Some ((0, 0), (3, 4))) [(0, 0); (3, 4); (-1, 7)] = Ok angle
    /\ rotate (- angle) (fst (3, 4) - fst (0, 0), snd (3, 4) - snd (0, 0))
       = (sqrt ((fst (3, 4) - fst (0, 0)) * (fst (3, 4) - fst (0, 0))
                + (snd (3, 4) - snd (0, 0)) * (snd (3, 4) - snd (0, 0))), 0).
Proof.
  apply (rotation_aligns_rectangle (fun _ => Some ((0, 0), (3, 4)))
                                   [(0, 0); (3, 4); (-1, 7)] (0, 0) (3, 4)).
  - cbn [length]. lia.
  - reflexivity.
Defined.

(** ** projection.py: the stored end points of arcs *)

Lemma sweep_reaches_end (s e m : R) :
  exists k : BinNums.Z,
    s + (if Py.leb m ((if Py.eqb (_normalize_angle (e - s)) 0 then 360
                       else _normalize_angle (e - s)) + 0.5)
         then (if Py.eqb (_normalize_angle (e - s)) 0 then 360
               else _normalize_angle (e - s))
         else (if Py.eqb (_normalize_angle (e - s)) 0 then 360
               else _normalize_angle (e - s)) - 360)
    = e + 360 * IZR k.
Proof.
  rewrite normalize_angle_mod. destruct (mod_turns (e - s)) as [k Hk].
  unfold Py.eqb. destruct (Req_dec_T (Py.mod_ (e - s) 360) 0) as [E | E].
  - destruct (Py.leb m (360 + 0.5)).
    + exists (k + 1)%Z. rewrite plus_IZR. lra.
    + exists k. lra.
  - destruct (Py.leb m (Py.mod_ (e - s) 360 + 0.5)).
    + exists k. lra.
    + exists (k - 1)%Z. rewrite minus_IZR. lra.
Qed.

Lemma on_circle_at (cx cy r x y : R) :
  0 <= r -> (x - cx) * (x - cx) + (y - cy) * (y - cy) = r * r ->
  x = cx + r * cos (Py.atan2 (y - cy) (x - cx))
  /\ y = cy + r * sin (Py.atan2 (y - cy) (x - cx)).
Proof.
  intros Hr Hd. destruct (atan2_polar (x - cx) (y - cy) r Hr Hd) as [Hx Hy].
  split; lra.
Qed.

Lemma classify_ends (c : curve) (a : axis) (scale : R) :
  round_in_projection a scale c -> Forall ends_on_arc (classify c a scale).
Proof.
  unfold round_in_projection, classify, projected, centre, dist2.
  destruct (Py.ltb (Rabs (LastParameter c - FirstParameter c)) 1e-3);
    [intros _; constructor | ].
  destruct (GetType c); split_pairs.
  - intros _. repeat constructor.
  - cbn [fst snd]. intros (Hr & H1 & H2).
    destruct (Py.ltb _ 1e-6); [repeat constructor | ].
    constructor; [ | constructor]. cbv zeta.
    match goal with
    | |- ends_on_arc
           (Arc2D _ _ _ ?s
                  (if Py.leb ?m ((if Py.eqb (_normalize_angle (?e - ?s)) 0 then _ else _) + _)
                   then _ else _) _ _ _ _) =>
        destruct (sweep_reaches_end s e m) as [k Hk]
    end.
    cbn [ends_on_arc].
    rewrite Hk, radians_turns, !radians_degrees.
    match goal with
    | |- context [cos (?t + 2 * IZR k * PI)] =>
        destruct (sin_cos_period_Z t k) as [-> ->]
    end.
    destruct (on_circle_at _ _ _ _ _ Hr H1) as [A1 A2].
    destruct (on_circle_at _ _ _ _ _ Hr H2) as [B1 B2].
    repeat split; assumption.
  - intros _. repeat constructor.
Qed.

(** X27.  When every circular edge of a wire has its projected end points
    at the scaled radius from its projected centre, as it has when its
    plane is perpendicular to the axis, every [Arc2D] that
    [_extract_edges_from_wire] produces is consistent: the end points it
    stores are the points of its circle at its start angle and at its start
    angle plus its sweep. *)
Theorem extracted_arcs_are_consistent (wire : list curve) (a : axis) (scale : R) :
  Forall (round_in_projection a scale) wire ->
  Forall ends_on_arc (_extract_edges_from_wire wire a scale).
Proof.
  unfold _extract_edges_from_wire.
  induction 1 as [ | c wire Hc _ IH]; cbn [flat_map]; [constructor | ].
  apply Forall_app. split; [now apply classify_ends | exact IH].
Qed.

Lemma extracted_arcs_are_consistent_witness :
  Forall ends_on_arc
         (_extract_edges_from_wire [circle_edge 0 0 0 1 0 (PI / 2)] Z 1).
Proof.
  apply (extracted_arcs_are_consistent [circle_edge 0 0 0 1 0 (PI / 2)] Z 1).
  constructor; [ | constructor].
  unfold round_in_projection, projected, centre, dist2.
  cbn [circle_edge GetType Radius FirstParameter LastParameter Value Location
       _drop_axis fst snd].
  rewrite cos_0, sin_0, cos_PI2, sin_PI2. repeat split; lra.
Defined.

(** ** optimizer.py: the sample points lie on the circle *)

Lemma int_bounded (x : R) (n : BinNums.Z) :
  0 <= x <= IZR n -> (Py.int x <= n)%Z.
Proof.
  intros [Hl Hu]. unfold Py.int, Py.floor.
  destruct (Rle_dec 0 x) as [_ | H]; [ | contradiction].
  destruct (base_Int_part x) as [Hi _]. apply le_IZR. lra.
Qed.

Lemma on_circle (cx cy r t : R) :
  dist2 (cx + r * cos t, cy + r * sin t) (cx, cy) = r * r.
Proof.
  unfold dist2. cbn [fst snd]. pose proof (sin_cos_one t) as H.
  replace ((cx + r * cos t - cx) * (cx + r * cos t - cx)
           + (cy + r * sin t - cy) * (cy + r * sin t - cy))
    with (r * r * (sin t * sin t + cos t * cos t)) by ring.
  rewrite H. ring.
Qed.

(** X28.  The points [_sample_points] computes from angles lie on the
    circle of the edge.  A circle gives 64 points, all on it.  An arc
    gives its two stored end points first, then between 7 and 63 points on
    its circle when its sweep is at most a full turn, and never fewer than
    7. *)
Theorem samples_lie_on_the_circle (e : edge) : sampled_on_circle e.
Proof.
  destruct e as [x1 y1 x2 y2 | cx cy r | cx cy r s w x1 y1 x2 y2 | pts];
    cbn [sampled_on_circle edge_points]; try exact I.
  - split; [now rewrite length_map, length_seq | ].
    apply Forall_forall. intros q Hq. apply in_map_iff in Hq.
    destruct Hq as (i & <- & _). apply on_circle.
  - unfold _sample_arc_points. cbv zeta.
    set (n := Py.max_steps 8 (Py.int (Rabs w / 360 * INR 64))).
    assert (Hn : (8 <= n)%nat) by (unfold n, Py.max_steps; lia).
    split; [reflexivity | ].
    rewrite length_app, length_map, length_seq. cbn [length].
    split; [lia | ]. split.
    + intros Hw. assert (Hi : (Py.int (Rabs w / 360 * INR 64) <= 64)%Z).
      { apply int_bounded. replace (INR 64) with 64 by (rewrite INR_IZR_INZ; reflexivity).
        pose proof (Rabs_pos w). split; lra. }
      unfold n, Py.max_steps. lia.
    + cbn [app skipn]. apply Forall_forall. intros q Hq. apply in_map_iff in Hq.
      destruct Hq as (i & <- & _). apply on_circle.
Qed.

(** ** main.py: from the solid to the drawing *)

Import step_laser_main.
Import shell_examples.

Lemma all_edges_sweep (f : face) (a : axis) (u : R) :
  Forall sweep_in_range (all_edges f a u).
Proof.
  unfold all_edges, outer_edges, inner_wires_edges. apply Forall_app. split.
  - apply extract_edges_sweep.
  - induction (innerWires f) as [ | w ws IH]; cbn [map concat]; [constructor | ].
    apply Forall_app. split; [apply extract_edges_sweep | exact IH].
Qed.

Lemma moved_keep_sweeps (T : R * R -> R * R) (phi : R) (es es' : list edge) :
  Forall2 (moved_by T phi) es es' ->
  Forall sweep_in_range es -> Forall sweep_in_range es'.
Proof.
  induction 1 as [ | e e' es es' He _ IH]; intros Hall; [constructor | ].
  inversion Hall; subst. constructor; [ | now apply IH].
  destruct e, e'; cbn [moved_by sweep_in_range] in *; try tauto.
  destruct He as (_ & _ & -> & _). assumption.
Qed.

(** [optimize_rotation] raises for two reasons: no sample point, and no
    polygon from shapely for three sample points or more. *)
Lemma optimize_rotation_raises
  (mrr : list (R * R) -> option ((R * R) * (R * R))) (p : ProfileResult) (e : exn) :
  optimizer.optimize_rotation mrr p = Raise e ->
  (e = ValueError /\ optimizer._sample_points (projection.edges p) = [])
  \/ (e = AttributeError
      /\ (3 <= length (optimizer._sample_points (projection.edges p)))%nat
      /\ mrr (optimizer._sample_points (projection.edges p)) = None).
Proof.
  intros H.
  destruct (find_optimal_angle_cases
              mrr (optimizer._sample_points (projection.edges p)))
    as [[Hl Ha] | [(Hn & k0 & k1 & Hm & Ha) | (Hn & Hm & _)]].
  - destruct (optimizer._sample_points (projection.edges p)) as [ | q qs] eqn:Hs.
    + left. split; [ | reflexivity].
      unfold optimizer.optimize_rotation in H. rewrite Hs, Ha in H.
      cbn [bind] in H.
      match type of H with
      | context [Py.min (map fst (optimizer._sample_points ?es))] =>
          assert (Hr : optimizer._sample_points es = [])
      end.
      { apply length_zero_iff_nil. rewrite sample_points_rotate_length, Hs.
        reflexivity. }
      rewrite Hr in H. cbn [map Py.min bind] in H. now injection H.
    + rewrite <- Hs in Ha.
      destruct (optimize_rotation_returns mrr p _ Ha)
        as (x0 & x1 & y0 & y1 & _ & _ & _ & _ & Hop);
        [rewrite Hs; discriminate | ].
      rewrite Hop in H. discriminate.
  - destruct (optimize_rotation_returns mrr p _ Ha)
      as (x0 & x1 & y0 & y1 & _ & _ & _ & _ & Hop).
    + intros Hs. rewrite Hs in Hn. cbn [length] in Hn. lia.
    + rewrite Hop in H. discriminate.
  - right. rewrite (optimize_rotation_no_polygon mrr p Hn Hm) in H.
    injection H as <-. now repeat split.
Qed.

(** X29.  Whenever [process_step_file] gets as far as the DXF export, the
    drawing it writes holds the profile the optimizer returned: the arcs
    extracted from the solid have sweeps that are not zero and at most a
    full turn, the optimizer keeps the sweeps, and so the modelspace, read
    back entity by entity, gives the edges of the optimized profile in
    their order, clockwise arcs written from their end to their start, the
    polylines of fewer than two points left out. *)
Theorem converted_drawing_reads_back
  (mrr : list (R * R) -> option ((R * R) * (R * R))) (s : shape) (doc : document) :
  process_step_file mrr s = Ok doc ->
  exists p op es,
    extract_profile s MM_TO_INCHES = Ok p
    /\ optimizer.optimize_rotation mrr p = Ok op
    /\ doc = export_dxf op
    /\ as_edges (msp doc) es
    /\ Forall2 written_as (filter drawable (optimizer.edges op)) es.
Proof.
  unfold process_step_file, load_step.
  destruct (extract_profile s MM_TO_INCHES) as [p | ] eqn:Hp; cbn [bind];
    [ | discriminate].
  destruct (optimizer.optimize_rotation mrr p) as [op | ] eqn:Hop; cbn [bind];
    [ | discriminate].
  intros H. injection H as <-.
  assert (Hsw : Forall sweep_in_range (optimizer.edges op)).
  { destruct (extract_profile_ok s _ p Hp) as (f & a & _ & ->).
    destruct (optimize_rotation_inv mrr _ op Hop)
      as (angle & _ & x0 & x1 & y0 & y1 & _ & _ & _ & _ & ->).
    cbn [optimizer.edges profile_of projection.edges].
    eapply moved_keep_sweeps; [apply moved_edges | apply all_edges_sweep]. }
  destruct (exported_edges_read_back _ Hsw) as (es & H1 & H2).
  exists p, op, es. repeat split; assumption.
Qed.

Lemma cone_shell_axes : axes_sorted cone_shell = [X; Y; Z].
Proof.
  rewrite axes_sorted_cases. cbv zeta.
  cbn [extents cone_shell xmin xmax ymin ymax zmin zmax].
  repeat destruct (Rle_dec _ _); first [reflexivity | exfalso; lra].
Qed.

Lemma cone_shell_no_planar : no_planar_face cone_shell.
Proof. intros f [<- | []]. cbn. discriminate. Qed.

Lemma cone_shell_converted :
  exists doc, process_step_file (fun _ => Some ((0, 0), (1, 0))) cone_shell = Ok doc.
Proof.
  unfold process_step_file, load_step.
  rewrite (extract_profile_no_planar cone_shell _ cone_face [] X [Y; Z]
             eq_refl cone_shell_axes cone_shell_no_planar).
  cbn [bind].
  destruct (optimize_rotation_defined
              (fun _ => Some ((0, 0), (1, 0)))
              (profile_of cone_shell cone_face X MM_TO_INCHES)) as [op Hop].
  - cbn [profile_of projection.edges]. unfold all_edges, outer_edges.
    cbn [cone_face outerWire]. unfold _extract_edges_from_wire at 1.
    cbn [flat_map]. rewrite classify_segment.
    cbn [app optimizer._sample_points flat_map optimizer.edge_points].
    discriminate.
  - right. discriminate.
  - rewrite Hop. cbn [bind]. eexists. reflexivity.
Qed.

Lemma converted_drawing_reads_back_witness :
  exists doc p op es,
    process_step_file (fun _ => Some ((0, 0), (1, 0))) cone_shell = Ok doc
    /\ extract_profile cone_shell MM_TO_INCHES = Ok p
    /\ optimizer.optimize_rotation (fun _ => Some ((0, 0), (1, 0))) p = Ok op
    /\ doc = export_dxf op
    /\ as_edges (msp doc) es
    /\ Forall2 written_as (filter drawable (optimizer.edges op)) es.
Proof.
  destruct cone_shell_converted as [doc H].
  destruct (converted_drawing_reads_back _ cone_shell doc H)
    as (p & op & es & H1 & H2 & H3 & H4 & H5).
  exists doc, p, op, es. repeat split; assumption.
Defined.

(** The tilted plate is not converted: its end, seen edge-on, gives eight
    sample points on one line, for which shapely gives no polygon. *)
Lemma tilted_plate_not_converted
  (mrr : list (R * R) -> option ((R * R) * (R * R))) :
  mrr (optimizer._sample_points
         (projection.edges
            (profile_of tilted_plate (plate_end 0 (-1)) Z MM_TO_INCHES))) = None ->
  process_step_file mrr tilted_plate = Raise AttributeError.
Proof.
  intros Hm. unfold process_step_file, load_step.
  rewrite tilted_plate_extracted. cbn [bind].
  rewrite optimize_rotation_no_polygon; [reflexivity | | exact Hm].
  destruct (tilted_plate_samples MM_TO_INCHES) as [Hl _]. cbv zeta in Hl.
  rewrite Hl. lia.
Qed.

(** X30.  Up to the DXF export, [process_step_file] fails for three
    reasons only: with [IndexError], for a solid without a face; with
    [ValueError], for a solid whose chosen face gives no sample point to
    the optimizer; and with [AttributeError], for a solid whose chosen face
    gives three sample points or more for which shapely gives no polygon,
    as for a face seen edge-on, whose sample points lie on one line. *)
Theorem conversion_failures
  (mrr : list (R * R) -> option ((R * R) * (R * R))) (s : shape) (e : exn) :
  process_step_file mrr s = Raise e ->
  (e = IndexError /\ faces s = [])
  \/ (e = ValueError
      /\ exists p, extract_profile s MM_TO_INCHES = Ok p
                   /\ optimizer._sample_points (projection.edges p) = [])
  \/ (e = AttributeError
      /\ exists p, extract_profile s MM_TO_INCHES = Ok p
                   /\ (3 <= length (optimizer._sample_points (projection.edges p)))%nat
                   /\ mrr (optimizer._sample_points (projection.edges p)) = None).
Proof.
  unfold process_step_file, load_step.
  destruct (extract_profile s MM_TO_INCHES) as [p | x] eqn:Hp; cbn [bind].
  - destruct (optimizer.optimize_rotation mrr p) as [op | x] eqn:Hop; cbn [bind];
      [discriminate | ].
    intros H. injection H as <-. right.
    destruct (optimize_rotation_raises mrr p x Hop) as [[-> Hs] | (-> & Hn & Hm)].
    + left. split; [reflexivity | ]. now exists p.
    + right. split; [reflexivity | ]. now exists p.
  - intros H. injection H as <-. left.
    destruct (faces s) as [ | f fs] eqn:Hf.
    + rewrite (extract_profile_no_faces s _ Hf) in Hp. injection Hp as <-.
      split; reflexivity.
    + destruct (extract_profile_some_face s MM_TO_INCHES) as [q Hq];
        [rewrite Hf; discriminate | ].
      rewrite Hq in Hp. discriminate.
Qed.

Lemma conversion_failures_witness :
  (AttributeError = IndexError /\ faces tilted_plate = [])
  \/ (AttributeError = ValueError
      /\ exists p, extract_profile tilted_plate MM_TO_INCHES = Ok p
                   /\ optimizer._sample_points (projection.edges p) = [])
  \/ (AttributeError = AttributeError
      /\ exists p, extract_profile tilted_plate MM_TO_INCHES = Ok p
                   /\ (3 <= length (optimizer._sample_points (projection.edges p)))%nat
                   /\ (fun _ : list (R * R) => @None ((R * R) * (R * R)))
                        (optimizer._sample_points (projection.edges p)) = None).
Proof.
  apply (conversion_failures (fun _ => None) tilted_plate AttributeError).
  now apply tilted_plate_not_converted.
Defined.
